(** * Verification of [scripts/fetch_nbro_aq.py]

    A shallow embedding of the NBRO air-quality fetch script: the
    PM2.5 breakpoint table, the classifier [classify_pm25], the timestamp
    conversion [iso_from_ms] and the enrichment and ordering pass of [main].

    Python floats are IEEE 754 binary64 values; they are modelled by Rocq's
    primitive floats, whose operations are specified by [SpecFloat] through
    the axioms of [FloatAxioms].  Python dictionaries are finite maps from
    strings to dynamic values. *)

From Stdlib Require Import ZArith String Ascii List Floats Lia Bool.
From stdpp Require Import gmap strings list fin_maps sorting.

Set Warnings "-inexact-float,-register-all".
Set Default Proof Using "Type".

Local Open Scope Z_scope.

(** ** Dynamic values

    The values a decoded JSON document holds, as Python objects. *)

Inductive pyval :=
| PyNone
| PyBool (b : bool)
| PyInt (z : Z)
| PyFloat (f : float)
| PyStr (s : string)
| PyList (l : list pyval)
| PyDict (d : gmap string pyval).

(** A Python [dict] with string keys. *)
Abbreviation pydict := (gmap string pyval).

(** ** Exceptions

    The exception classes the modelled builtins raise.  All of them derive
    from [Exception]. *)

Inductive exn := ValueError | TypeError | OverflowError | OSError.

Inductive result (A : Type) :=
| Ok (a : A)
| Raise (e : exn).
Arguments Ok {A} a.
Arguments Raise {A} e.

#[export] Instance result_ret : MRet result := fun _ a => Ok a.
#[export] Instance result_bind : MBind result := fun _ _ k m =>
  match m with
  | Ok a => k a
  | Raise e => Raise e
  end.

Definition raises {A} (m : result A) : bool :=
  match m with Ok _ => false | Raise _ => true end.

(** ** Floats *)

Module PyFloatOps.

Definition SF64normalize (m e : Z) : spec_float :=
  binary_normalize prec emax m e false.

(** The float nearest to an integer (ties to even), as [PyLong_AsDouble]
    computes it; an infinite result stands for its overflow. *)
Definition of_Z (z : Z) : float := SF2Prim (SF64normalize z 0).

(** Round half to even of [m / 2^k], for [m >= 0] and [k > 0]. *)
Definition rne_shift (m k : Z) : Z :=
  let d := 2 ^ k in
  let q := m / d in
  match (2 * (m mod d)) ?= d with
  | Lt => q
  | Eq => if Z.even q then q else q + 1
  | Gt => q + 1
  end.

(** The integer nearest to a finite float (ties to even). *)
Definition SFround (x : spec_float) : option Z :=
  match x with
  | S754_zero _ => Some 0
  | S754_finite s m e =>
      let a := if 0 <=? e then Z.pos m * 2 ^ e else rne_shift (Z.pos m) (- e) in
      Some (if s then - a else a)
  | S754_infinity _ | S754_nan => None
  end.

(** The integral part of a finite float, truncated towards zero. *)
Definition SFtrunc (x : spec_float) : option Z :=
  match x with
  | S754_zero _ => Some 0
  | S754_finite s m e =>
      let a := if 0 <=? e then Z.pos m * 2 ^ e else Z.pos m / 2 ^ (- e) in
      Some (if s then - a else a)
  | S754_infinity _ | S754_nan => None
  end.

(** The float nearest to [n * 10^k] for [n >= 0], correctly rounded as
    CPython's [strtod] does.  A negative [k] divides with a sticky bit kept
    below the rounding position. *)
Definition of_decimal (neg : bool) (n k : Z) : float :=
  let sf :=
    if n =? 0 then S754_zero false
    else if 0 <=? k then binary_normalize prec emax (n * 10 ^ k) 0 false
    else
      let d := 10 ^ (- k) in
      let s := Z.log2 d + 64 in
      let q := (n * 2 ^ s) / d in
      let r := (n * 2 ^ s) mod d in
      binary_normalize prec emax (2 * q + (if r =? 0 then 0 else 1)) (- s - 1) false in
  SF2Prim (if neg then SFopp sf else sf).

End PyFloatOps.
Import PyFloatOps.

(** ** [float(str)]

    The grammar Python's [float] accepts: optional surrounding white space,
    an optional sign, then [inf], [infinity] or [nan] in any letter case, or
    a decimal number with an optional exponent whose digits may be grouped
    by single underscores.  Before it parses, [float] turns the white space
    and the decimal digits beyond ASCII into a blank and into ASCII digits.
    A string holds the UTF-8 bytes of a Python [str]. *)

Module FloatParse.

(** The white space [float] strips from both ends ([Py_ISSPACE]). *)
Definition is_space (c : ascii) : bool :=
  let n := Z.of_nat (nat_of_ascii c) in
  ((9 <=? n) && (n <=? 13)) || (n =? 32).

(** The code points of the UTF-8 bytes [s]; [None] when the bytes are no
    UTF-8.  [need] continuation bytes are still due for the code point begun
    as [acc]. *)
Fixpoint utf8_decode (s : list ascii) (need : nat) (acc : Z) : option (list Z) :=
  match s with
  | [] => match need with O => Some [] | S _ => None end
  | c :: s' =>
      let n := Z.of_nat (nat_of_ascii c) in
      match need with
      | O =>
          if n <? 128 then option_map (cons n) (utf8_decode s' 0 0)
          else if (192 <=? n) && (n <? 224) then utf8_decode s' 1 (n - 192)
          else if (224 <=? n) && (n <? 240) then utf8_decode s' 2 (n - 224)
          else if (240 <=? n) && (n <? 248) then utf8_decode s' 3 (n - 240)
          else None
      | S k =>
          if (128 <=? n) && (n <? 192) then
            let acc' := acc * 64 + (n - 128) in
            match k with
            | O => option_map (cons acc') (utf8_decode s' 0 0)
            | S _ => utf8_decode s' k acc'
            end
          else None
      end
  end.

(** The white space beyond ASCII ([Py_UNICODE_ISSPACE]). *)
Definition unicode_spaces : list Z :=
  [0x85; 0xa0; 0x1680; 0x2000; 0x2001; 0x2002; 0x2003; 0x2004; 0x2005; 0x2006;
   0x2007; 0x2008; 0x2009; 0x200a; 0x2028; 0x2029; 0x202f; 0x205f; 0x3000].

Definition is_unicode_space (cp : Z) : bool := existsb (Z.eqb cp) unicode_spaces.

(** The decimal digits beyond ASCII come in runs of ten, from zero to nine:
    the first code point of each run (Unicode 14.0, as CPython 3.11 has it). *)
Definition decimal_runs : list Z :=
  [0x660; 0x6f0; 0x7c0; 0x966; 0x9e6; 0xa66; 0xae6; 0xb66; 0xbe6; 0xc66; 0xce6;
   0xd66; 0xde6; 0xe50; 0xed0; 0xf20; 0x1040; 0x1090; 0x17e0; 0x1810; 0x1946;
   0x19d0; 0x1a80; 0x1a90; 0x1b50; 0x1bb0; 0x1c40; 0x1c50; 0xa620; 0xa8d0;
   0xa900; 0xa9d0; 0xa9f0; 0xaa50; 0xabf0; 0xff10; 0x104a0; 0x10d30; 0x11066;
   0x110f0; 0x11136; 0x111d0; 0x112f0; 0x11450; 0x114d0; 0x11650; 0x116c0;
   0x11730; 0x118e0; 0x11950; 0x11c50; 0x11d50; 0x11da0; 0x16a60; 0x16ac0;
   0x16b50; 0x1d7ce; 0x1d7d8; 0x1d7e2; 0x1d7ec; 0x1d7f6; 0x1e140; 0x1e2f0;
   0x1e950; 0x1fbf0].

Definition unicode_decimal (cp : Z) : option Z :=
  option_map (fun b => cp - b)
    (List.find (fun b => (b <=? cp) && (cp <? b + 10)) decimal_runs).

(** What [float] makes of a character before it parses: an ASCII character
    is kept, other white space becomes a blank, another decimal digit its
    ASCII digit, and with any other character the string is no number. *)
Definition to_ascii (cp : Z) : option ascii :=
  if cp <? 128 then Some (ascii_of_nat (Z.to_nat cp))
  else if is_unicode_space cp then Some " "%char
  else option_map (fun d => ascii_of_nat (48 + Z.to_nat d)) (unicode_decimal cp).

Fixpoint transform (cps : list Z) : option (list ascii) :=
  match cps with
  | [] => Some []
  | cp :: rest =>
      match to_ascii cp, transform rest with
      | Some c, Some l => Some (c :: l)
      | _, _ => None
      end
  end.

Definition digit_of (c : ascii) : option Z :=
  let n := Z.of_nat (nat_of_ascii c) in
  if (48 <=? n) && (n <=? 57) then Some (n - 48) else None.

Definition lower (c : ascii) : ascii :=
  let n := nat_of_ascii c in
  if (65 <=? Z.of_nat n) && (Z.of_nat n <=? 90) then ascii_of_nat (n + 32) else c.

Fixpoint lstrip (s : list ascii) : list ascii :=
  match s with
  | c :: s' => if is_space c then lstrip s' else s
  | [] => []
  end.

Definition strip (s : list ascii) : list ascii :=
  rev (lstrip (rev (lstrip s))).

(** [digit (["_"] digit)*] after a first digit: the value accumulated, the
    number of digits read and the rest of the input. *)
Fixpoint digits_tail (s : list ascii) (acc n : Z) : Z * Z * list ascii :=
  match s with
  | c :: s' =>
      match digit_of c with
      | Some d => digits_tail s' (10 * acc + d) (n + 1)
      | None =>
          if Ascii.eqb c "_" then
            match s' with
            | c2 :: s'' =>
                match digit_of c2 with
                | Some d => digits_tail s'' (10 * acc + d) (n + 1)
                | None => (acc, n, s)
                end
            | [] => (acc, n, s)
            end
          else (acc, n, s)
      end
  | [] => (acc, n, s)
  end.

(** A [digitpart] continuing the value [acc]; [None] when no digit starts it. *)
Definition digitpart (s : list ascii) (acc : Z) : option (Z * Z * list ascii) :=
  match s with
  | c :: s' =>
      match digit_of c with
      | Some d => Some (digits_tail s' (10 * acc + d) 1)
      | None => None
      end
  | [] => None
  end.

Definition sign (s : list ascii) : bool * list ascii :=
  match s with
  | c :: s' =>
      if Ascii.eqb c "-" then (true, s')
      else if Ascii.eqb c "+" then (false, s')
      else (false, s)
  | [] => (false, s)
  end.

(** [number]: the digits as one integer and the count of fraction digits. *)
Definition number (s : list ascii) : option (Z * Z * list ascii) :=
  match digitpart s 0 with
  | Some (i, _, rest) =>
      match rest with
      | c :: rest' =>
          if Ascii.eqb c "." then
            match digitpart rest' i with
            | Some (m, nf, rest'') => Some (m, nf, rest'')
            | None => Some (i, 0, rest')
            end
          else Some (i, 0, rest)
      | [] => Some (i, 0, rest)
      end
  | None =>
      match s with
      | c :: rest' =>
          if Ascii.eqb c "." then digitpart rest' 0 else None
      | [] => None
      end
  end.

(** [exponent]: absent, or [e] with a signed [digitpart]. *)
Definition exponent (s : list ascii) : option (Z * list ascii) :=
  match s with
  | c :: s' =>
      if Ascii.eqb (lower c) "e" then
        let '(neg, s'') := sign s' in
        match digitpart s'' 0 with
        | Some (x, _, rest) => Some (if neg then - x else x, rest)
        | None => None
        end
      else Some (0, s)
  | [] => Some (0, s)
  end.

Definition float_of_chars (s : list ascii) : option float :=
  let '(neg, body) := sign (strip s) in
  let word := string_of_list_ascii (map lower body) in
  if (String.eqb word "inf" || String.eqb word "infinity")%bool then
    Some (if neg then neg_infinity else infinity)
  else if String.eqb word "nan" then Some nan
  else
    match number body with
    | Some (m, nf, rest) =>
        match exponent rest with
        | Some (x, []) => Some (of_decimal neg m (x - nf))
        | _ => None
        end
    | None => None
    end.

Definition float_of_string (s : string) : option float :=
  match utf8_decode (list_ascii_of_string s) 0 0 with
  | Some cps =>
      match transform cps with
      | Some chars => float_of_chars chars
      | None => None
      end
  | None => None
  end.

End FloatParse.

(** ** Builtins *)

(** [float(x)]. *)
Definition py_float (x : pyval) : result float :=
  match x with
  | PyFloat f => Ok f
  | PyInt z =>
      match SF64normalize z 0 with
      | S754_infinity _ => Raise OverflowError
      | sf => Ok (SF2Prim sf)
      end
  | PyBool b => Ok (if b then 1%float else 0%float)
  | PyStr s =>
      match FloatParse.float_of_string s with
      | Some f => Ok f
      | None => Raise ValueError
      end
  | PyNone | PyList _ | PyDict _ => Raise TypeError
  end.

(** [round(x)] of a float, with no [ndigits]: the nearest integer, ties to
    even; [ValueError] on NaN and [OverflowError] on an infinity. *)
Definition py_round (x : float) : result Z :=
  match Prim2SF x with
  | S754_nan => Raise ValueError
  | S754_infinity _ => Raise OverflowError
  | sf =>
      match SFround sf with
      | Some z => Ok z
      | None => Raise ValueError
      end
  end.

(** ** The breakpoint table *)

Record breakpoint := Breakpoint {
  pm_lo : float;
  pm_hi : float;
  aqi_lo : Z;
  aqi_hi : Z;
  label : string
}.

Definition BREAKPOINTS : list breakpoint :=
  [ Breakpoint 0.0 25.0 0 50 "Good";
    Breakpoint 25.1 50.0 51 100 "Moderate";
    Breakpoint 50.1 75.0 101 150 "Unhealthy for Sensitive Groups";
    Breakpoint 75.1 150.0 151 200 "Unhealthy";
    Breakpoint 150.1 250.0 201 300 "Very Unhealthy";
    Breakpoint 250.1 infinity 301 500 "Hazardous" ].

(** ** [classify_pm25] *)

Definition unknown : pydict :=
  {[ "sl_aqi_label" := PyStr "Unknown"; "sl_aqi_est" := PyNone ]}.

(** The interpolated estimate of a matched band; the degenerate band yields
    the integer [aqi_hi] itself. *)
Definition estimate (b : breakpoint) (pm : float) : float + Z :=
  if (pm_hi b =? pm_lo b)%float then inr (aqi_hi b)
  else inl (of_Z (aqi_lo b)
            + (pm - pm_lo b) * of_Z (aqi_hi b - aqi_lo b) / (pm_hi b - pm_lo b))%float.

(** [int(round(est))]. *)
Definition int_round (est : float + Z) : result Z :=
  match est with
  | inl f => py_round f
  | inr z => Ok z
  end.

Definition in_band (b : breakpoint) (pm : float) : bool :=
  ((pm_lo b <=? pm)%float && (pm <=? pm_hi b)%float)%bool.

Definition band_result (b : breakpoint) (est : Z) : pydict :=
  {[ "sl_aqi_label" := PyStr (label b);
     "sl_aqi_est" := PyInt est;
     "sl_aqi_range" := PyList [PyInt (aqi_lo b); PyInt (aqi_hi b)];
     "pm25_range" :=
       PyList [PyFloat (pm_lo b);
               if negb (pm_hi b =? infinity)%float then PyFloat (pm_hi b) else PyNone] ]}.

(** The [for] loop over the table. *)
Fixpoint scan (pm : float) (bps : list breakpoint) : result pydict :=
  match bps with
  | b :: rest =>
      if in_band b pm then
        est ← int_round (estimate b pm);
        mret (band_result b est)
      else scan pm rest
  | [] => mret unknown
  end.

Definition classify_pm25 (pm25 : pyval) : result pydict :=
  match pm25 with
  | PyNone => mret unknown
  | _ =>
      pm ← py_float pm25;
      scan pm BREAKPOINTS
  end.

(** ** [iso_from_ms] *)

Module DateTime.

Record datetime := mkDatetime {
  year : Z; month : Z; day : Z;
  hour : Z; minute : Z; second : Z; microsecond : Z
}.

(** The proleptic Gregorian date of a day count from 1970-01-01. *)
Definition civil_from_days (days : Z) : Z * Z * Z :=
  let z := days + 719468 in
  let era := z / 146097 in
  let doe := z mod 146097 in
  let yoe := (doe - doe / 1460 + doe / 36524 - doe / 146096) / 365 in
  let doy := doe - (365 * yoe + yoe / 4 - yoe / 100) in
  let mp := (5 * doy + 2) / 153 in
  let d := doy - (153 * mp + 2) / 5 + 1 in
  let m := if mp <? 10 then mp + 3 else mp - 9 in
  let y := yoe + era * 400 + (if m <=? 2 then 1 else 0) in
  (y, m, d).

(** The split of a float count of seconds into whole seconds and
    microseconds, rounded half to even, as [fromtimestamp] does. *)
Definition split_seconds (t : float) : result (Z * Z) :=
  match Prim2SF t with
  | S754_nan => Raise ValueError
  | sf =>
      match SFtrunc sf with
      | None => Raise OverflowError
      | Some ip =>
          let frac := (t - of_Z ip)%float in
          match SFround (Prim2SF (frac * 1000000)%float) with
          | None => Raise OverflowError
          | Some us =>
              let '(ip, us) :=
                if 1000000 <=? us then (ip + 1, us - 1000000)
                else if us <? 0 then (ip - 1, us + 1000000)
                else (ip, us) in
              if (- 2 ^ 63 <=? ip) && (ip <? 2 ^ 63) then Ok (ip, us)
              else Raise OverflowError
          end
      end
  end.

(** [datetime.fromtimestamp(t, tz=timezone.utc)]; a date outside the years
    1 to 9999 raises. *)
Definition fromtimestamp_utc (t : float) : result datetime :=
  '(secs, us) ← split_seconds t;
  let '(y, m, d) := civil_from_days (secs / 86400) in
  let sod := secs mod 86400 in
  if (1 <=? y) && (y <=? 9999) then
    Ok (mkDatetime y m d (sod / 3600) (sod mod 3600 / 60) (sod mod 60) us)
  else Raise ValueError.

(** The last [w] decimal digits of [n], zero padded. *)
Fixpoint zpad (w : nat) (n : Z) (acc : string) : string :=
  match w with
  | O => acc
  | S w' => zpad w' (n / 10) (String (ascii_of_nat (48 + Z.to_nat (n mod 10))) acc)
  end.

(** The date and time of [dt.isoformat()], without the offset. *)
Definition isoformat_naive (dt : datetime) : string :=
  let frac :=
    if microsecond dt =? 0 then EmptyString
    else String.append "." (zpad 6 (microsecond dt) "") in
  (zpad 4 (year dt) "" ++ "-" ++ zpad 2 (month dt) "" ++ "-" ++ zpad 2 (day dt) ""
   ++ "T" ++ zpad 2 (hour dt) "" ++ ":" ++ zpad 2 (minute dt) "" ++ ":"
   ++ zpad 2 (second dt) "" ++ frac)%string.

(** [dt.isoformat()] of a datetime in the UTC zone. *)
Definition isoformat (dt : datetime) : string :=
  (isoformat_naive dt ++ "+00:00")%string.

End DateTime.

(** [s.replace(old, new)] for a non-empty [old]: the occurrences of [old]
    are replaced from the left, without overlap.  [skip] counts the
    characters of a match still to be dropped. *)
Fixpoint replace_from (old new : string) (skip : nat) (s : string) : string :=
  match s with
  | EmptyString => EmptyString
  | String c s' =>
      match skip with
      | S k => replace_from old new k s'
      | O =>
          if String.prefix old s
          then (new ++ replace_from old new (String.length old - 1) s')%string
          else String c (replace_from old new O s')
      end
  end.

Definition str_replace (s old new : string) : string := replace_from old new O s.

(** The function returns a string or [None]; every exception of the body is
    caught. *)
Definition iso_from_ms (ts_ms : pyval) : option string :=
  match ts_ms with
  | PyNone => None
  | _ =>
      match (t ← py_float ts_ms;
             dt ← DateTime.fromtimestamp_utc (t / 1000.0)%float;
             mret (str_replace (DateTime.isoformat dt) "+00:00" "Z")) with
      | Ok s => Some s
      | Raise _ => None
      end
  end.

(** ** The enrichment pass of [main] *)

Definition ENDPOINT : string := "https://aq.nbro.gov.lk/invoker.php".

(** [d.get(k, dflt)]. *)
Definition dict_get (d : pydict) (k : string) (dflt : pyval) : pyval :=
  default dflt (d !! k).

Definition of_optional_str (o : option string) : pyval :=
  match o with
  | Some s => PyStr s
  | None => PyNone
  end.

(** The body of the loop over the fetched readings. *)
Definition enrich_item (item : pydict) : result pydict :=
  let pm25 := dict_get item "pm25" PyNone in
  info ← classify_pm25 pm25;
  let enriched_item := item in
  let enriched_item :=
    <["timestamp_iso_utc" := of_optional_str (iso_from_ms (dict_get item "timestamp" PyNone))]>
      enriched_item in
  let enriched_item := <["sl_aqi_label" := dict_get info "sl_aqi_label" PyNone]> enriched_item in
  let enriched_item := <["sl_aqi_est" := dict_get info "sl_aqi_est" PyNone]> enriched_item in
  let enriched_item := <["sl_aqi_range" := dict_get info "sl_aqi_range" PyNone]> enriched_item in
  let enriched_item := <["pm25_band_range" := dict_get info "pm25_range" PyNone]> enriched_item in
  mret enriched_item.

(** The loop: the first exception ends the run. *)
Fixpoint enrich_all (data : list pydict) : result (list pydict) :=
  match data with
  | [] => mret []
  | item :: rest =>
      e ← enrich_item item;
      es ← enrich_all rest;
      mret (e :: es)
  end.

(** ** The ordering of the stations

    Strings are compared as Python compares [str]: by code point, which is
    the order of their UTF-8 bytes.  [str] of a float or of a container is
    the interpreter's [repr]; it is a parameter of the ordering. *)

Definition str_lt (a b : string) : bool :=
  match String.compare a b with Lt => true | _ => false end.

(** [<] on pairs of strings, as on Python tuples. *)
Definition key_lt (k1 k2 : string * string) : bool :=
  if String.eqb (fst k1) (fst k2) then str_lt (snd k1) (snd k2)
  else str_lt (fst k1) (fst k2).

Definition key_le (k1 k2 : string * string) : bool := negb (key_lt k2 k1).

(** The decimal digits of a positive number, most significant first. *)
Fixpoint digits_of_pos (fuel : nat) (n : Z) (acc : string) : string :=
  match fuel with
  | O => acc
  | S fuel' =>
      let acc' := String (ascii_of_nat (48 + Z.to_nat (n mod 10))) acc in
      if n <? 10 then acc' else digits_of_pos fuel' (n / 10) acc'
  end.

Definition str_of_Z (z : Z) : string :=
  let a := Z.abs z in
  let ds := digits_of_pos (S (Z.to_nat (Z.log2 a))) a "" in
  if z <? 0 then String "-" ds else ds.

Section Ordering.

Variable repr_other : pyval -> string.

(** [str(x)]. *)
Definition py_str (x : pyval) : string :=
  match x with
  | PyStr s => s
  | PyNone => "None"
  | PyBool b => if b then "True" else "False"
  | PyInt z => str_of_Z z
  | PyFloat _ | PyList _ | PyDict _ => repr_other x
  end.

(** The [key] function of the sort. *)
Definition sort_key (x : pydict) : string * string :=
  (py_str (dict_get x "name" (PyStr "")),
   py_str (dict_get x "meta_device_id" (PyStr ""))).

(** [list.sort(key=...)] is stable.  [x] stood before the elements of [l]: it
    moves behind those whose key is smaller than its own, and stays in front
    of the first one whose key is not. *)
Fixpoint insert_station (x : pydict) (l : list pydict) : list pydict :=
  match l with
  | [] => [x]
  | y :: l' =>
      if key_lt (sort_key y) (sort_key x) then y :: insert_station x l'
      else x :: y :: l'
  end.

Definition sort_stations (l : list pydict) : list pydict :=
  foldr insert_station [] l.

(** [main] without its input and output: from the decoded response [data]
    and the clock reading [fetched_at] to the document it dumps. *)
Definition main (fetched_at : string) (data : list pydict) : result pydict :=
  enriched ← enrich_all data;
  let enriched := sort_stations enriched in
  mret ({[ "source" := PyStr ENDPOINT;
           "fetched_at_utc" := PyStr fetched_at;
           "count" := PyInt (Z.of_nat (length enriched));
           "stations" := PyList (PyDict <$> enriched) ]} : pydict).

End Ordering.

(** ** Rounding of binary64 values *)

Lemma digits2_pos_size (p : positive) : digits2_pos p = Pos.size p.
Proof. induction p; simpl; congruence. Qed.

Lemma Zdigits2_nonneg (m : Z) : 0 <= Zdigits2 m.
Proof. destruct m; simpl; lia. Qed.

Lemma Zdigits2_bounds (m : Z) :
  0 < m -> 1 <= Zdigits2 m /\ 2 ^ (Zdigits2 m - 1) <= m < 2 ^ Zdigits2 m.
Proof.
  destruct m as [|p|p]; try lia. intros _. simpl.
  rewrite digits2_pos_size.
  pose proof (Pos.size_gt p) as Hgt. pose proof (Pos.size_le p) as Hle.
  assert (Hpow : forall k : positive, Z.pos (2 ^ k) = 2 ^ Z.pos k)
    by (intros k; rewrite Pos2Z.inj_pow; reflexivity).
  split; [lia|]. split.
  - apply Pos2Z.pos_le_pos in Hle. rewrite Pos2Z.inj_xO, Hpow in Hle.
    replace (Z.pos (Pos.size p)) with (Z.pos (Pos.size p) - 1 + 1) in Hle by lia.
    rewrite Z.pow_add_r in Hle by lia. lia.
  - apply Pos2Z.pos_lt_pos in Hgt. rewrite Hpow in Hgt. exact Hgt.
Qed.

Lemma pow2_lt_mono (a b : Z) : 0 <= a -> 2 ^ a < 2 ^ b -> a < b.
Proof.
  intros Ha H. destruct (Z.lt_ge_cases a b) as [|Hge]; [assumption|].
  destruct (Z.lt_ge_cases b 0) as [Hb|Hb].
  - rewrite (Z.pow_neg_r 2 b) in H by lia. pose proof (Z.pow_pos_nonneg 2 a). lia.
  - pose proof (Z.pow_le_mono_r 2 b a). lia.
Qed.

Lemma Zdigits2_unique (m d : Z) :
  1 <= d -> 2 ^ (d - 1) <= m < 2 ^ d -> Zdigits2 m = d.
Proof.
  intros Hd [Hlo Hhi].
  assert (0 < m) by (pose proof (Z.pow_pos_nonneg 2 (d - 1)); lia).
  destruct (Zdigits2_bounds m) as [H1 [H2 H3]]; [assumption|].
  assert (d - 1 < Zdigits2 m) by (apply pow2_lt_mono; lia).
  assert (Zdigits2 m - 1 < d) by (apply pow2_lt_mono; lia).
  lia.
Qed.

(** A value [p / B] lies in the cell of the mantissa [m], at the place [l]
    of the cell. *)
Definition located (B p m : Z) (l : location) : Prop :=
  match l with
  | loc_Exact => p = m * B
  | loc_Inexact Lt => 2 * (m * B) < 2 * p < 2 * (m * B) + B
  | loc_Inexact Eq => 2 * p = 2 * (m * B) + B
  | loc_Inexact Gt => 2 * (m * B) + B < 2 * p < 2 * (m * B) + 2 * B
  end.

Lemma located_bounds (B p m : Z) (l : location) :
  0 < B -> located B p m l -> m * B <= p < m * B + B.
Proof. destruct l as [|[| |]]; simpl; lia. Qed.

Lemma loc_of_shr_record_of_loc (m : Z) (l : location) :
  loc_of_shr_record (shr_record_of_loc m l) = l /\ shr_m (shr_record_of_loc m l) = m.
Proof. destruct l as [|[| |]]; simpl; auto. Qed.

Lemma shr_1_located (B p : Z) (mrs : shr_record) :
  0 < B -> 0 <= shr_m mrs ->
  located B p (shr_m mrs) (loc_of_shr_record mrs) ->
  0 <= shr_m (shr_1 mrs) /\
  shr_m (shr_1 mrs) = shr_m mrs / 2 /\
  located (2 * B) p (shr_m (shr_1 mrs)) (loc_of_shr_record (shr_1 mrs)).
Proof.
  intros HB. destruct mrs as [m r s]. simpl shr_m at 1 2 5.
  intros Hm Hloc.
  assert (Hdiv : forall a b c, a = 2 * b + c -> 0 <= c < 2 -> b = a / 2).
  { intros a b c -> Hc. apply Z.div_unique with (r := c); lia. }
  destruct m as [|[k|k|]|k]; try lia; destruct r, s; cbn in Hloc |- *;
    rewrite ?(Pos2Z.inj_xI k), ?(Pos2Z.inj_xO k) in *;
    try set (K := Z.pos k) in *; try set (KB := K * B) in *.
  all: (split; [lia|split; [first [reflexivity | apply (Hdiv _ _ 1); lia | apply (Hdiv _ _ 0); lia]|]]).
  all: try lia.
  all: try (replace ((2 * K + 1) * B) with (2 * KB + B) in Hloc by (unfold KB; ring)).
  all: try (replace (2 * K * B) with (2 * KB) in Hloc by (unfold KB; ring)).
  all: try lia.
Qed.
Lemma pow2_xO (n : positive) : 2 ^ Z.pos n~0 = 2 ^ Z.pos n * 2 ^ Z.pos n.
Proof.
  assert (Z.pos n~0 = Z.pos n + Z.pos n) as -> by lia.
  rewrite Z.pow_add_r by lia. reflexivity.
Qed.

Lemma pow2_xI (n : positive) : 2 ^ Z.pos n~1 = 2 * 2 ^ Z.pos n * 2 ^ Z.pos n.
Proof.
  assert (Z.pos n~1 = 1 + Z.pos n + Z.pos n) as -> by lia.
  rewrite !Z.pow_add_r by lia. reflexivity.
Qed.

Lemma iter_pos_shr_1_located (n : positive) :
  forall (B p : Z) (mrs : shr_record),
  0 < B -> 0 <= shr_m mrs ->
  located B p (shr_m mrs) (loc_of_shr_record mrs) ->
  let mrs' := SpecFloat.iter_pos shr_1 n mrs in
  0 <= shr_m mrs' /\
  shr_m mrs' = shr_m mrs / 2 ^ Z.pos n /\
  located (2 ^ Z.pos n * B) p (shr_m mrs') (loc_of_shr_record mrs').
Proof.
  induction n as [n IH|n IH|]; intros B p mrs HB Hm Hloc; cbn zeta; simpl SpecFloat.iter_pos.
  - destruct (shr_1_located B p mrs HB Hm Hloc) as (H1 & H2 & H3).
    assert (HB2 : 0 < 2 * B) by lia.
    destruct (IH _ p _ HB2 H1 H3) as (H4 & H5 & H6).
    assert (HB3 : 0 < 2 ^ Z.pos n * (2 * B)) by (pose proof (Z.pow_pos_nonneg 2 (Z.pos n)); nia).
    destruct (IH _ p _ HB3 H4 H6) as (H7 & H8 & H9).
    split; [assumption|]. 
    pose proof (pow2_xI n) as E.
    split.
    + rewrite H8, H5, H2, E. rewrite !Z.div_div by (pose proof (Z.pow_pos_nonneg 2 (Z.pos n)); lia).
      f_equal. lia.
    + rewrite E. replace (2 * 2 ^ Z.pos n * 2 ^ Z.pos n * B) with (2 ^ Z.pos n * (2 ^ Z.pos n * (2 * B))) by lia.
      exact H9.
  - destruct (IH _ p _ HB Hm Hloc) as (H4 & H5 & H6).
    assert (HB3 : 0 < 2 ^ Z.pos n * B) by (pose proof (Z.pow_pos_nonneg 2 (Z.pos n)); nia).
    destruct (IH _ p _ HB3 H4 H6) as (H7 & H8 & H9).
    split; [assumption|].
    pose proof (pow2_xO n) as E.
    split.
    + rewrite H8, H5, E. rewrite !Z.div_div by (pose proof (Z.pow_pos_nonneg 2 (Z.pos n)); lia).
      reflexivity.
    + rewrite E. replace (2 ^ Z.pos n * 2 ^ Z.pos n * B) with (2 ^ Z.pos n * (2 ^ Z.pos n * B)) by lia.
      exact H9.
  - change (2 ^ 1) with 2. apply shr_1_located; assumption.
Qed.

(** The exponent of the binary64 format at a magnitude. *)
Definition fexp64 (g : Z) : Z := Z.max (g - 53) (-1074).

Lemma fexp64_eq (g : Z) : fexp prec emax g = fexp64 g.
Proof. reflexivity. Qed.

Lemma shr_fexp_located (B p m e : Z) (l : location) :
  0 < B -> 0 <= m -> located B p m l ->
  e <= fexp64 (Zdigits2 m + e) ->
  exists mrs,
    shr_fexp prec emax m e l = (mrs, fexp64 (Zdigits2 m + e)) /\
    0 <= shr_m mrs /\
    shr_m mrs = m / 2 ^ (fexp64 (Zdigits2 m + e) - e) /\
    located (2 ^ (fexp64 (Zdigits2 m + e) - e) * B) p (shr_m mrs) (loc_of_shr_record mrs).
Proof.
  intros HB Hm Hloc Hfine. unfold shr_fexp. rewrite fexp64_eq.
  set (E := fexp64 (Zdigits2 m + e)) in *.
  destruct (loc_of_shr_record_of_loc m l) as [Hl Hmm].
  unfold shr. destruct (E - e) as [|n|n] eqn:Hn; try lia.
  - exists (shr_record_of_loc m l). rewrite Hl, Hmm.
    replace E with e by lia. change (2 ^ 0) with 1. rewrite Z.div_1_r, Z.mul_1_l. auto.
  - exists (SpecFloat.iter_pos shr_1 n (shr_record_of_loc m l)).
    split; [f_equal; lia|].
    pose proof (iter_pos_shr_1_located n B p (shr_record_of_loc m l) HB) as H.
    rewrite Hl, Hmm in H. apply H; assumption.
Qed.

(** The float of a rounded mantissa [m <= 2^53] at a format exponent. *)
Definition canon (m E : Z) : spec_float :=
  match m with
  | Z.pos k =>
      if m <? 2 ^ 53 then
        if E <=? 971 then S754_finite false k E else S754_infinity false
      else
        if E + 1 <=? 971 then S754_finite false (2 ^ 52)%positive (E + 1)
        else S754_infinity false
  | _ => S754_zero false
  end.

Lemma finish_canon (m E : Z) :
  0 <= m <= 2 ^ 53 -> -1074 <= E ->
  (let '(mrs, e') := shr_fexp prec emax m E loc_Exact in
   match shr_m mrs with
   | Z0 => S754_zero false
   | Z.pos k => if e' <=? emax - prec then S754_finite false k e' else S754_infinity false
   | Z.neg _ => S754_nan
   end) = canon m E.
Proof.
  intros Hm HE. unfold canon.
  destruct (Z.eq_dec m (2 ^ 53)) as [->|Hne].
  - unfold shr_fexp. rewrite fexp64_eq. change (Zdigits2 (2 ^ 53)) with 54.
    unfold fexp64. replace (Z.max (54 + E - 53) (-1074) - E) with 1 by lia.
    replace (Z.max (54 + E - 53) (-1074)) with (E + 1) by lia.
    cbn. reflexivity.
  - destruct m as [|k|k]; try lia.
    + unfold shr_fexp, shr. cbn [Zdigits2]. rewrite fexp64_eq. unfold fexp64.
      destruct (Z.max (0 + E - 53) (-1074) - E) eqn:Hn; try lia; reflexivity.
    + destruct (Zdigits2_bounds (Z.pos k)) as (Hd1 & Hd2 & Hd3); [lia|].
      assert (Zdigits2 (Z.pos k) - 1 < 53) by (apply pow2_lt_mono; lia).
      unfold shr_fexp, shr. rewrite fexp64_eq. unfold fexp64.
      destruct (Z.max (Zdigits2 (Z.pos k) + E - 53) (-1074) - E) eqn:Hn; try lia;
        cbn [shr_record_of_loc shr_m];
        (destruct (Z.pos k <? 2 ^ 53) eqn:Hlt; [reflexivity | apply Z.ltb_ge in Hlt; lia]).
Qed.

Definition rnd (m e : Z) (l : location) : spec_float :=
  binary_round_aux prec emax false m e l.

Lemma round_nearest_even_bounds (m : Z) (l : location) :
  m <= round_nearest_even m l <= m + 1.
Proof. destruct l as [|[| |]]; simpl; try lia. destruct (Z.even m); lia. Qed.

Lemma pow2_pos (k : Z) : 0 <= k -> 0 < 2 ^ k.
Proof. intros. apply Z.pow_pos_nonneg; lia. Qed.

Lemma pow2_split (a b : Z) : 0 <= a -> 0 <= b -> 2 ^ (a + b) = 2 ^ a * 2 ^ b.
Proof. intros. apply Z.pow_add_r; assumption. Qed.

(** The shape of a rounding: the mantissa [M] of the value at the format
    exponent [E], its place [L] in the cell, and the float of the rounded
    mantissa. *)
Lemma rnd_spec (q S p m e : Z) (l : location) :
  0 < q -> 0 <= m -> 0 <= e + S ->
  located (q * 2 ^ (e + S)) p m l ->
  e <= fexp64 (Zdigits2 m + e) ->
  exists E M L,
    rnd m e l = canon (round_nearest_even M L) E /\
    -1074 <= E /\ e <= E /\ 0 <= M < 2 ^ 53 /\
    (-1074 < E -> 2 ^ 52 <= M) /\
    located (q * 2 ^ (E + S)) p M L.
Proof.
  intros Hq Hm HeS Hloc Hfine.
  assert (HB : 0 < q * 2 ^ (e + S)) by (pose proof (pow2_pos (e + S) HeS); nia).
  destruct (shr_fexp_located _ p m e l HB Hm Hloc Hfine) as (mrs & Hshr & HM & HMv & HL).
  remember (fexp64 (Zdigits2 m + e)) as E eqn:HEdef.
  assert (HE : -1074 <= E) by (subst E; unfold fexp64; lia).
  assert (Hpow : 2 ^ (E - e) * (q * 2 ^ (e + S)) = q * 2 ^ (E + S)).
  { replace (E + S) with ((E - e) + (e + S)) by lia. rewrite (pow2_split (E - e) (e + S)) by lia. ring. }
  rewrite Hpow in HL.
  assert (HMb : shr_m mrs < 2 ^ 53 /\ (-1074 < E -> 2 ^ 52 <= shr_m mrs)).
  { destruct (Z.eq_dec m 0) as [->|Hm0].
    - rewrite HMv, Z.div_0_l by (pose proof (pow2_pos (E - e)); lia).
      split; [reflexivity|]. intros HE'. exfalso.
      cbn [Zdigits2] in HEdef. unfold fexp64 in HEdef. lia.
    - destruct (Zdigits2_bounds m) as (Hd1 & Hd2 & Hd3); [lia|].
      set (d := Zdigits2 m) in *.
      assert (HP : 0 < 2 ^ (E - e)) by (apply pow2_pos; lia).
      split.
      + rewrite HMv. apply Z.div_lt_upper_bound; [assumption|].
        assert (d <= 53 + (E - e)) by (unfold fexp64 in HEdef; lia).
        assert (2 ^ d <= 2 ^ (53 + (E - e))) by (apply Z.pow_le_mono_r; lia).
        rewrite pow2_split in * by lia. lia.
      + intros HE'. assert (HEd : E - e = d - 53) by (unfold fexp64 in HEdef; lia).
        rewrite HMv, HEd. apply Z.div_le_lower_bound; [apply pow2_pos; lia|].
        rewrite Z.mul_comm, <- pow2_split by lia.
        replace (52 + (d - 53)) with (d - 1) by lia. lia. }
  exists E, (shr_m mrs), (loc_of_shr_record mrs).
  split; [|repeat split; try lia; try tauto].
  unfold rnd, binary_round_aux. rewrite Hshr.
  apply finish_canon; [|assumption].
  pose proof (round_nearest_even_bounds (shr_m mrs) (loc_of_shr_record mrs)). lia.
Qed.

(** *** The order of the rounded floats *)

Lemma SFleb_finite (m1 m2 : positive) (e1 e2 : Z) :
  SFleb (S754_finite false m1 e1) (S754_finite false m2 e2) = true <->
  e1 < e2 \/ (e1 = e2 /\ (m1 <= m2)%positive).
Proof.
  unfold SFleb, SFcompare. rewrite Pos.compare_cont_spec. cbn [Pos.switch_Eq].
  destruct (Z.compare_spec e1 e2) as [->|Hlt|Hgt].
  - unfold Pos.le. destruct (m1 ?= m2)%positive eqn:Hc; split; intros H;
      try discriminate; try reflexivity; try (right; split; [reflexivity|congruence]).
    destruct H as [H|[_ H]]; [lia|congruence].
  - split; [intros _; left; assumption|reflexivity].
  - split; [discriminate|lia].
Qed.

Lemma canon_le_same (a b E : Z) :
  0 <= a <= b -> b <= 2 ^ 53 ->
  SFleb (canon a E) (canon b E) = true.
Proof.
  intros Hab Hb. unfold canon.
  destruct a as [|ka|ka]; try lia; destruct b as [|kb|kb]; try lia; try reflexivity.
  - destruct (Z.pos kb <? 2 ^ 53); [destruct (E <=? 971)|destruct (E + 1 <=? 971)]; reflexivity.
  - destruct (Z.ltb_spec (Z.pos ka) (2 ^ 53)) as [Ha|Ha];
      destruct (Z.ltb_spec (Z.pos kb) (2 ^ 53)) as [Hb'|Hb']; try lia;
      destruct (Z.leb_spec E 971); destruct (Z.leb_spec (E + 1) 971);
      try lia; try reflexivity; apply SFleb_finite; lia.
Qed.

Lemma canon_le_lt (a b E1 E2 : Z) :
  E1 < E2 -> 0 <= a <= 2 ^ 53 -> 2 ^ 52 <= b <= 2 ^ 53 ->
  SFleb (canon a E1) (canon b E2) = true.
Proof.
  intros HE Ha Hb. unfold canon.
  destruct a as [|ka|ka]; try lia; destruct b as [|kb|kb]; try lia.
  - destruct (Z.pos kb <? 2 ^ 53); [destruct (E2 <=? 971)|destruct (E2 + 1 <=? 971)]; reflexivity.
  - destruct (Z.ltb_spec (Z.pos ka) (2 ^ 53)) as [Ha'|Ha'];
      destruct (Z.ltb_spec (Z.pos kb) (2 ^ 53)) as [Hb'|Hb'];
      destruct (Z.leb_spec E1 971); destruct (Z.leb_spec (E1 + 1) 971);
      destruct (Z.leb_spec E2 971); destruct (Z.leb_spec (E2 + 1) 971);
      try lia; try reflexivity; apply SFleb_finite;
      change (Z.pos (2 ^ 52)) with (2 ^ 52) in *; lia.
Qed.

Lemma round_nearest_even_mono (B p1 p2 M1 M2 : Z) (L1 L2 : location) :
  0 < B -> p1 <= p2 ->
  located B p1 M1 L1 -> located B p2 M2 L2 ->
  round_nearest_even M1 L1 <= round_nearest_even M2 L2.
Proof.
  intros HB Hp H1 H2.
  pose proof (located_bounds _ _ _ _ HB H1) as Hb1.
  pose proof (located_bounds _ _ _ _ HB H2) as Hb2.
  assert (HM : M1 <= M2) by nia.
  destruct (Z.eq_dec M1 M2) as [->|Hne].
  - set (MB := M2 * B) in *.
    destruct L1 as [|[| |]], L2 as [|[| |]]; cbn in H1, H2 |- *;
      try destruct (Z.even M2); lia.
  - pose proof (round_nearest_even_bounds M1 L1).
    pose proof (round_nearest_even_bounds M2 L2). lia.
Qed.

(** Rounding is monotone in the value rounded: of two values [p1 <= p2]
    over the same denominator, the first rounds to the smaller float. *)
Lemma rnd_mono (q S p1 p2 m1 e1 m2 e2 : Z) (l1 l2 : location) :
  0 < q -> p1 <= p2 ->
  0 <= m1 -> 0 <= e1 + S -> located (q * 2 ^ (e1 + S)) p1 m1 l1 ->
  e1 <= fexp64 (Zdigits2 m1 + e1) ->
  0 <= m2 -> 0 <= e2 + S -> located (q * 2 ^ (e2 + S)) p2 m2 l2 ->
  e2 <= fexp64 (Zdigits2 m2 + e2) ->
  SFleb (rnd m1 e1 l1) (rnd m2 e2 l2) = true.
Proof.
  intros Hq Hp Hm1 HS1 Hl1 Hf1 Hm2 HS2 Hl2 Hf2.
  destruct (rnd_spec q S p1 m1 e1 l1) as (E1 & M1 & L1 & -> & HE1 & Hee1 & HM1 & Hn1 & HL1);
    try assumption.
  destruct (rnd_spec q S p2 m2 e2 l2) as (E2 & M2 & L2 & -> & HE2 & Hee2 & HM2 & Hn2 & HL2);
    try assumption.
  assert (HB1 : 0 < q * 2 ^ (E1 + S)) by (pose proof (pow2_pos (E1 + S)); nia).
  assert (HB2 : 0 < q * 2 ^ (E2 + S)) by (pose proof (pow2_pos (E2 + S)); nia).
  pose proof (located_bounds _ _ _ _ HB1 HL1) as Hb1.
  pose proof (located_bounds _ _ _ _ HB2 HL2) as Hb2.
  pose proof (round_nearest_even_bounds M1 L1) as Hr1.
  pose proof (round_nearest_even_bounds M2 L2) as Hr2.
  assert (HEle : E1 <= E2).
  { destruct (Z.le_gt_cases E1 E2) as [|Hgt]; [assumption|exfalso].
    specialize (Hn1 ltac:(lia)).
    assert (Hpw : 2 ^ (E1 + S) = 2 ^ (E1 - E2 - 1) * 2 * 2 ^ (E2 + S)).
    { replace (E1 + S) with ((E1 - E2 - 1) + 1 + (E2 + S)) by lia.
      rewrite !pow2_split by lia. reflexivity. }
    pose proof (pow2_pos (E1 - E2 - 1) ltac:(lia)) as Hk.
    pose proof (pow2_pos (E2 + S) ltac:(lia)) as Hk2.
    set (P2 := 2 ^ (E2 + S)) in *. set (K := 2 ^ (E1 - E2 - 1)) in *.
    rewrite Hpw in Hb1.
    assert (2 ^ 52 * (q * (K * 2 * P2)) <= p1) by nia.
    assert (p2 < 2 ^ 53 * (q * P2)) by nia.
    assert (0 < q * P2) by nia.
    change (2 ^ 53) with (2 * 2 ^ 52) in *.
    assert (q * P2 * 1 <= q * P2 * K) by (apply Z.mul_le_mono_nonneg_l; lia).
    nia. }
  destruct (Z.eq_dec E1 E2) as [->|Hne].
  - apply canon_le_same; [|lia].
    pose proof (round_nearest_even_mono _ _ _ _ _ _ _ HB2 Hp HL1 HL2). lia.
  - apply canon_le_lt; lia.
Qed.

(** *** Valid floats and their values *)

Lemma valid_finite_inv (s : bool) (m : positive) (e : Z) :
  valid_binary (S754_finite s m e) = true ->
  -1074 <= e <= 971 /\ fexp64 (Zdigits2 (Z.pos m) + e) = e.
Proof.
  cbn [SpecFloat.valid_binary]. unfold bounded, canonical_mantissa.
  rewrite fexp64_eq. intros [H1 H2]%andb_prop.
  apply Z.eqb_eq in H1. apply Z.leb_le in H2. cbn [Zdigits2].
  change (emax - prec) with 971 in H2. unfold fexp64 in *. lia.
Qed.

(** Non-negative finite floats, and the same with [+inf]. *)
Definition nnfb (x : spec_float) : bool :=
  valid_binary x &&
  match x with
  | S754_zero _ | S754_finite false _ _ => true
  | _ => false
  end.

Definition posfb (x : spec_float) : bool :=
  valid_binary x &&
  match x with
  | S754_finite false _ _ => true
  | _ => false
  end.

Definition nnib (x : spec_float) : bool :=
  match x with
  | S754_zero _ | S754_finite false _ _ | S754_infinity false => true
  | _ => false
  end.

(** The value of a non-negative finite float, in units of [2^-1074]. *)
Definition SFval (x : spec_float) : Z :=
  match x with
  | S754_finite false m e => Z.pos m * 2 ^ (e + 1074)
  | _ => 0
  end.

Lemma nnfb_inv (x : spec_float) :
  nnfb x = true ->
  (exists s, x = S754_zero s) \/
  (exists m e, x = S754_finite false m e /\ valid_binary x = true).
Proof.
  unfold nnfb. intros [Hv Hs]%andb_prop.
  destruct x as [s|s| |[] m e]; try discriminate; eauto.
Qed.

Lemma posfb_inv (x : spec_float) :
  posfb x = true ->
  exists m e, x = S754_finite false m e /\ valid_binary x = true.
Proof.
  unfold posfb. intros [Hv Hs]%andb_prop.
  destruct x as [s|s| |[] m e]; try discriminate; eauto.
Qed.

Lemma SFval_nonneg (x : spec_float) : nnfb x = true -> 0 <= SFval x.
Proof.
  intros [[s ->]|(m & e & -> & Hv)]%nnfb_inv; cbn [SFval]; [lia|].
  apply valid_finite_inv in Hv. pose proof (pow2_pos (e + 1074)). nia.
Qed.

Lemma SFval_lt_exp (m1 m2 : positive) (e1 e2 : Z) :
  valid_binary (S754_finite false m1 e1) = true ->
  valid_binary (S754_finite false m2 e2) = true ->
  e1 < e2 ->
  Z.pos m1 * 2 ^ (e1 + 1074) < Z.pos m2 * 2 ^ (e2 + 1074).
Proof.
  intros [Hr1 Hc1]%valid_finite_inv [Hr2 Hc2]%valid_finite_inv He.
  destruct (Zdigits2_bounds (Z.pos m1)) as (Ha1 & Ha2 & Ha3); [lia|].
  destruct (Zdigits2_bounds (Z.pos m2)) as (Hb1 & Hb2 & Hb3); [lia|].
  set (d1 := Zdigits2 (Z.pos m1)) in *. set (d2 := Zdigits2 (Z.pos m2)) in *.
  unfold fexp64 in Hc1, Hc2.
  assert (Hd2 : d2 = 53) by lia. assert (Hd1 : d1 <= 53) by lia.
  assert (H1 : Z.pos m1 * 2 ^ (e1 + 1074) < 2 ^ 53 * 2 ^ (e1 + 1074)).
  { apply Z.mul_lt_mono_pos_r; [apply pow2_pos; lia|].
    assert (2 ^ d1 <= 2 ^ 53) by (apply Z.pow_le_mono_r; lia). lia. }
  assert (H2 : 2 ^ 52 * 2 ^ (e2 + 1074) <= Z.pos m2 * 2 ^ (e2 + 1074)).
  { apply Z.mul_le_mono_nonneg_r; [pose proof (pow2_pos (e2 + 1074)); lia|].
    rewrite Hd2 in Hb2. exact Hb2. }
  assert (H3 : 2 ^ 53 * 2 ^ (e1 + 1074) <= 2 ^ 52 * 2 ^ (e2 + 1074)).
  { rewrite <- !pow2_split by lia. apply Z.pow_le_mono_r; lia. }
  lia.
Qed.

Lemma SFleb_nnf (x y : spec_float) :
  nnfb x = true -> nnfb y = true ->
  (SFleb x y = true <-> SFval x <= SFval y).
Proof.
  intros Hx Hy. pose proof (SFval_nonneg _ Hx) as Hx0. pose proof (SFval_nonneg _ Hy) as Hy0.
  apply nnfb_inv in Hx as [[sx ->]|(mx & ex & -> & Hx)];
    apply nnfb_inv in Hy as [[sy ->]|(my & ey & -> & Hy)].
  - cbn. split; [lia|reflexivity].
  - cbn. split; [intros _; exact Hy0|reflexivity].
  - cbn. split; [discriminate|].
    pose proof (valid_finite_inv _ _ _ Hx). pose proof (pow2_pos (ex + 1074)). nia.
  - rewrite SFleb_finite. cbn [SFval].
    destruct (Z.lt_trichotomy ex ey) as [Hlt|[->|Hgt]].
    + pose proof (SFval_lt_exp _ _ _ _ Hx Hy Hlt). split; [lia|auto].
    + pose proof (valid_finite_inv _ _ _ Hx). pose proof (pow2_pos (ey + 1074)).
      split.
      * intros [?|[_ Hm]]; [lia|]. apply Z.mul_le_mono_nonneg_r; lia.
      * intros Hm. right. split; [reflexivity|].
        apply Z.mul_le_mono_pos_r in Hm; lia.
    + pose proof (SFval_lt_exp _ _ _ _ Hy Hx Hgt). split; [lia|lia].
Qed.

(** Floats up to the sign of a zero. *)
Definition same_float (x y : spec_float) : Prop :=
  x = y \/ (exists s s', x = S754_zero s /\ y = S754_zero s').

Lemma same_float_refl (x : spec_float) : same_float x x.
Proof. left; reflexivity. Qed.

Lemma SFleb_same (x x' y y' : spec_float) :
  same_float x x' -> same_float y y' -> SFleb x y = SFleb x' y'.
Proof.
  intros [->|(s1 & s1' & -> & ->)] [->|(s2 & s2' & -> & ->)]; try reflexivity.
  all: try (destruct x' as [| | |[] ? ?]; reflexivity).
  all: try (destruct y' as [| | |[] ? ?]; reflexivity).
Qed.

(** [x] is the rounding of the value [p / (q * 2^S)]. *)
Definition is_rnd (x : spec_float) (q S p : Z) : Prop :=
  exists m e l,
    0 <= m /\ 0 <= e + S /\ located (q * 2 ^ (e + S)) p m l /\
    e <= fexp64 (Zdigits2 m + e) /\ same_float x (rnd m e l).

Lemma is_rnd_mono (x y : spec_float) (q S p1 p2 : Z) :
  0 < q -> p1 <= p2 -> is_rnd x q S p1 -> is_rnd y q S p2 -> SFleb x y = true.
Proof.
  intros Hq Hp (m1 & e1 & l1 & ? & ? & ? & ? & Hs1) (m2 & e2 & l2 & ? & ? & ? & ? & Hs2).
  rewrite (SFleb_same _ _ _ _ Hs1 Hs2). apply (rnd_mono q S p1 p2); assumption.
Qed.

Lemma is_rnd_nni (x : spec_float) (q S p : Z) :
  0 < q -> is_rnd x q S p -> nnib x = true.
Proof.
  intros Hq (m & e & l & Hm & HS & Hl & Hf & Hs).
  destruct (rnd_spec q S p m e l Hq Hm HS Hl Hf) as (E & M & L & Hr & _).
  assert (Hc : nnib (rnd m e l) = true).
  { rewrite Hr. unfold canon. destruct (round_nearest_even M L); try reflexivity.
    destruct (_ <? _); destruct (_ <=? _); reflexivity. }
  destruct Hs as [->|(s & s' & -> & _)]; [assumption|reflexivity].
Qed.

Lemma rnd_valid_id (m : positive) (e : Z) :
  valid_binary (S754_finite false m e) = true ->
  rnd (Z.pos m) e loc_Exact = S754_finite false m e.
Proof.
  intros [Hr Hc]%valid_finite_inv.
  unfold rnd, binary_round_aux, shr_fexp. rewrite fexp64_eq, Hc, Z.sub_diag.
  cbn [shr shr_record_of_loc shr_m loc_of_shr_record round_nearest_even].
  rewrite fexp64_eq, Hc, Z.sub_diag. cbn [shr shr_record_of_loc shr_m].
  change (emax - prec) with 971. destruct (Z.leb_spec e 971); [reflexivity|lia].
Qed.

Lemma rnd_zero : rnd 0 (-1074) loc_Exact = S754_zero false.
Proof. reflexivity. Qed.

Lemma is_rnd_zero (x : spec_float) (q S : Z) :
  1074 <= S -> (exists s, x = S754_zero s) -> is_rnd x q S 0.
Proof.
  intros HS [s ->]. exists 0, (-1074), loc_Exact.
  repeat split; try lia. cbn. unfold fexp64. lia.
  right. exists s, false. split; [reflexivity|apply rnd_zero].
Qed.

Lemma is_rnd_nnf (x : spec_float) (q S : Z) :
  1074 <= S -> nnfb x = true -> is_rnd x q S (q * SFval x * 2 ^ (S - 1074)).
Proof.
  intros HS [[s ->]|(m & e & -> & Hx)]%nnfb_inv.
  - cbn [SFval]. replace (q * 0 * 2 ^ (S - 1074)) with 0 by ring.
    apply is_rnd_zero; eauto.
  - pose proof (valid_finite_inv _ _ _ Hx) as [Hr Hc].
    exists (Z.pos m), e, loc_Exact. repeat split; try lia.
    + cbn [located SFval]. replace (e + S) with ((e + 1074) + (S - 1074)) by lia.
      rewrite (pow2_split (e + 1074) (S - 1074)) by lia. ring.
    + rewrite rnd_valid_id by assumption. apply same_float_refl.
Qed.

(** *** The operations *)

Lemma pos_iter_xO (m d : positive) :
  Z.pos (Pos.iter xO m d) = Z.pos m * 2 ^ Z.pos d.
Proof.
  induction d as [|d IH] using Pos.peano_ind.
  - cbn. lia.
  - rewrite Pos.iter_succ, Pos2Z.inj_xO, IH, Pos2Z.inj_succ, Z.pow_succ_r by lia. ring.
Qed.

Lemma shl_align_spec (mx : positive) (ex ex' : Z) :
  snd (shl_align mx ex ex') = Z.min ex ex' /\
  Z.pos (fst (shl_align mx ex ex')) = Z.pos mx * 2 ^ (ex - Z.min ex ex').
Proof.
  unfold shl_align. destruct (ex' - ex) as [|d|d] eqn:Hd; cbn [fst snd].
  - replace (Z.min ex ex') with ex by lia. rewrite Z.sub_diag. cbn. lia.
  - replace (Z.min ex ex') with ex by lia. rewrite Z.sub_diag. cbn. lia.
  - replace (Z.min ex ex') with ex' by lia. rewrite pos_iter_xO.
    replace (ex - ex') with (Z.pos d) by lia. auto.
Qed.

Lemma Zdigits2_shift (m k : Z) :
  0 < m -> 0 <= k -> Zdigits2 (m * 2 ^ k) = Zdigits2 m + k.
Proof.
  intros Hm Hk. destruct (Zdigits2_bounds m Hm) as (H1 & H2 & H3).
  apply Zdigits2_unique; [lia|].
  replace (Zdigits2 m + k - 1) with ((Zdigits2 m - 1) + k) by lia.
  rewrite !pow2_split by lia. pose proof (pow2_pos k Hk). nia.
Qed.

(** [binary_normalize] of a non-negative integer is a rounding of its value. *)
Lemma normalize_is_rnd (m e S : Z) :
  0 <= m -> 0 <= e + S -> 1074 <= S ->
  is_rnd (binary_normalize prec emax m e false) 1 S (m * 2 ^ (e + S)).
Proof.
  intros Hm HeS HS. destruct m as [|k|k]; try lia.
  - cbn [binary_normalize]. rewrite Z.mul_0_l. apply is_rnd_zero; eauto.
  - cbn [binary_normalize]. unfold binary_round. rewrite fexp64_eq.
    change (Z.pos (digits2_pos k)) with (Zdigits2 (Z.pos k)).
    set (E := fexp64 (Zdigits2 (Z.pos k) + e)).
    destruct (shl_align_spec k e E) as [Hez Hmz].
    destruct (shl_align k e E) as [mz ez]. cbn [fst snd] in Hez, Hmz.
    assert (HE : -1074 <= E) by (unfold E, fexp64; lia).
    exists (Z.pos mz), ez, loc_Exact. repeat split; try lia.
    + cbn [located]. rewrite Hmz, Z.mul_1_l.
      replace (e + S) with ((e - Z.min e E) + (ez + S)) by lia.
      rewrite (pow2_split (e - Z.min e E) (ez + S)) by lia. ring.
    + rewrite Hmz, Zdigits2_shift by lia.
      replace (Zdigits2 (Z.pos k) + (e - Z.min e E) + ez) with (Zdigits2 (Z.pos k) + e) by lia.
      fold E. lia.
    + apply same_float_refl.
Qed.

Lemma shl_align_fst_val (mx : positive) (ex ez S : Z) :
  ez <= ex -> 0 <= ez + S ->
  Z.pos (fst (shl_align mx ex ez)) * 2 ^ (ez + S) = Z.pos mx * 2 ^ (ex + S).
Proof.
  intros Hle HS. destruct (shl_align_spec mx ex ez) as [_ ->].
  replace (Z.min ex ez) with ez by lia.
  replace (ex + S) with ((ex - ez) + (ez + S)) by lia.
  rewrite (pow2_split (ex - ez) (ez + S)) by lia. ring.
Qed.

Lemma is_rnd_sub (x c : spec_float) :
  nnfb x = true -> nnfb c = true -> SFval c <= SFval x ->
  is_rnd (SFsub prec emax x c) 1 1074 (SFval x - SFval c).
Proof.
  intros Hx Hc Hle. pose proof (SFval_nonneg _ Hx) as Hx0.
  pose proof (is_rnd_nnf x 1 1074 ltac:(lia) Hx) as Hxr.
  rewrite Z.sub_diag, Z.mul_1_l, Z.mul_1_r in Hxr.
  apply nnfb_inv in Hx as [[sx ->]|(mx & ex & -> & Hx)];
    apply nnfb_inv in Hc as [[sc ->]|(mc & ec & -> & Hc)].
  - cbn [SFval]. apply is_rnd_zero; [lia|]. destruct sx, sc; cbn; eauto.
  - exfalso. cbn [SFval] in Hle. pose proof (valid_finite_inv _ _ _ Hc).
    pose proof (pow2_pos (ec + 1074)). nia.
  - cbn [SFsub]. rewrite Z.sub_0_r. exact Hxr.
  - cbn [SFsub SFval cond_Zopp] in *.
    pose proof (valid_finite_inv _ _ _ Hx) as [Hrx _].
    pose proof (valid_finite_inv _ _ _ Hc) as [Hrc _].
    set (ez := Z.min ex ec).
    pose proof (shl_align_fst_val mx ex ez 1074 ltac:(lia) ltac:(lia)) as Hax.
    pose proof (shl_align_fst_val mc ec ez 1074 ltac:(lia) ltac:(lia)) as Hac.
    set (ax := Z.pos (fst (shl_align mx ex ez))) in *.
    set (ac := Z.pos (fst (shl_align mc ec ez))) in *.
    rewrite <- Hax, <- Hac, <- Z.mul_sub_distr_r.
    apply normalize_is_rnd; try lia.
    pose proof (pow2_pos (ez + 1074) ltac:(lia)). nia.
Qed.

Lemma is_rnd_add (a x : spec_float) :
  nnfb a = true -> nnfb x = true ->
  is_rnd (SFadd prec emax a x) 1 1074 (SFval a + SFval x).
Proof.
  intros Ha Hx.
  pose proof (is_rnd_nnf a 1 1074 ltac:(lia) Ha) as Har.
  pose proof (is_rnd_nnf x 1 1074 ltac:(lia) Hx) as Hxr.
  rewrite Z.sub_diag, Z.mul_1_l, Z.mul_1_r in Har, Hxr.
  apply nnfb_inv in Ha as [[sa ->]|(ma & ea & -> & Ha)];
    apply nnfb_inv in Hx as [[sx ->]|(mx & ex & -> & Hx)].
  - cbn [SFval]. apply is_rnd_zero; [lia|]. destruct sa, sx; cbn; eauto.
  - cbn [SFadd]. rewrite Z.add_0_l. exact Hxr.
  - cbn [SFadd]. rewrite Z.add_0_r. exact Har.
  - cbn [SFadd SFval cond_Zopp] in *.
    pose proof (valid_finite_inv _ _ _ Hx) as [Hrx _].
    pose proof (valid_finite_inv _ _ _ Ha) as [Hra _].
    set (ez := Z.min ea ex).
    pose proof (shl_align_fst_val ma ea ez 1074 ltac:(lia) ltac:(lia)) as Haa.
    pose proof (shl_align_fst_val mx ex ez 1074 ltac:(lia) ltac:(lia)) as Hax.
    set (va := Z.pos (fst (shl_align ma ea ez))) in *.
    set (vx := Z.pos (fst (shl_align mx ex ez))) in *.
    rewrite <- Haa, <- Hax, <- Z.mul_add_distr_r.
    apply normalize_is_rnd; lia.
Qed.

Lemma is_rnd_mul (x d : spec_float) :
  nnfb x = true -> nnfb d = true ->
  is_rnd (SFmul prec emax x d) 1 2148 (SFval x * SFval d).
Proof.
  intros Hx Hd.
  apply nnfb_inv in Hx as [[sx ->]|(mx & ex & -> & Hx)];
    apply nnfb_inv in Hd as [[sd ->]|(md & ed & -> & Hd)];
    cbn [SFval SFmul]; rewrite ?Z.mul_0_l, ?Z.mul_0_r;
    try (apply is_rnd_zero; [lia|eauto]).
  pose proof (valid_finite_inv _ _ _ Hx) as [Hrx Hcx].
  pose proof (valid_finite_inv _ _ _ Hd) as [Hrd Hcd].
  destruct (Zdigits2_bounds (Z.pos mx)) as (Hx1 & Hx2 & Hx3); [lia|].
  destruct (Zdigits2_bounds (Z.pos md)) as (Hd1 & Hd2 & Hd3); [lia|].
  set (dx := Zdigits2 (Z.pos mx)) in *. set (dd := Zdigits2 (Z.pos md)) in *.
  exists (Z.pos (mx * md)), (ex + ed), loc_Exact. cbn [xorb].
  repeat split; try lia.
  - cbn [located]. rewrite Pos2Z.inj_mul, Z.mul_1_l.
    replace (ex + ed + 2148) with ((ex + 1074) + (ed + 1074)) by lia.
    rewrite (pow2_split (ex + 1074) (ed + 1074)) by lia. ring.
  - rewrite Pos2Z.inj_mul.
    assert (Hprod : 2 ^ (dx + dd - 2) <= Z.pos mx * Z.pos md).
    { replace (dx + dd - 2) with ((dx - 1) + (dd - 1)) by lia.
      rewrite pow2_split by lia. apply Z.mul_le_mono_nonneg; try lia;
        apply Z.lt_le_incl, pow2_pos; lia. }
    destruct (Zdigits2_bounds (Z.pos mx * Z.pos md)) as (Hp1 & Hp2 & Hp3); [lia|].
    assert (dx + dd - 2 < Zdigits2 (Z.pos mx * Z.pos md)) by (apply pow2_lt_mono; lia).
    unfold fexp64 in *. lia.
  - apply same_float_refl.
Qed.

Lemma located_scale (B p m T : Z) (l : location) :
  0 < T -> located B p m l -> located (B * T) (p * T) m l.
Proof. intros HT. destruct l as [|[| |]]; cbn; nia. Qed.

Lemma new_location_located (n r q : Z) :
  0 < n -> 0 <= r < n -> located n (q * n + r) q (new_location n r).
Proof.
  intros Hn Hr. unfold new_location, new_location_even, new_location_odd.
  destruct (Z.even n) eqn:Hev; destruct (Z.eqb_spec r 0) as [->|Hr0];
    try (cbn; lia).
  - destruct (Z.compare_spec (2 * r) n); cbn; lia.
  - assert (Hodd : Z.odd n = true) by (rewrite <- Z.negb_even, Hev; reflexivity).
    apply Z.odd_spec in Hodd as [k Hk].
    destruct (Z.compare_spec (2 * r + 1) n); cbn; lia.
Qed.

Lemma shiftl_match (m s : Z) :
  0 <= s ->
  match s with Z.pos _ => Z.shiftl m s | 0 => m | Z.neg _ => 0 end = m * 2 ^ s.
Proof.
  intros Hs. destruct s as [|k|k]; try lia.
  apply Z.shiftl_mul_pow2; lia.
Qed.

Lemma div_core_spec (mx mw : positive) (ex ew : Z) :
  let g := Zdigits2 (Z.pos mx) + ex - (Zdigits2 (Z.pos mw) + ew) in
  let e' := Z.min (fexp64 g) (ex - ew) in
  exists q l,
    SFdiv_core_binary prec emax (Z.pos mx) ex (Z.pos mw) ew = (q, e', l) /\
    0 <= q /\
    located (Z.pos mw) (Z.pos mx * 2 ^ (ex - ew - e')) q l /\
    e' <= fexp64 (Zdigits2 q + e').
Proof.
  intros g e'. unfold SFdiv_core_binary. rewrite fexp64_eq. fold g. fold e'.
  set (s := ex - ew - e').
  assert (Hs : 0 <= s) by (unfold s, e'; lia).
  set (m' := match s with Z.pos _ => Z.shiftl (Z.pos mx) s | 0 => Z.pos mx | Z.neg _ => 0 end).
  assert (Hm' : m' = Z.pos mx * 2 ^ s).
  { unfold m'. apply shiftl_match; assumption. }
  pose proof (Z_div_mod m' (Z.pos mw) ltac:(lia)) as Hdm.
  destruct (Z.div_eucl m' (Z.pos mw)) as [q r]. destruct Hdm as [Hdm Hr].
  assert (Hm'0 : 0 < m') by (rewrite Hm'; pose proof (pow2_pos s Hs); nia).
  assert (Hq : 0 <= q) by nia.
  exists q, (new_location (Z.pos mw) r). split; [reflexivity|].
  split; [assumption|]. split.
  - rewrite <- Hm', Hdm. rewrite (Z.mul_comm (Z.pos mw) q).
    apply new_location_located; lia.
  - destruct (Zdigits2_bounds (Z.pos mx)) as (Hx1 & Hx2 & Hx3); [lia|].
    destruct (Zdigits2_bounds (Z.pos mw)) as (Hw1 & Hw2 & Hw3); [lia|].
    set (dx := Zdigits2 (Z.pos mx)) in *. set (dw := Zdigits2 (Z.pos mw)) in *.
    assert (Hdig : g - e' <= Zdigits2 q).
    { pose proof (Zdigits2_nonneg q).
      destruct (Z.le_gt_cases (g - e') 0) as [|Hpos]; [lia|].
      set (k := dx - dw + s - 1).
      assert (Hk : 0 <= k) by (unfold k, s, g in *; lia).
      assert (Hlow : 2 ^ k * Z.pos mw <= m').
      { rewrite Hm'.
        assert (2 ^ k * Z.pos mw <= 2 ^ k * 2 ^ dw)
          by (apply Z.mul_le_mono_nonneg_l; [apply Z.lt_le_incl, pow2_pos|]; lia).
        assert (2 ^ (dx - 1) * 2 ^ s <= Z.pos mx * 2 ^ s)
          by (apply Z.mul_le_mono_nonneg_r; [apply Z.lt_le_incl, pow2_pos|]; lia).
        rewrite <- pow2_split in * by lia.
        replace (dx - 1 + s) with (k + dw) in * by (unfold k; lia). lia. }
      assert (Hqk : 2 ^ k <= q).
      { pose proof (pow2_pos k Hk).
        destruct (Z.le_gt_cases (2 ^ k) q) as [|Hlt]; [assumption|exfalso]. nia. }
      pose proof (pow2_pos k Hk).
      destruct (Zdigits2_bounds q ltac:(lia)) as (Hq1 & Hq2 & Hq3).
      assert (k < Zdigits2 q) by (apply pow2_lt_mono; lia).
      unfold k, s, g in *. lia. }
    unfold e', fexp64 in *. lia.
Qed.

Lemma is_rnd_div (x : spec_float) (mw : positive) (ew : Z) :
  nnfb x = true -> valid_binary (S754_finite false mw ew) = true ->
  is_rnd (SFdiv prec emax x (S754_finite false mw ew)) (Z.pos mw) 2200
         (SFval x * 2 ^ (1126 - ew)).
Proof.
  intros Hx Hw. pose proof (valid_finite_inv _ _ _ Hw) as [Hrw _].
  apply nnfb_inv in Hx as [[sx ->]|(mx & ex & -> & Hx)].
  - cbn [SFdiv SFval]. rewrite Z.mul_0_l. apply is_rnd_zero; [lia|eauto].
  - pose proof (valid_finite_inv _ _ _ Hx) as [Hrx _].
    cbn [SFdiv SFval xorb].
    destruct (div_core_spec mx mw ex ew) as (q & l & -> & Hq & Hloc & Hfine).
    cbn zeta in *.
    set (e' := Z.min (fexp64 (Zdigits2 (Z.pos mx) + ex - (Zdigits2 (Z.pos mw) + ew))) (ex - ew)) in *.
    assert (He' : -2045 <= e' <= ex - ew) by (unfold e', fexp64; lia).
    exists q, e', l. repeat split; try lia; try assumption.
    + replace (Z.pos mx * 2 ^ (ex + 1074) * 2 ^ (1126 - ew))
        with (Z.pos mx * 2 ^ (ex - ew - e') * 2 ^ (e' + 2200)).
      * apply located_scale; [apply pow2_pos; lia|assumption].
      * rewrite <- !Z.mul_assoc, <- !pow2_split by lia. do 2 f_equal. lia.
    + apply same_float_refl.
Qed.

(** *** Monotonicity of the operations on non-negative floats *)

Lemma nnib_above (lo v : spec_float) :
  nnfb lo = true -> SFleb lo v = true -> nnib v = true.
Proof.
  intros [[s ->]|(m & e & -> & _)]%nnfb_inv;
    destruct v as [sv|[]| |[] mv ev]; cbn; congruence.
Qed.

Lemma nnfb_below (v hi : spec_float) :
  nnib v = true -> valid_binary v = true -> nnfb hi = true ->
  SFleb v hi = true -> nnfb v = true.
Proof.
  intros Hv Hval [[s ->]|(m & e & -> & _)]%nnfb_inv; unfold nnfb; rewrite Hval;
    destruct v as [sv|[]| |[] mv ev]; cbn in *; congruence.
Qed.

Lemma SFsub_mono (c x y : spec_float) :
  nnfb c = true -> nnfb x = true -> nnfb y = true ->
  SFleb c x = true -> SFleb x y = true ->
  SFleb (SFsub prec emax x c) (SFsub prec emax y c) = true /\
  nnib (SFsub prec emax x c) = true /\ nnib (SFsub prec emax y c) = true.
Proof.
  intros Hc Hx Hy Hcx Hxy.
  apply SFleb_nnf in Hcx; try assumption. apply SFleb_nnf in Hxy; try assumption.
  pose proof (is_rnd_sub x c Hx Hc Hcx) as Rx.
  pose proof (is_rnd_sub y c Hy Hc ltac:(lia)) as Ry.
  split; [refine (is_rnd_mono _ _ 1 1074 _ _ _ _ Rx Ry); lia|].
  split; [refine (is_rnd_nni _ 1 _ _ _ Rx) | refine (is_rnd_nni _ 1 _ _ _ Ry)]; lia.
Qed.

Lemma SFmul_mono (d x y : spec_float) :
  nnfb d = true -> nnfb x = true -> nnfb y = true -> SFleb x y = true ->
  SFleb (SFmul prec emax x d) (SFmul prec emax y d) = true /\
  nnib (SFmul prec emax x d) = true /\ nnib (SFmul prec emax y d) = true.
Proof.
  intros Hd Hx Hy Hxy. apply SFleb_nnf in Hxy; try assumption.
  pose proof (SFval_nonneg _ Hd).
  pose proof (is_rnd_mul x d Hx Hd) as Rx. pose proof (is_rnd_mul y d Hy Hd) as Ry.
  split; [refine (is_rnd_mono _ _ 1 2148 _ _ _ _ Rx Ry); nia|].
  split; [refine (is_rnd_nni _ 1 _ _ _ Rx) | refine (is_rnd_nni _ 1 _ _ _ Ry)]; lia.
Qed.

Lemma SFdiv_mono (w x y : spec_float) :
  posfb w = true -> nnfb x = true -> nnfb y = true -> SFleb x y = true ->
  SFleb (SFdiv prec emax x w) (SFdiv prec emax y w) = true /\
  nnib (SFdiv prec emax x w) = true /\ nnib (SFdiv prec emax y w) = true.
Proof.
  intros (mw & ew & -> & Hw)%posfb_inv Hx Hy Hxy. apply SFleb_nnf in Hxy; try assumption.
  pose proof (valid_finite_inv _ _ _ Hw) as [Hr _].
  pose proof (is_rnd_div x mw ew Hx Hw) as Rx. pose proof (is_rnd_div y mw ew Hy Hw) as Ry.
  pose proof (pow2_pos (1126 - ew) ltac:(lia)).
  split; [refine (is_rnd_mono _ _ (Z.pos mw) 2200 _ _ _ _ Rx Ry); nia|].
  split; [refine (is_rnd_nni _ (Z.pos mw) _ _ _ Rx) | refine (is_rnd_nni _ (Z.pos mw) _ _ _ Ry)]; lia.
Qed.

Lemma SFadd_mono (a x y : spec_float) :
  nnfb a = true -> nnfb x = true -> nnfb y = true -> SFleb x y = true ->
  SFleb (SFadd prec emax a x) (SFadd prec emax a y) = true /\
  nnib (SFadd prec emax a x) = true /\ nnib (SFadd prec emax a y) = true.
Proof.
  intros Ha Hx Hy Hxy. apply SFleb_nnf in Hxy; try assumption.
  pose proof (is_rnd_add a x Ha Hx) as Rx. pose proof (is_rnd_add a y Ha Hy) as Ry.
  split; [refine (is_rnd_mono _ _ 1 1074 _ _ _ _ Rx Ry); lia|].
  split; [refine (is_rnd_nni _ 1 _ _ _ Rx) | refine (is_rnd_nni _ 1 _ _ _ Ry)]; lia.
Qed.

(** *** Rounding to an integer *)

Lemma rne_shift_mono (a b k : Z) :
  0 <= k -> a <= b -> rne_shift a k <= rne_shift b k.
Proof.
  intros Hk Hab. unfold rne_shift.
  pose proof (pow2_pos k Hk) as Hd. set (d := 2 ^ k) in *.
  pose proof (Z.div_mod a d ltac:(lia)). pose proof (Z.mod_pos_bound a d Hd).
  pose proof (Z.div_mod b d ltac:(lia)). pose proof (Z.mod_pos_bound b d Hd).
  assert (Hq : a / d <= b / d) by (apply Z.div_le_mono; lia).
  destruct (Z.eq_dec (a / d) (b / d)) as [Heq|Hne].
  - rewrite Heq in *.
    destruct (Z.compare_spec (2 * (a mod d)) d);
      destruct (Z.compare_spec (2 * (b mod d)) d);
      try destruct (Z.even (b / d)); lia.
  - destruct (Z.compare_spec (2 * (a mod d)) d);
      destruct (Z.compare_spec (2 * (b mod d)) d);
      try destruct (Z.even (a / d)); try destruct (Z.even (b / d)); lia.
Qed.

Lemma SFround_val (x : spec_float) :
  nnfb x = true -> SFround x = Some (rne_shift (SFval x) 1074).
Proof.
  intros [[s ->]|(m & e & -> & Hv)]%nnfb_inv; [reflexivity|].
  pose proof (valid_finite_inv _ _ _ Hv) as [Hr _].
  cbn [SFround SFval]. f_equal. unfold rne_shift.
  destruct (Z.leb_spec 0 e) as [He|He].
  - rewrite (pow2_split e 1074), Z.mul_assoc by lia.
    rewrite Z.div_mul, Z.mod_mul by (pose proof (pow2_pos 1074); lia).
    reflexivity.
  - assert (Hsp : 2 ^ 1074 = 2 ^ (- e) * 2 ^ (e + 1074))
      by (rewrite <- pow2_split by lia; f_equal; lia).
    pose proof (pow2_pos (- e) ltac:(lia)) as Hp1.
    pose proof (pow2_pos (e + 1074) ltac:(lia)) as Hp2.
    rewrite Hsp.
    rewrite Z.div_mul_cancel_r, Zmult_mod_distr_r by lia.
    rewrite Z.mul_assoc, <- Zmult_compare_compat_r by lia. reflexivity.
Qed.

(** ** Primitive floats through their specification *)

Definition fle (x y : float) : Prop := (x <=? y)%float = true.

Definition nnf (x : float) : Prop := nnfb (Prim2SF x) = true.

Definition finiteb (x : float) : bool :=
  match Prim2SF x with
  | S754_zero _ | S754_finite _ _ _ => true
  | _ => false
  end.

(** [u <= v <= h], all of them non-negative and finite. *)
Definition ord3 (u v h : float) : Prop :=
  nnf u /\ nnf v /\ nnf h /\ fle u v /\ fle v h.

Lemma fle_SF (x y : float) : fle x y <-> SFleb (Prim2SF x) (Prim2SF y) = true.
Proof. unfold fle. rewrite leb_spec. reflexivity. Qed.

Lemma nnf_between (lo v hi : float) :
  nnf lo -> nnf hi -> fle lo v -> fle v hi -> nnf v.
Proof.
  intros Hlo Hhi Hl%fle_SF Hh%fle_SF.
  apply (nnfb_below _ (Prim2SF hi)); try assumption.
  - apply (nnib_above (Prim2SF lo)); assumption.
  - apply Prim2SF_valid.
Qed.

Lemma fle_trans (x y z : float) : nnf x -> nnf y -> nnf z -> fle x y -> fle y z -> fle x z.
Proof.
  intros Hx Hy Hz Hxy%fle_SF Hyz%fle_SF. apply fle_SF.
  apply SFleb_nnf in Hxy, Hyz; try assumption. apply SFleb_nnf; try assumption. lia.
Qed.

Section Ord3Step.

Variable f : float -> float.
Variable F : spec_float -> spec_float.
Variable P : spec_float -> Prop.
Hypothesis f_spec : forall x, Prim2SF (f x) = F (Prim2SF x).
Hypothesis F_mono : forall x y,
  nnfb x = true -> nnfb y = true -> P x -> P y -> SFleb x y = true ->
  SFleb (F x) (F y) = true /\ nnib (F x) = true /\ nnib (F y) = true.

Lemma ord3_step (u v h : float) :
  P (Prim2SF u) -> P (Prim2SF v) -> P (Prim2SF h) ->
  ord3 u v h -> nnf (f h) -> ord3 (f u) (f v) (f h).
Proof using f_spec F_mono.
  intros Pu Pv Ph (Hu & Hv & Hh & Huv%fle_SF & Hvh%fle_SF) Hfh.
  destruct (F_mono _ _ Hu Hv Pu Pv Huv) as (M1 & N1 & N2).
  destruct (F_mono _ _ Hv Hh Pv Ph Hvh) as (M2 & _ & _).
  unfold nnf in *. rewrite f_spec in Hfh.
  assert (Hfv : nnfb (F (Prim2SF v)) = true).
  { apply (nnfb_below _ (F (Prim2SF h))); try assumption.
    rewrite <- f_spec. apply Prim2SF_valid. }
  assert (Hfu : nnfb (F (Prim2SF u)) = true).
  { apply (nnfb_below _ (F (Prim2SF v))); try assumption.
    rewrite <- f_spec. apply Prim2SF_valid. }
  unfold ord3, nnf. rewrite !fle_SF, !f_spec. auto.
Qed.

End Ord3Step.

Lemma ord3_sub (c u v h : float) :
  nnf c -> fle c u -> ord3 u v h -> nnf (h - c) ->
  ord3 (u - c) (v - c) (h - c).
Proof.
  intros Hc Hcu Ho Hh.
  assert (Hcv : fle c v /\ fle c h).
  { destruct Ho as (Hu & Hv & Hh' & Huv & Hvh).
    assert (fle c v) by (apply (fle_trans c u v); assumption).
    split; [assumption|]. apply (fle_trans c v h); assumption. }
  apply (ord3_step (fun x => x - c)%float (fun X => SFsub prec emax X (Prim2SF c))
           (fun X => SFleb (Prim2SF c) X = true)); try assumption.
  - intros x. apply sub_spec.
  - intros x y Hx Hy Px _ Hxy. apply SFsub_mono; assumption.
  - apply fle_SF; assumption.
  - apply fle_SF; tauto.
  - apply fle_SF; tauto.
Qed.

Lemma ord3_mul (d u v h : float) :
  nnf d -> ord3 u v h -> nnf (h * d) -> ord3 (u * d) (v * d) (h * d).
Proof.
  intros Hd Ho Hh.
  apply (ord3_step (fun x => x * d)%float (fun X => SFmul prec emax X (Prim2SF d))
           (fun _ => True)); try assumption; try exact I.
  - intros x. apply mul_spec.
  - intros x y Hx Hy _ _ Hxy. apply SFmul_mono; assumption.
Qed.

Lemma ord3_div (w u v h : float) :
  posfb (Prim2SF w) = true -> ord3 u v h -> nnf (h / w) -> ord3 (u / w) (v / w) (h / w).
Proof.
  intros Hw Ho Hh.
  apply (ord3_step (fun x => x / w)%float (fun X => SFdiv prec emax X (Prim2SF w))
           (fun _ => True)); try assumption; try exact I.
  - intros x. apply div_spec.
  - intros x y Hx Hy _ _ Hxy. apply SFdiv_mono; assumption.
Qed.

Lemma ord3_add (a u v h : float) :
  nnf a -> ord3 u v h -> nnf (a + h) -> ord3 (a + u) (a + v) (a + h).
Proof.
  intros Ha Ho Hh.
  apply (ord3_step (fun x => a + x)%float (fun X => SFadd prec emax (Prim2SF a) X)
           (fun _ => True)); try assumption; try exact I.
  - intros x. apply add_spec.
  - intros x y Hx Hy _ _ Hxy. apply SFadd_mono; assumption.
Qed.

(** The interpolation [a + (v - lo) * d / w]. *)
Definition interp (a lo d w v : float) : float := (a + (v - lo) * d / w)%float.

Lemma ord3_interp (a lo d w u v h : float) :
  nnf a -> nnf lo -> nnf d -> posfb (Prim2SF w) = true ->
  nnf (h - lo) -> nnf ((h - lo) * d) -> nnf ((h - lo) * d / w) ->
  nnf (interp a lo d w h) ->
  fle lo u -> ord3 u v h ->
  ord3 (interp a lo d w u) (interp a lo d w v) (interp a lo d w h).
Proof.
  intros Ha Hlo Hd Hw H1 H2 H3 H4 Hlu Ho. unfold interp.
  apply ord3_add; try assumption.
  apply ord3_div; try assumption.
  apply ord3_mul; try assumption.
  apply ord3_sub; assumption.
Qed.

Lemma py_round_nnf (x : float) :
  nnf x -> py_round x = Ok (rne_shift (SFval (Prim2SF x)) 1074).
Proof.
  intros Hx. unfold py_round. pose proof (SFround_val _ Hx) as Hr.
  apply nnfb_inv in Hx as [[s Hs]|(m & e & Hs & _)]; rewrite Hs in *; rewrite Hr; reflexivity.
Qed.

Lemma py_round_mono (x y : float) :
  nnf x -> nnf y -> fle x y ->
  exists zx zy, py_round x = Ok zx /\ py_round y = Ok zy /\ zx <= zy.
Proof.
  intros Hx Hy Hxy%fle_SF. apply SFleb_nnf in Hxy; try assumption.
  exists (rne_shift (SFval (Prim2SF x)) 1074), (rne_shift (SFval (Prim2SF y)) 1074).
  rewrite !py_round_nnf by assumption. repeat split. apply rne_shift_mono; lia.
Qed.

(** ** The bands of the table *)

(** The float estimate of a band that is not degenerate. *)
Definition est_float (b : breakpoint) (v : float) : float :=
  interp (of_Z (aqi_lo b)) (pm_lo b) (of_Z (aqi_hi b - aqi_lo b)) (pm_hi b - pm_lo b) v.

(** A band with finite non-negative bounds whose interpolation is finite at
    [pm_hi] and yields [aqi_lo] and [aqi_hi] at its two ends; decided by
    evaluation. *)
Definition band_regular (b : breakpoint) : bool :=
  let lo := pm_lo b in
  let hi := pm_hi b in
  let d := of_Z (aqi_hi b - aqi_lo b) in
  let w := (hi - lo)%float in
  negb (hi =? lo)%float && nnfb (Prim2SF lo) && nnfb (Prim2SF hi) && (lo <=? hi)%float
  && nnfb (Prim2SF (of_Z (aqi_lo b))) && nnfb (Prim2SF d) && posfb (Prim2SF w)
  && nnfb (Prim2SF (hi - lo)) && nnfb (Prim2SF ((hi - lo) * d))
  && nnfb (Prim2SF ((hi - lo) * d / w)) && nnfb (Prim2SF (est_float b hi))
  && match py_round (est_float b lo), py_round (est_float b hi) with
     | Ok zl, Ok zh => (zl =? aqi_lo b) && (zh =? aqi_hi b)
     | _, _ => false
     end.

Lemma regular_bands (b : breakpoint) :
  In b BREAKPOINTS -> (pm_hi b <? infinity)%float = true -> band_regular b = true.
Proof.
  cbn [In BREAKPOINTS]. intros [<-|[<-|[<-|[<-|[<-|[<-|[]]]]]]] H;
    first [vm_compute; reflexivity | discriminate H].
Qed.

Lemma fle_refl (x : float) : nnf x -> fle x x.
Proof. intros Hx. apply fle_SF, SFleb_nnf; try assumption. lia. Qed.

Lemma in_band_inv (b : breakpoint) (v : float) :
  in_band b v = true -> fle (pm_lo b) v /\ fle v (pm_hi b).
Proof. unfold in_band, fle. intros [? ?]%andb_prop. auto. Qed.

(** Within a regular band the integer estimate exists, lies in the
    band's AQI interval and does not decrease with the concentration. *)
Lemma regular_band_estimates (b : breakpoint) (u v : float) :
  band_regular b = true ->
  in_band b u = true -> in_band b v = true -> fle u v ->
  exists zu zv,
    int_round (estimate b u) = Ok zu /\ int_round (estimate b v) = Ok zv /\
    aqi_lo b <= zu /\ zu <= zv /\ zv <= aqi_hi b.
Proof.
  unfold band_regular. cbn zeta.
  intros Hreg [Hlu Huh]%in_band_inv [Hlv Hvh]%in_band_inv Huv.
  repeat (apply andb_prop in Hreg as [Hreg ?]).
  apply negb_true_iff in Hreg.
  assert (Hu : nnf u) by (apply (nnf_between (pm_lo b) u (pm_hi b)); assumption).
  assert (Hv : nnf v) by (apply (nnf_between (pm_lo b) v (pm_hi b)); assumption).
  assert (Hll : fle (pm_lo b) (pm_lo b)) by (apply fle_refl; assumption).
  assert (O1 : ord3 (est_float b (pm_lo b)) (est_float b u) (est_float b (pm_hi b))).
  { apply ord3_interp; try assumption. repeat split; assumption. }
  assert (O2 : ord3 (est_float b u) (est_float b v) (est_float b (pm_hi b))).
  { apply ord3_interp; try assumption. repeat split; assumption. }
  destruct O1 as (Nl & Nu & Nh & Llu & _). destruct O2 as (_ & Nv & _ & Luv & Lvh).
  destruct (py_round_mono _ _ Nl Nu Llu) as (zl & zu & Rl & Ru & Hlu').
  destruct (py_round_mono _ _ Nu Nv Luv) as (zu' & zv & Ru' & Rv & Huv').
  destruct (py_round_mono _ _ Nv Nh Lvh) as (zv' & zh & Rv' & Rh & Hvh').
  rewrite Rl, Rh in *.
  match goal with H : _ && _ = true |- _ => apply andb_prop in H as [?%Z.eqb_eq ?%Z.eqb_eq] end.
  assert (zu' = zu) by congruence. assert (zv' = zv) by congruence. subst.
  exists zu, zv. unfold estimate. rewrite Hreg. cbn [int_round]. fold (est_float b u).
  fold (est_float b v). repeat split; try assumption; lia.
Qed.

(** *** The scan of the table *)

Lemma scan_skip (b : breakpoint) (rest : list breakpoint) (v : float) :
  in_band b v = false -> scan v (b :: rest) = scan v rest.
Proof. intros H. cbn [scan]. rewrite H. reflexivity. Qed.

Lemma scan_hit (b : breakpoint) (rest : list breakpoint) (v : float) :
  in_band b v = true ->
  scan v (b :: rest) = (est ← int_round (estimate b v); mret (band_result b est)).
Proof. intros H. cbn [scan]. rewrite H. reflexivity. Qed.

Lemma scan_none (bps : list breakpoint) (v : float) :
  Forall (fun b => in_band b v = false) bps -> scan v bps = Ok unknown.
Proof.
  induction 1 as [|b bps Hb _ IH]; [reflexivity|].
  rewrite scan_skip by assumption. exact IH.
Qed.

(** A value of a band lies in no band whose upper bound is below the
    band's lower bound. *)
Lemma in_band_excl (b' b : breakpoint) (v : float) :
  nnf (pm_lo b) -> nnf (pm_hi b') ->
  (pm_lo b <=? pm_hi b')%float = false ->
  in_band b v = true -> in_band b' v = false.
Proof.
  intros Hlo Hhi' Hlt [Hlv _]%in_band_inv.
  destruct (in_band b' v) eqn:Hin; [exfalso|reflexivity].
  apply in_band_inv in Hin as [_ Hvh].
  assert (Hv : nnf v) by (apply (nnf_between (pm_lo b) v (pm_hi b')); assumption).
  pose proof (fle_trans _ _ _ Hlo Hv Hhi' Hlv Hvh) as Hc. unfold fle in Hc. congruence.
Qed.

Ltac skip_lower_bands :=
  repeat (rewrite scan_skip;
          [|eapply in_band_excl; [| | |eassumption]; vm_compute; reflexivity]).

Lemma scan_first_match (b : breakpoint) (v : float) :
  In b BREAKPOINTS -> in_band b v = true ->
  scan v BREAKPOINTS = (est ← int_round (estimate b v); mret (band_result b est)).
Proof.
  unfold BREAKPOINTS. cbn [In]. intros [<-|[<-|[<-|[<-|[<-|[<-|[]]]]]]] Hin;
    skip_lower_bands; apply scan_hit; assumption.
Qed.

(** *** The band without an upper bound *)

Definition top_band : breakpoint := Breakpoint 250.1 infinity 301 500 "Hazardous".

(** The product that the interpolation of the top band divides by infinity. *)
Definition top_product (v : float) : float :=
  ((v - pm_lo top_band) * of_Z (aqi_hi top_band - aqi_lo top_band))%float.

Lemma top_band_estimate (v : float) :
  int_round (estimate top_band v) =
  if finiteb (top_product v) then Ok 301 else Raise ValueError.
Proof.
  unfold estimate. change (pm_hi top_band =? pm_lo top_band)%float with false.
  unfold top_product. cbn [int_round aqi_lo aqi_hi pm_hi pm_lo top_band].
  unfold py_round, finiteb.
  rewrite add_spec, div_spec.
  assert (Hw : Prim2SF (infinity - 250.1) = S754_infinity false) by (vm_compute; reflexivity).
  assert (Ha : Prim2SF (of_Z 301) = S754_finite false 5295247999369216 (-44))
    by (vm_compute; reflexivity).
  rewrite Hw, Ha.
  match goal with |- context [SF64div ?t _] => destruct t as [s|s| |s m e] end;
    reflexivity.
Qed.

(** ** The classifier on floats *)

Lemma classify_pm25_float (v : float) :
  classify_pm25 (PyFloat v) = scan v BREAKPOINTS.
Proof. reflexivity. Qed.

Lemma classify_regular_band (b : breakpoint) (u v : float) :
  In b BREAKPOINTS -> band_regular b = true ->
  in_band b u = true -> in_band b v = true -> fle u v ->
  exists zu zv,
    classify_pm25 (PyFloat u) = Ok (band_result b zu) /\
    classify_pm25 (PyFloat v) = Ok (band_result b zv) /\
    aqi_lo b <= zu /\ zu <= zv /\ zv <= aqi_hi b.
Proof.
  intros Hb Hreg Hu Hv Huv.
  destruct (regular_band_estimates b u v Hreg Hu Hv Huv) as (zu & zv & Ru & Rv & Hz).
  exists zu, zv. rewrite !classify_pm25_float.
  rewrite (scan_first_match b u Hb Hu), (scan_first_match b v Hb Hv), Ru, Rv.
  split; [reflexivity|]. split; [reflexivity|]. exact Hz.
Qed.

Lemma top_band_in_table : In top_band BREAKPOINTS.
Proof. cbn. tauto. Qed.

Lemma classify_top_band (v : float) :
  in_band top_band v = true ->
  classify_pm25 (PyFloat v) =
  if finiteb (top_product v) then Ok (band_result top_band 301) else Raise ValueError.
Proof.
  intros Hin. rewrite classify_pm25_float.
  rewrite (scan_first_match top_band v top_band_in_table Hin), top_band_estimate.
  destruct (finiteb (top_product v)); reflexivity.
Qed.

Lemma nnfb_finiteb (x : float) : nnf x -> finiteb x = true.
Proof.
  unfold nnf, finiteb. intros [[s ->]|(m & e & -> & _)]%nnfb_inv; reflexivity.
Qed.

(** Up to [1e300] the product of the top band does not overflow. *)
Lemma top_product_finite (v : float) :
  in_band top_band v = true -> fle v 1e300 -> finiteb (top_product v) = true.
Proof.
  intros [Hlo _]%in_band_inv Hv. apply nnfb_finiteb.
  assert (Nlo : nnf (pm_lo top_band)) by (vm_compute; reflexivity).
  assert (Nh : nnf 1e300) by (vm_compute; reflexivity).
  assert (Nv : nnf v) by (apply (nnf_between (pm_lo top_band) v 1e300); assumption).
  assert (O : ord3 v v 1e300).
  { repeat split; try assumption. apply fle_refl; assumption. }
  assert (O1 : ord3 (v - pm_lo top_band) (v - pm_lo top_band) (1e300 - pm_lo top_band))
    by (apply ord3_sub; try assumption; vm_compute; reflexivity).
  pose proof (ord3_mul (of_Z (aqi_hi top_band - aqi_lo top_band)) _ _ _
                ltac:(vm_compute; reflexivity) O1 ltac:(vm_compute; reflexivity)) as O2.
  destruct O2 as (H & _). exact H.
Qed.

Lemma classify_no_band (v : float) :
  (forall b, In b BREAKPOINTS -> in_band b v = false) ->
  classify_pm25 (PyFloat v) = Ok unknown.
Proof.
  intros H. rewrite classify_pm25_float. apply scan_none.
  apply Forall_forall. intros b Hb. apply H. apply list_elem_of_In. exact Hb.
Qed.

Lemma table_regular_or_top (b : breakpoint) :
  In b BREAKPOINTS -> band_regular b = true \/ b = top_band.
Proof.
  cbn [In BREAKPOINTS]. intros [<-|[<-|[<-|[<-|[<-|[<-|[]]]]]]];
    first [left; vm_compute; reflexivity | right; reflexivity].
Qed.

Lemma regular_band_nnf (b : breakpoint) (v : float) :
  band_regular b = true -> in_band b v = true -> nnf v.
Proof.
  unfold band_regular. cbn zeta. intros Hr [? ?]%in_band_inv.
  repeat (apply andb_prop in Hr as [Hr ?]).
  apply (nnf_between (pm_lo b) v (pm_hi b)); assumption.
Qed.

Lemma classify_regular_ok (b : breakpoint) (v : float) :
  In b BREAKPOINTS -> band_regular b = true -> in_band b v = true ->
  exists est,
    classify_pm25 (PyFloat v) = Ok (band_result b est) /\
    aqi_lo b <= est <= aqi_hi b.
Proof.
  intros Hb Hreg Hin.
  assert (Hvv : fle v v) by (apply fle_refl, (regular_band_nnf b); assumption).
  destruct (classify_regular_band b v v Hb Hreg Hin Hin Hvv) as (z & z' & R & R' & Hz).
  exists z. split; [exact R|lia].
Qed.

(** A value of a band, up to [1e300], is classified into the band, with an
    estimate inside the band's AQI interval. *)
Lemma classify_in_band (b : breakpoint) (v : float) :
  In b BREAKPOINTS -> in_band b v = true -> fle v 1e300 ->
  exists est,
    classify_pm25 (PyFloat v) = Ok (band_result b est) /\
    aqi_lo b <= est <= aqi_hi b.
Proof.
  intros Hb Hin Hv. destruct (table_regular_or_top b Hb) as [Hreg| ->].
  - apply classify_regular_ok; assumption.
  - exists 301. rewrite (classify_top_band v Hin), (top_product_finite v Hin Hv).
    split; [reflexivity|]. cbn. lia.
Qed.

(** No float lies in two bands of the table. *)
Lemma bands_disjoint (b b' : breakpoint) (v : float) :
  In b BREAKPOINTS -> In b' BREAKPOINTS ->
  in_band b v = true -> in_band b' v = true -> b = b'.
Proof.
  cbn [In BREAKPOINTS].
  intros [<-|[<-|[<-|[<-|[<-|[<-|[]]]]]]] [<-|[<-|[<-|[<-|[<-|[<-|[]]]]]]] H1 H2;
    try reflexivity; exfalso.
  all: match goal with
       | H1 : in_band ?a ?x = true, H2 : in_band ?c ?x = true |- _ =>
           first
             [ assert (Hf : in_band a x = false)
                 by (apply (in_band_excl a c x);
                     [vm_compute; reflexivity|vm_compute; reflexivity
                     |vm_compute; reflexivity|exact H2]);
               rewrite Hf in H1; discriminate H1
             | assert (Hf : in_band c x = false)
                 by (apply (in_band_excl c a x);
                     [vm_compute; reflexivity|vm_compute; reflexivity
                     |vm_compute; reflexivity|exact H1]);
               rewrite Hf in H2; discriminate H2 ]
       end.
Qed.

(** Every float lies in a band of the table or in none of them. *)
Lemma in_some_band_dec (v : float) :
  (exists b, In b BREAKPOINTS /\ in_band b v = true) \/
  (forall b, In b BREAKPOINTS -> in_band b v = false).
Proof.
  destruct (existsb (fun b => in_band b v) BREAKPOINTS) eqn:He.
  - left. apply existsb_exists in He. exact He.
  - right. intros b Hb. destruct (in_band b v) eqn:Hin; [|reflexivity].
    assert (existsb (fun b => in_band b v) BREAKPOINTS = true)
      by (apply existsb_exists; eauto).
    congruence.
Qed.

(** The classifier raises on a float exactly when the float lies in the top
    band and the product of its interpolation overflows. *)
Lemma classify_pm25_raises_iff (v : float) :
  raises (classify_pm25 (PyFloat v)) = true <->
  in_band top_band v = true /\ finiteb (top_product v) = false.
Proof.
  split.
  - intros Hr. destruct (in_band top_band v) eqn:Htop.
    + rewrite (classify_top_band v Htop) in Hr.
      destruct (finiteb (top_product v)); [discriminate|auto].
    + exfalso. destruct (in_some_band_dec v) as [(b & Hb & Hin)|Hnone].
      * destruct (table_regular_or_top b Hb) as [Hreg| ->]; [|congruence].
        destruct (classify_regular_ok b v Hb Hreg Hin) as (z & R & _).
        rewrite R in Hr. discriminate.
      * rewrite (classify_no_band v Hnone) in Hr. discriminate.
  - intros [Htop Hf]. rewrite (classify_top_band v Htop), Hf. reflexivity.
Qed.

(** ** The fields of a classification *)

Lemma band_result_label (b : breakpoint) (est : Z) :
  band_result b est !! "sl_aqi_label" = Some (PyStr (label b)).
Proof. unfold band_result. by simplify_map_eq. Qed.

Lemma band_result_est (b : breakpoint) (est : Z) :
  band_result b est !! "sl_aqi_est" = Some (PyInt est).
Proof. unfold band_result. by simplify_map_eq. Qed.

Lemma band_result_aqi_range (b : breakpoint) (est : Z) :
  band_result b est !! "sl_aqi_range" = Some (PyList [PyInt (aqi_lo b); PyInt (aqi_hi b)]).
Proof. unfold band_result. by simplify_map_eq. Qed.

Lemma band_result_pm25_range (b : breakpoint) (est : Z) :
  band_result b est !! "pm25_range" =
  Some (PyList [PyFloat (pm_lo b);
                if (pm_hi b =? infinity)%float then PyNone else PyFloat (pm_hi b)]).
Proof.
  unfold band_result. destruct (pm_hi b =? infinity)%float; by simplify_map_eq.
Qed.

Lemma negative_in_no_band (lo v : float) :
  nnf lo -> (v <? 0)%float = true -> (lo <=? v)%float = false.
Proof.
  unfold nnf. rewrite ltb_spec, leb_spec.
  assert (H0 : Prim2SF 0 = S754_zero false) by (vm_compute; reflexivity).
  rewrite H0. intros [[s ->]|(m & e & -> & _)]%nnfb_inv;
    destruct (Prim2SF v) as [sv|[]| |[] mv ev]; cbn; congruence.
Qed.

Lemma table_lower_bounds_nnf (b : breakpoint) : In b BREAKPOINTS -> nnf (pm_lo b).
Proof.
  cbn [In BREAKPOINTS]. intros [<-|[<-|[<-|[<-|[<-|[<-|[]]]]]]]; vm_compute; reflexivity.
Qed.

Lemma classify_negative (v : float) :
  (v <? 0)%float = true -> classify_pm25 (PyFloat v) = Ok unknown.
Proof.
  intros Hv. apply classify_no_band. intros b Hb. unfold in_band.
  rewrite (negative_in_no_band (pm_lo b) v (table_lower_bounds_nnf b Hb) Hv). reflexivity.
Qed.

(** ** Properties of [classify_pm25] *)

(** C1.  The claim that [classify_pm25] returns a result for every numeric
    input fails on the code: the infinite float and the finite float
    [1e308] both match the top band, where the interpolation computes
    [inf / inf], and [round] raises [ValueError] on the NaN; an integer too
    large for a float raises [OverflowError] in the coercion. *)
Theorem classify_pm25_raises_on_numeric_input :
  classify_pm25 (PyFloat infinity) = Raise ValueError /\
  classify_pm25 (PyFloat 1e308) = Raise ValueError /\
  classify_pm25 (PyInt (10 ^ 400)) = Raise OverflowError.
Proof. repeat split; vm_compute; reflexivity. Qed.

(** C3, as stated, is false: [25.05] is at least [0.0] and lies between the
    upper bound [25.0] of the first band and the lower bound [25.1] of the
    second, so its label is none of the six band names. *)
Lemma classify_pm25_gap_counterexample :
  ~ (forall v : float, (0 <=? v)%float = true ->
       exists (d : pydict) (b : breakpoint),
         classify_pm25 (PyFloat v) = Ok d /\ In b BREAKPOINTS /\
         d !! "sl_aqi_label" = Some (PyStr (label b))).
Proof.
  intros H. destruct (H 25.05%float eq_refl) as (d & b & Hc & Hb & Hl).
  assert (Hu : classify_pm25 (PyFloat 25.05) = Ok unknown) by (vm_compute; reflexivity).
  rewrite Hu in Hc. injection Hc as <-.
  assert (Hlab : unknown !! "sl_aqi_label" = Some (PyStr "Unknown")) by (vm_compute; reflexivity).
  rewrite Hlab in Hl. injection Hl as Hl.
  cbn [In BREAKPOINTS] in Hb.
  destruct Hb as [<-|[<-|[<-|[<-|[<-|[<-|[]]]]]]]; discriminate Hl.
Qed.

(** C4.  [classify_pm25(25.0)] is "Good" with estimate 50 and
    [classify_pm25(25.1)] is "Moderate" with estimate 51; each band contains
    both of its bounds, and the upper bound of each finite band is classified
    into that band, with the band's [aqi_hi]. *)
Theorem classify_pm25_boundary_values :
  classify_pm25 (PyFloat 25.0) =
    Ok {[ "sl_aqi_label" := PyStr "Good"; "sl_aqi_est" := PyInt 50;
          "sl_aqi_range" := PyList [PyInt 0; PyInt 50];
          "pm25_range" := PyList [PyFloat 0.0; PyFloat 25.0] ]} /\
  classify_pm25 (PyFloat 25.1) =
    Ok {[ "sl_aqi_label" := PyStr "Moderate"; "sl_aqi_est" := PyInt 51;
          "sl_aqi_range" := PyList [PyInt 51; PyInt 100];
          "pm25_range" := PyList [PyFloat 25.1; PyFloat 50.0] ]} /\
  Forall (fun b => in_band b (pm_lo b) = true /\ in_band b (pm_hi b) = true) BREAKPOINTS /\
  Forall (fun b => classify_pm25 (PyFloat (pm_hi b)) = Ok (band_result b (aqi_hi b)))
         (take 5 BREAKPOINTS).
Proof.
  split; [vm_compute; reflexivity|]. split; [vm_compute; reflexivity|].
  split; repeat constructor; vm_compute; reflexivity.
Qed.

(** C5.  Within each of the five finite bands the estimate does not decrease
    with the concentration, and both bounds of the band report the band's
    ranges.  In the top band every estimate that is returned is 301, but its
    upper bound, the infinite float, raises [ValueError]: that part of the
    claim fails on the code. *)
Theorem classify_pm25_monotone_in_band :
  (forall (b : breakpoint) (u v : float),
      In b BREAKPOINTS -> (pm_hi b <? infinity)%float = true ->
      in_band b u = true -> in_band b v = true -> (u <=? v)%float = true ->
      exists zu zv,
        classify_pm25 (PyFloat u) = Ok (band_result b zu) /\
        classify_pm25 (PyFloat v) = Ok (band_result b zv) /\ zu <= zv) /\
  Forall (fun b =>
            classify_pm25 (PyFloat (pm_lo b)) = Ok (band_result b (aqi_lo b)) /\
            classify_pm25 (PyFloat (pm_hi b)) = Ok (band_result b (aqi_hi b)))
         (take 5 BREAKPOINTS) /\
  (forall v : float,
      in_band top_band v = true -> finiteb (top_product v) = true ->
      classify_pm25 (PyFloat v) = Ok (band_result top_band 301)) /\
  In top_band BREAKPOINTS /\
  in_band top_band (pm_hi top_band) = true /\
  classify_pm25 (PyFloat (pm_lo top_band)) = Ok (band_result top_band 301) /\
  classify_pm25 (PyFloat (pm_hi top_band)) = Raise ValueError.
Proof.
  split.
  { intros b u v Hb Hfin Hu Hv Huv.
    destruct (classify_regular_band b u v Hb (regular_bands b Hb Hfin) Hu Hv Huv)
      as (zu & zv & Ru & Rv & _ & Hz & _).
    exists zu, zv. auto. }
  split; [repeat constructor; vm_compute; reflexivity|].
  split.
  { intros v Hin Hf. rewrite (classify_top_band v Hin), Hf. reflexivity. }
  split; [apply top_band_in_table|].
  repeat split; vm_compute; reflexivity.
Qed.

(** C9.  An absent input and [-5.0] are both classified as unknown: the label
    is "Unknown", the estimate is [None], and the result has no AQI range
    and no pm25 range.  The same holds of every float below [0.0]. *)
Theorem classify_pm25_unknown_cases :
  classify_pm25 PyNone = Ok unknown /\
  classify_pm25 (PyFloat (-5.0)) = Ok unknown /\
  unknown !! "sl_aqi_label" = Some (PyStr "Unknown") /\
  unknown !! "sl_aqi_est" = Some PyNone /\
  unknown !! "sl_aqi_range" = None /\
  unknown !! "pm25_range" = None /\
  dom unknown = ({[ "sl_aqi_label"; "sl_aqi_est" ]} : gset string) /\
  (forall v : float, (v <? 0)%float = true -> classify_pm25 (PyFloat v) = Ok unknown).
Proof.
  split; [reflexivity|]. split; [vm_compute; reflexivity|].
  split; [vm_compute; reflexivity|]. split; [vm_compute; reflexivity|].
  split; [vm_compute; reflexivity|]. split; [vm_compute; reflexivity|].
  split; [unfold unknown; set_solver|]. exact classify_negative.
Qed.

(** C10.  For every value of a band up to [1e300] the estimate is an integer
    within the band's AQI interval and the two ranges are the band's own;
    but the finite value [1e308] matches the top band and the call raises
    [ValueError] instead of returning an estimate: the claim fails there on
    the code. *)
Theorem classify_pm25_estimate_in_range :
  (forall (b : breakpoint) (v : float),
      In b BREAKPOINTS -> in_band b v = true -> (v <=? 1e300)%float = true ->
      exists est,
        classify_pm25 (PyFloat v) = Ok (band_result b est) /\
        aqi_lo b <= est <= aqi_hi b /\
        band_result b est !! "sl_aqi_est" = Some (PyInt est) /\
        band_result b est !! "sl_aqi_range" =
          Some (PyList [PyInt (aqi_lo b); PyInt (aqi_hi b)]) /\
        band_result b est !! "pm25_range" =
          Some (PyList [PyFloat (pm_lo b);
                        if (pm_hi b =? infinity)%float then PyNone
                        else PyFloat (pm_hi b)])) /\
  finiteb 1e308 = true /\
  in_band top_band 1e308 = true /\
  classify_pm25 (PyFloat 1e308) = Raise ValueError.
Proof.
  split.
  { intros b v Hb Hin Hv. destruct (classify_in_band b v Hb Hin Hv) as (est & Hc & Hest).
    exists est. split; [assumption|]. split; [assumption|].
    split; [apply band_result_est|]. split; [apply band_result_aqi_range|].
    apply band_result_pm25_range. }
  repeat split; vm_compute; reflexivity.
Qed.

(** ** Coercion failures and [iso_from_ms] *)

Lemma classify_pm25_coercion_error (x : pyval) (e : exn) :
  x <> PyNone -> py_float x = Raise e -> classify_pm25 x = Raise e.
Proof.
  intros Hx He. unfold classify_pm25. destruct x; try congruence; rewrite He; reflexivity.
Qed.

(** C2.  The claim that a value which cannot be coerced to a number is
    classified as unknown fails on the code: [float] raises, nothing in
    [classify_pm25] catches the exception, and it ends the whole enrichment
    pass.  The sibling [iso_from_ms] catches the same exception and
    returns [None]. *)
Theorem classify_pm25_unparseable_raises :
  py_float (PyStr "unparseable") = Raise ValueError /\
  classify_pm25 (PyStr "unparseable") = Raise ValueError /\
  classify_pm25 (PyList []) = Raise TypeError /\
  enrich_all [ {[ "name" := PyStr "A"; "pm25" := PyStr "unparseable" ]} ] = Raise ValueError /\
  (forall (repr_other : pyval -> string) (fetched_at : string),
      main repr_other fetched_at
        [ {[ "name" := PyStr "A"; "pm25" := PyStr "unparseable" ]} ] = Raise ValueError) /\
  iso_from_ms (PyStr "unparseable") = None.
Proof.
  split; [vm_compute; reflexivity|]. split; [vm_compute; reflexivity|].
  split; [vm_compute; reflexivity|].
  assert (He : enrich_all [ {[ "name" := PyStr "A"; "pm25" := PyStr "unparseable" ]} ]
               = Raise ValueError) by (vm_compute; reflexivity).
  split; [exact He|]. split; [|vm_compute; reflexivity].
  intros repr_other fetched_at. unfold main. rewrite He. reflexivity.
Qed.

(** *** The suffix of the timestamp *)

Fixpoint has_plus (s : string) : bool :=
  match s with
  | EmptyString => false
  | String c s' => Ascii.eqb c "+" || has_plus s'
  end.

Lemma has_plus_append (s t : string) :
  has_plus (s ++ t) = has_plus s || has_plus t.
Proof.
  induction s as [|c s IH]; [reflexivity|].
  simpl. rewrite IH, orb_assoc. reflexivity.
Qed.

Lemma has_plus_zpad (w : nat) :
  forall (n : Z) (acc : string), has_plus (DateTime.zpad w n acc) = has_plus acc.
Proof.
  induction w as [|w IH]; intros n acc; [reflexivity|].
  cbn [DateTime.zpad]. rewrite IH. cbn [has_plus].
  pose proof (Z.mod_pos_bound n 10 ltac:(lia)) as Hb.
  assert (Hk : exists k, Z.to_nat (n mod 10) = k /\ (k < 10)%nat)
    by (exists (Z.to_nat (n mod 10)); split; [reflexivity|lia]).
  destruct Hk as (k & -> & Hk).
  do 10 (destruct k as [|k]; [reflexivity|]). lia.
Qed.

Lemma has_plus_isoformat_naive (dt : DateTime.datetime) :
  has_plus (DateTime.isoformat_naive dt) = false.
Proof.
  unfold DateTime.isoformat_naive. cbn zeta.
  repeat rewrite has_plus_append. rewrite !has_plus_zpad.
  destruct (DateTime.microsecond dt =? 0); [reflexivity|].
  change (String.append ?a ?b) with (a ++ b)%string.
  rewrite has_plus_append, has_plus_zpad. reflexivity.
Qed.

Lemma str_replace_offset (body : string) :
  has_plus body = false ->
  str_replace (body ++ "+00:00") "+00:00" "Z" = (body ++ "Z")%string.
Proof.
  unfold str_replace. induction body as [|c body IH]; [reflexivity|].
  cbn [has_plus]. intros [Hc Hb]%orb_false_elim.
  change ((String c body ++ "+00:00")%string) with (String c (body ++ "+00:00")).
  cbn [replace_from String.prefix].
  destruct (ascii_dec "+" c) as [<-|Hne]; [discriminate Hc|].
  rewrite (IH Hb). reflexivity.
Qed.

Lemma fromtimestamp_nonfinite (f : float) :
  finiteb f = false -> raises (DateTime.fromtimestamp_utc (f / 1000.0)) = true.
Proof.
  unfold finiteb, DateTime.fromtimestamp_utc, DateTime.split_seconds.
  rewrite div_spec.
  assert (H : Prim2SF 1000.0 = S754_finite false 8796093022208000 (-43))
    by (vm_compute; reflexivity).
  rewrite H. destruct (Prim2SF f) as [s|s| |s m e]; try discriminate; reflexivity.
Qed.

(** C7.  [iso_from_ms(1700000000000)] is "2023-11-14T22:13:20Z"; an absent
    input, an input [float] rejects and an input that is not a finite number
    give [None]; no input raises, and every string returned is the date and
    time followed by the literal [Z]. *)
Theorem iso_from_ms_conversion :
  iso_from_ms (PyInt 1700000000000) = Some "2023-11-14T22:13:20Z" /\
  iso_from_ms PyNone = None /\
  iso_from_ms (PyStr "not-a-number") = None /\
  (forall x : pyval, raises (py_float x) = true -> iso_from_ms x = None) /\
  (forall (x : pyval) (f : float),
      py_float x = Ok f -> finiteb f = false -> iso_from_ms x = None) /\
  (forall (x : pyval) (s : string),
      iso_from_ms x = Some s ->
      exists dt, s = (DateTime.isoformat_naive dt ++ "Z")%string).
Proof.
  split; [vm_compute; reflexivity|]. split; [reflexivity|].
  split; [vm_compute; reflexivity|]. split; [|split].
  - intros x Hr. unfold iso_from_ms.
    destruct x; try reflexivity; destruct (py_float _); try discriminate; reflexivity.
  - intros x f Hf Hn. unfold iso_from_ms. destruct x; try reflexivity; rewrite Hf;
      pose proof (fromtimestamp_nonfinite f Hn) as Hr; cbn;
      destruct (DateTime.fromtimestamp_utc _); try discriminate; reflexivity.
  - intros x s. unfold iso_from_ms.
    destruct x; try discriminate; destruct (py_float _) as [t|]; try discriminate; cbn;
      destruct (DateTime.fromtimestamp_utc _) as [dt|]; try discriminate; cbn;
      intros [= <-]; exists dt; unfold DateTime.isoformat;
      apply str_replace_offset, has_plus_isoformat_naive.
Qed.

(** ** The order of the output stations *)

Definition str_ltP (a b : string) : Prop := String.compare a b = Lt.

Definition str_leP (a b : string) : Prop := String.compare a b <> Gt.

(** The ascending lexicographic order on pairs of strings. *)
Definition key_order (k1 k2 : string * string) : Prop :=
  str_ltP (fst k1) (fst k2) \/ (fst k1 = fst k2 /\ str_leP (snd k1) (snd k2)).

Lemma ascii_compare_refl (a : ascii) : Ascii.compare a a = Eq.
Proof. unfold Ascii.compare. apply N.compare_refl. Qed.

Lemma ascii_compare_lt_trans (a b c : ascii) :
  Ascii.compare a b = Lt -> Ascii.compare b c = Lt -> Ascii.compare a c = Lt.
Proof. unfold Ascii.compare. rewrite !N.compare_lt_iff. lia. Qed.

Lemma string_compare_refl (s : string) : String.compare s s = Eq.
Proof. induction s as [|c s IH]; [reflexivity|]. cbn. rewrite ascii_compare_refl. exact IH. Qed.

Lemma string_compare_lt_trans (a : string) :
  forall b c, str_ltP a b -> str_ltP b c -> str_ltP a c.
Proof.
  unfold str_ltP. induction a as [|x a IH]; intros [|y b] [|z c]; cbn; try congruence.
  destruct (Ascii.compare x y) eqn:Hxy; try discriminate;
    destruct (Ascii.compare y z) eqn:Hyz; try discriminate; intros H1 H2.
  - apply Ascii.compare_eq_iff in Hxy, Hyz. subst. rewrite ascii_compare_refl. eauto.
  - apply Ascii.compare_eq_iff in Hxy. subst. rewrite Hyz. reflexivity.
  - apply Ascii.compare_eq_iff in Hyz. subst. rewrite Hxy. reflexivity.
  - rewrite (ascii_compare_lt_trans _ _ _ Hxy Hyz). reflexivity.
Qed.

Lemma str_leP_cases (a b : string) : str_leP a b <-> str_ltP a b \/ a = b.
Proof.
  unfold str_leP, str_ltP. split.
  - destruct (String.compare a b) eqn:Hc; intros H; try congruence; auto.
    right. apply String.compare_eq_iff. exact Hc.
  - intros [->| ->]; [discriminate|]. rewrite string_compare_refl. discriminate.
Qed.

Lemma key_le_spec (k1 k2 : string * string) :
  key_le k1 k2 = true <-> key_order k1 k2.
Proof.
  unfold key_le, key_lt, key_order, str_lt, str_leP, str_ltP.
  destruct k1 as [a1 b1], k2 as [a2 b2]. cbn [fst snd].
  destruct (String.eqb_spec a2 a1) as [->|Hne].
  - rewrite (String.compare_antisym b1 b2), string_compare_refl.
    destruct (String.compare b2 b1); cbn; intuition congruence.
  - rewrite (String.compare_antisym a1 a2).
    destruct (String.compare a2 a1) eqn:Hc; cbn.
    + apply String.compare_eq_iff in Hc. congruence.
    + intuition congruence.
    + intuition congruence.
Qed.

Lemma key_order_trans (k1 k2 k3 : string * string) :
  key_order k1 k2 -> key_order k2 k3 -> key_order k1 k3.
Proof.
  unfold key_order. rewrite !str_leP_cases.
  intros [H1|[E1 [H1|H1]]] [H2|[E2 [H2|H2]]];
    try rewrite E1 in *; try rewrite <- E2 in *; try rewrite H1 in *; try rewrite <- H2 in *;
    eauto using string_compare_lt_trans.
Qed.

Lemma key_lt_le (k1 k2 : string * string) :
  key_lt k1 k2 = true -> key_order k1 k2.
Proof.
  intros H. apply key_le_spec. unfold key_le.
  destruct (key_lt k2 k1) eqn:H2; [exfalso|reflexivity].
  unfold key_lt, str_lt in *. destruct k1 as [a1 b1], k2 as [a2 b2]. cbn [fst snd] in *.
  rewrite (String.eqb_sym a2 a1) in H2. destruct (String.eqb a1 a2).
  - rewrite (String.compare_antisym b2 b1) in H2.
    destruct (String.compare b1 b2); discriminate.
  - rewrite (String.compare_antisym a2 a1) in H2.
    destruct (String.compare a1 a2); discriminate.
Qed.

Section OrderingFacts.

Variable repr_other : pyval -> string.

Abbreviation station_le :=
  (fun x y : pydict => key_order (sort_key repr_other x) (sort_key repr_other y)).

Lemma insert_station_perm (x : pydict) (l : list pydict) :
  Permutation (insert_station repr_other x l) (x :: l).
Proof.
  induction l as [|y l IH]; [reflexivity|]. cbn [insert_station].
  destruct (key_lt _ _); [|reflexivity].
  rewrite IH. apply perm_swap.
Qed.

Lemma insert_station_sorted (x : pydict) (l : list pydict) :
  StronglySorted station_le l -> StronglySorted station_le (insert_station repr_other x l).
Proof.
  induction 1 as [|y l Hs IH Hy]; cbn [insert_station].
  - repeat constructor.
  - destruct (key_lt (sort_key repr_other y) (sort_key repr_other x)) eqn:Hlt.
    + constructor; [exact IH|].
      rewrite (insert_station_perm x l). constructor; [|exact Hy].
      apply key_lt_le. exact Hlt.
    + assert (Hxy : station_le x y) by (apply key_le_spec; unfold key_le; rewrite Hlt; reflexivity).
      constructor; [constructor; assumption|].
      constructor; [exact Hxy|].
      eapply Forall_impl; [exact Hy|]. intros z Hz. cbn in *.
      eapply key_order_trans; eassumption.
Qed.

Lemma sort_stations_sorted (l : list pydict) :
  StronglySorted station_le (sort_stations repr_other l).
Proof.
  induction l as [|x l IH]; cbn; [constructor|]. apply insert_station_sorted. exact IH.
Qed.

Lemma sort_stations_perm (l : list pydict) :
  Permutation (sort_stations repr_other l) l.
Proof.
  induction l as [|x l IH]; cbn; [reflexivity|].
  rewrite insert_station_perm. constructor. exact IH.
Qed.

End OrderingFacts.

(** The stations of an output document. *)
Definition output_stations (doc : pydict) : list pydict :=
  match doc !! "stations" with
  | Some (PyList l) =>
      omap (fun x => match x with PyDict d => Some d | _ => None end) l
  | _ => []
  end.

Lemma output_stations_main (repr_other : pyval -> string) (fetched_at : string)
    (data : list pydict) (doc : pydict) :
  main repr_other fetched_at data = Ok doc ->
  exists enriched,
    enrich_all data = Ok enriched /\
    output_stations doc = sort_stations repr_other enriched.
Proof.
  unfold main. destruct (enrich_all data) as [enriched|e]; [|discriminate].
  cbn. intros [= <-]. exists enriched. split; [reflexivity|].
  unfold output_stations. simplify_map_eq.
  induction (sort_stations repr_other enriched) as [|x l IH]; [reflexivity|].
  cbn. f_equal. exact IH.
Qed.

(** C8.  The stations of the output document are the enriched readings in
    ascending order of the pair (str of name, str of meta_device_id), each
    compared by code point, a missing field counting as the empty string;
    two readings named "B" and "A" come out as "A" then "B". *)
Theorem output_stations_sorted (repr_other : pyval -> string) :
  (forall l : list pydict,
      StronglySorted
        (fun x y => key_order (sort_key repr_other x) (sort_key repr_other y))
        (sort_stations repr_other l) /\
      Permutation (sort_stations repr_other l) l) /\
  (forall (fetched_at : string) (data : list pydict) (doc : pydict),
      main repr_other fetched_at data = Ok doc ->
      StronglySorted
        (fun x y => key_order (sort_key repr_other x) (sort_key repr_other y))
        (output_stations doc) /\
      exists enriched,
        enrich_all data = Ok enriched /\ Permutation (output_stations doc) enriched) /\
  (forall x : pydict,
      x !! "name" = None -> x !! "meta_device_id" = None ->
      sort_key repr_other x = (EmptyString, EmptyString)) /\
  (forall (x : pydict) (n i : string),
      x !! "name" = Some (PyStr n) -> x !! "meta_device_id" = Some (PyStr i) ->
      sort_key repr_other x = (n, i)) /\
  (exists doc,
      main repr_other "2024-01-01T00:00:00Z"
        [ {[ "name" := PyStr "B"; "pm25" := PyInt 10 ]};
          {[ "name" := PyStr "A"; "pm25" := PyNone ]} ] = Ok doc /\
      (fun d : pydict => d !! "name") <$> output_stations doc
        = [Some (PyStr "A"); Some (PyStr "B")] /\
      (fun d : pydict => d !! "sl_aqi_label") <$> output_stations doc
        = [Some (PyStr "Unknown"); Some (PyStr "Good")]).
Proof.
  split; [|split; [|split; [|split]]].
  - intros l. split; [apply sort_stations_sorted|apply sort_stations_perm].
  - intros fetched_at data doc Hdoc.
    destruct (output_stations_main _ _ _ _ Hdoc) as (enriched & He & ->).
    split; [apply sort_stations_sorted|].
    exists enriched. split; [exact He|apply sort_stations_perm].
  - intros x Hn Hi. unfold sort_key, dict_get. rewrite Hn, Hi. reflexivity.
  - intros x n i Hn Hi. unfold sort_key, dict_get. rewrite Hn, Hi. reflexivity.
  - eexists. split; [vm_compute; reflexivity|]. split; vm_compute; reflexivity.
Qed.

(** *** The order of floats *)

Definition flt (x y : float) : Prop := (x <? y)%float = true.

Definition nanb (x : float) : bool :=
  match Prim2SF x with
  | S754_nan => true
  | _ => false
  end.

Lemma SFcompare_antisym (x y : spec_float) :
  SFcompare y x = option_map CompOpp (SFcompare x y).
Proof.
  destruct x as [sx|sx| |sx mx ex], y as [sy|sy| |sy my ey]; cbn;
    try destruct sx; try destruct sy; try reflexivity.
  - rewrite (Z.compare_antisym ey ex). destruct (ey ?= ex); cbn; try reflexivity.
    f_equal. rewrite <- (Pos.compare_cont_antisym _ _ Eq). reflexivity.
  - rewrite (Z.compare_antisym ey ex). destruct (ey ?= ex); cbn; try reflexivity.
    f_equal. rewrite <- (Pos.compare_cont_antisym _ _ Eq). reflexivity.
Qed.

Lemma SFcompare_None (x y : spec_float) :
  SFcompare x y = None -> x = S754_nan \/ y = S754_nan.
Proof.
  destruct x as [sx|sx| |sx mx ex], y as [sy|sy| |sy my ey]; cbn; auto; discriminate.
Qed.

(** Two floats that are not NaN are ordered one way or the other. *)
Lemma leb_false_ltb (x y : float) :
  nanb x = false -> nanb y = false -> (x <=? y)%float = false -> flt y x.
Proof.
  unfold nanb, flt. rewrite leb_spec, ltb_spec. unfold SFleb, SFltb.
  rewrite (SFcompare_antisym (Prim2SF x) (Prim2SF y)).
  destruct (SFcompare (Prim2SF x) (Prim2SF y)) as [[| |]|] eqn:Hc; cbn; try congruence.
  apply SFcompare_None in Hc as [-> | ->]; discriminate.
Qed.

Lemma ltb_leb_false (x y : float) : flt y x -> (x <=? y)%float = false.
Proof.
  unfold flt. rewrite leb_spec, ltb_spec. unfold SFleb, SFltb.
  rewrite (SFcompare_antisym (Prim2SF x) (Prim2SF y)).
  destruct (SFcompare (Prim2SF x) (Prim2SF y)) as [[| |]|]; cbn; congruence.
Qed.

Lemma flt_fle (x y : float) : flt x y -> fle x y.
Proof.
  unfold flt, fle. rewrite leb_spec, ltb_spec. unfold SFleb, SFltb.
  destruct (SFcompare (Prim2SF x) (Prim2SF y)) as [[| |]|]; congruence.
Qed.

Lemma nan_leb_l (x y : float) : nanb x = true -> (x <=? y)%float = false.
Proof.
  unfold nanb. rewrite leb_spec. destruct (Prim2SF x); try discriminate. reflexivity.
Qed.

Lemma nan_leb_r (x y : float) : nanb y = true -> (x <=? y)%float = false.
Proof.
  unfold nanb. rewrite leb_spec.
  destruct (Prim2SF y); try discriminate. destruct (Prim2SF x); reflexivity.
Qed.

Lemma leb_infinity (x : float) : nanb x = false -> (x <=? infinity)%float = true.
Proof.
  unfold nanb. rewrite leb_spec.
  assert (H : Prim2SF infinity = S754_infinity false) by (vm_compute; reflexivity).
  rewrite H. destruct (Prim2SF x) as [s|[]| |[] m e]; try discriminate; reflexivity.
Qed.

Lemma flt_SFval (x y : float) :
  nnf x -> nnf y -> (flt x y <-> SFval (Prim2SF x) < SFval (Prim2SF y)).
Proof.
  intros Hx Hy. split.
  - intros H. pose proof (ltb_leb_false _ _ H) as Hf.
    destruct (Z.lt_ge_cases (SFval (Prim2SF x)) (SFval (Prim2SF y))) as [|Hge]; [assumption|].
    apply SFleb_nnf in Hge; try assumption. apply fle_SF in Hge. unfold fle in Hge. congruence.
  - intros H. apply leb_false_ltb.
    + unfold nnf in Hy. unfold nanb.
      apply nnfb_inv in Hy as [[s Hs]|(m & e & Hs & _)]; rewrite Hs; reflexivity.
    + unfold nnf in Hx. unfold nanb.
      apply nnfb_inv in Hx as [[s Hs]|(m & e & Hs & _)]; rewrite Hs; reflexivity.
    + destruct (y <=? x)%float eqn:Hle; [|reflexivity].
      apply fle_SF, SFleb_nnf in Hle; try assumption. lia.
Qed.

Lemma fle_SFval (x y : float) :
  nnf x -> nnf y -> (fle x y <-> SFval (Prim2SF x) <= SFval (Prim2SF y)).
Proof. intros Hx Hy. rewrite fle_SF. apply SFleb_nnf; assumption. Qed.

Lemma nnf_between_lt (lo v hi : float) :
  nnf lo -> nnf hi -> flt lo v -> flt v hi -> nnf v.
Proof. intros Hlo Hhi H1 H2. apply (nnf_between lo v hi); auto using flt_fle. Qed.

(** ** Further properties of [classify_pm25] *)

(** The estimate of a classification, when it has one. *)
Definition est_of (d : pydict) : option Z :=
  match d !! "sl_aqi_est" with
  | Some (PyInt z) => Some z
  | _ => None
  end.

Lemma est_of_band_result (b : breakpoint) (est : Z) : est_of (band_result b est) = Some est.
Proof. unfold est_of. rewrite band_result_est. reflexivity. Qed.

Lemma est_of_unknown : est_of unknown = None.
Proof. reflexivity. Qed.

(** What [classify_pm25] returns on a float: the unknown result when no band
    contains the float, and otherwise the result of the band containing it,
    with an estimate inside the band's AQI interval. *)
Lemma classify_float_sound (v : float) (d : pydict) :
  classify_pm25 (PyFloat v) = Ok d ->
  ((forall b, In b BREAKPOINTS -> in_band b v = false) /\ d = unknown) \/
  (exists b est,
      In b BREAKPOINTS /\ in_band b v = true /\ d = band_result b est /\
      aqi_lo b <= est <= aqi_hi b).
Proof.
  intros Hd. destruct (in_some_band_dec v) as [(b & Hb & Hin)|Hnone].
  - right. destruct (table_regular_or_top b Hb) as [Hreg| ->].
    + destruct (classify_regular_ok b v Hb Hreg Hin) as (est & Hc & Hest).
      exists b, est. repeat split; try assumption; try lia. congruence.
    + rewrite (classify_top_band v Hin) in Hd.
      destruct (finiteb (top_product v)); [|discriminate].
      exists top_band, 301. injection Hd as <-.
      repeat split; try assumption; cbn; lia.
  - left. split; [assumption|]. rewrite (classify_no_band v Hnone) in Hd. congruence.
Qed.

Lemma table_aqi_bounds (b : breakpoint) :
  In b BREAKPOINTS -> 0 <= aqi_lo b /\ aqi_hi b <= 500.
Proof.
  cbn [In BREAKPOINTS]. intros [<-|[<-|[<-|[<-|[<-|[<-|[]]]]]]]; cbn; lia.
Qed.

(** X1.  Every result [classify_pm25] returns, whatever the input, is the unknown
    result or the result of a band of the table that contains the input's
    float value, with an integer estimate inside the band's AQI interval,
    hence between 0 and 500. *)
Theorem classify_pm25_result_sound (x : pyval) (d : pydict) :
  classify_pm25 x = Ok d ->
  d = unknown \/
  (exists f b est,
      py_float x = Ok f /\ In b BREAKPOINTS /\ in_band b f = true /\
      d = band_result b est /\ aqi_lo b <= est <= aqi_hi b /\ 0 <= est <= 500).
Proof.
  intros Hd.
  assert (Hx : x = PyNone \/ exists f, py_float x = Ok f /\ classify_pm25 (PyFloat f) = Ok d).
  { unfold classify_pm25 in Hd. destruct x; auto; right;
      destruct (py_float _) as [f0|e] eqn:Hf; try discriminate; exists f0; auto. }
  destruct Hx as [->|(f & Hf & Hc)].
  - left. change (Ok unknown = Ok d) in Hd. congruence.
  - destruct (classify_float_sound f d Hc) as [[_ ->]|(b & est & Hb & Hin & -> & Hest)];
      [left; reflexivity|right].
    exists f, b, est. pose proof (table_aqi_bounds b Hb).
    repeat split; try assumption; lia.
Qed.

Lemma classify_pm25_result_sound_witness :
  classify_pm25 (PyStr "12.5") =
    Ok (band_result (Breakpoint 0.0 25.0 0 50 "Good") 25) /\
  (band_result (Breakpoint 0.0 25.0 0 50 "Good") 25 = unknown \/
   (exists f b est,
       py_float (PyStr "12.5") = Ok f /\ In b BREAKPOINTS /\ in_band b f = true /\
       band_result (Breakpoint 0.0 25.0 0 50 "Good") 25 = band_result b est /\
       aqi_lo b <= est <= aqi_hi b /\ 0 <= est <= 500)).
Proof.
  assert (H : classify_pm25 (PyStr "12.5") =
              Ok (band_result (Breakpoint 0.0 25.0 0 50 "Good") 25))
    by (vm_compute; reflexivity).
  split; [exact H|]. exact (classify_pm25_result_sound _ _ H).
Defined.

Lemma classic_pyval_none (x : pyval) : x = PyNone \/ x <> PyNone.
Proof. destruct x; auto; right; discriminate. Qed.

(** *** The threshold of the overflow in the top band *)

(** The smallest float [v] for which [(v - 250.1) * 199] is infinite, about
    9.03e305, and the float just below it. *)
Definition overflow_threshold : float := 0x1.49539e3b2d067p+1016.

Definition below_threshold : float := 0x1.49539e3b2d066p+1016.

Lemma top_product_finite_below (v : float) :
  in_band top_band v = true -> fle v below_threshold -> finiteb (top_product v) = true.
Proof.
  intros [Hlo _]%in_band_inv Hv. apply nnfb_finiteb.
  assert (Nlo : nnf (pm_lo top_band)) by (vm_compute; reflexivity).
  assert (Nh : nnf below_threshold) by (vm_compute; reflexivity).
  assert (Nv : nnf v) by (apply (nnf_between (pm_lo top_band) v below_threshold); assumption).
  assert (O : ord3 v v below_threshold).
  { repeat split; try assumption. apply fle_refl; assumption. }
  assert (O1 : ord3 (v - pm_lo top_band) (v - pm_lo top_band) (below_threshold - pm_lo top_band))
    by (apply ord3_sub; try assumption; vm_compute; reflexivity).
  pose proof (ord3_mul (of_Z (aqi_hi top_band - aqi_lo top_band)) _ _ _
                ltac:(vm_compute; reflexivity) O1 ltac:(vm_compute; reflexivity)) as O2.
  destruct O2 as (H & _). exact H.
Qed.

(** No float lies strictly between the two. *)
Lemma threshold_cases (v : float) :
  nnf v -> fle overflow_threshold v \/ fle v below_threshold.
Proof.
  intros Nv.
  assert (NT : nnf overflow_threshold) by (vm_compute; reflexivity).
  assert (NP : nnf below_threshold) by (vm_compute; reflexivity).
  rewrite !fle_SFval by assumption.
  assert (HT : Prim2SF overflow_threshold = S754_finite false 5793575400034407 964)
    by (vm_compute; reflexivity).
  assert (HP : Prim2SF below_threshold = S754_finite false 5793575400034406 964)
    by (vm_compute; reflexivity).
  assert (VT : valid_binary (S754_finite false 5793575400034407 964) = true)
    by (vm_compute; reflexivity).
  assert (VP : valid_binary (S754_finite false 5793575400034406 964) = true)
    by (vm_compute; reflexivity).
  rewrite HT, HP. unfold nnf in Nv.
  apply nnfb_inv in Nv as [[s ->]|(m & e & -> & Hv)].
  - right. cbn [SFval]. pose proof (pow2_pos (964 + 1074)). lia.
  - cbn [SFval]. destruct (Z.lt_trichotomy e 964) as [Hlt|[->|Hgt]].
    + right. pose proof (SFval_lt_exp _ _ _ _ Hv VP Hlt). lia.
    + pose proof (pow2_pos (964 + 1074) ltac:(lia)) as Hpow.
      destruct (Z.le_gt_cases 5793575400034407 (Z.pos m)); [left|right]; nia.
    + left. pose proof (SFval_lt_exp _ _ _ _ VT Hv Hgt). lia.
Qed.

Lemma SFsub_below (x c : spec_float) :
  nnfb x = true -> nnfb c = true -> SFleb c x = true ->
  valid_binary (SFsub prec emax x c) = true ->
  nnfb (SFsub prec emax x c) = true.
Proof.
  intros Hx Hc Hcx Hval. apply SFleb_nnf in Hcx; try assumption.
  pose proof (SFval_nonneg _ Hc) as Hc0.
  pose proof (is_rnd_sub x c Hx Hc Hcx) as Rs.
  pose proof (is_rnd_nnf x 1 1074 ltac:(lia) Hx) as Rx.
  rewrite Z.sub_diag, Z.mul_1_l, Z.mul_1_r in Rx.
  apply (nnfb_below _ x); try assumption.
  - refine (is_rnd_nni _ 1 _ _ _ Rs). lia.
  - refine (is_rnd_mono _ _ 1 1074 _ _ _ _ Rs Rx); lia.
Qed.

Lemma top_product_overflow (v : float) :
  fle overflow_threshold v -> finiteb (top_product v) = false.
Proof.
  intros Hv%fle_SF.
  assert (HT : Prim2SF overflow_threshold = S754_finite false 5793575400034407 964)
    by (vm_compute; reflexivity).
  assert (Hc : Prim2SF (pm_lo top_band) = S754_finite false 8799611459416883 (-45))
    by (vm_compute; reflexivity).
  assert (Hd : Prim2SF (of_Z (aqi_hi top_band - aqi_lo top_band))
               = S754_finite false 7001690045677568 (-45))
    by (vm_compute; reflexivity).
  unfold finiteb, top_product. rewrite mul_spec, sub_spec, Hc, Hd.
  pose proof (Prim2SF_valid (v - pm_lo top_band)) as Hval. rewrite sub_spec, Hc in Hval.
  pose proof (Prim2SF_valid v) as Hvv.
  rewrite HT in Hv. destruct (Prim2SF v) as [s|[]| |[] m e] eqn:Ev; try discriminate Hv.
  - reflexivity.
  - set (c := S754_finite false 8799611459416883 (-45)) in *.
    set (d := S754_finite false 7001690045677568 (-45)) in *.
    set (t := S754_finite false 5793575400034407 964) in *.
    set (x := S754_finite false m e) in *.
    assert (Nc : nnfb c = true) by (vm_compute; reflexivity).
    assert (Nd : nnfb d = true) by (vm_compute; reflexivity).
    assert (Nt : nnfb t = true) by (vm_compute; reflexivity).
    assert (Nx : nnfb x = true) by (unfold nnfb; rewrite Hvv; reflexivity).
    assert (Hct : SFleb c t = true) by (vm_compute; reflexivity).
    assert (Hcx : SFleb c x = true).
    { apply SFleb_nnf in Hct, Hv; try assumption. apply SFleb_nnf; try assumption. lia. }
    destruct (SFsub_mono c t x Nc Nt Nx Hct Hv) as (Hle & _ & _).
    assert (Nst : nnfb (SFsub prec emax t c) = true) by (vm_compute; reflexivity).
    assert (Nsx : nnfb (SFsub prec emax x c) = true) by (apply SFsub_below; assumption).
    destruct (SFmul_mono d _ _ Nd Nst Nsx Hle) as (Hm & _ & Hn).
    assert (Hinf : SFmul prec emax (SFsub prec emax t c) d = S754_infinity false)
      by (vm_compute; reflexivity).
    rewrite Hinf in Hm. unfold SF64mul, SF64sub.
    destruct (SFmul prec emax (SFsub prec emax x c) d) as [s'|[]| |[] m' e'];
      try discriminate Hm; try discriminate Hn; reflexivity.
Qed.

Lemma in_band_top_nnf_or_inf (v : float) :
  in_band top_band v = true -> nnf v \/ Prim2SF v = S754_infinity false.
Proof.
  intros [Hlo _]%in_band_inv. apply fle_SF in Hlo.
  assert (Hc : Prim2SF (pm_lo top_band) = S754_finite false 8799611459416883 (-45))
    by (vm_compute; reflexivity).
  rewrite Hc in Hlo. pose proof (Prim2SF_valid v) as Hvv. unfold nnf, nnfb.
  destruct (Prim2SF v) as [s|[]| |[] m e]; try discriminate Hlo; rewrite ?Hvv; auto.
Qed.

Lemma in_band_top_threshold (v : float) :
  fle overflow_threshold v -> in_band top_band v = true.
Proof.
  intros Hv. pose proof Hv as Hv'. apply fle_SF in Hv'.
  assert (HT : Prim2SF overflow_threshold = S754_finite false 5793575400034407 964)
    by (vm_compute; reflexivity).
  assert (Hc : Prim2SF (pm_lo top_band) = S754_finite false 8799611459416883 (-45))
    by (vm_compute; reflexivity).
  unfold in_band. cbn [pm_lo pm_hi top_band]. apply andb_true_iff. split.
  - rewrite leb_spec. change (Prim2SF 250.1) with (Prim2SF (pm_lo top_band)). rewrite Hc.
    rewrite HT in Hv'.
    destruct (Prim2SF v) as [s|[]| |[] m e] eqn:Ev; try discriminate Hv'; try reflexivity.
    apply SFleb_finite in Hv'. apply SFleb_finite. lia.
  - apply leb_infinity. unfold nanb. rewrite HT in Hv'.
    destruct (Prim2SF v); try reflexivity. discriminate Hv'.
Qed.

(** On a float, [classify_pm25] raises exactly from the threshold on, the
    infinity included; below it, and on NaN, it returns. *)
Lemma classify_pm25_raises_threshold (v : float) :
  raises (classify_pm25 (PyFloat v)) = true <-> fle overflow_threshold v.
Proof.
  rewrite classify_pm25_raises_iff. split.
  - intros [Hin Hf]. destruct (in_band_top_nnf_or_inf v Hin) as [Nv|Hinf].
    + destruct (threshold_cases v Nv) as [H|H]; [exact H|].
      rewrite (top_product_finite_below v Hin H) in Hf. discriminate.
    + apply fle_SF. rewrite Hinf. vm_compute. reflexivity.
  - intros Hv. split; [apply in_band_top_threshold|apply top_product_overflow]; exact Hv.
Qed.

Lemma below_threshold_le (v : float) :
  in_band top_band v = true -> (v <? overflow_threshold)%float = true ->
  fle v below_threshold.
Proof.
  intros Hin Hlt. destruct (in_band_top_nnf_or_inf v Hin) as [Nv|Hinf].
  - destruct (threshold_cases v Nv) as [H|H]; [|exact H].
    unfold fle in H. rewrite (ltb_leb_false overflow_threshold v Hlt) in H. discriminate H.
  - rewrite ltb_spec, Hinf in Hlt. vm_compute in Hlt. discriminate Hlt.
Qed.

(** A value of a band, below the threshold, is classified into the band, with
    an estimate inside the band's AQI interval. *)
Lemma classify_in_band_below (b : breakpoint) (v : float) :
  In b BREAKPOINTS -> in_band b v = true -> (v <? overflow_threshold)%float = true ->
  exists est,
    classify_pm25 (PyFloat v) = Ok (band_result b est) /\
    aqi_lo b <= est <= aqi_hi b.
Proof.
  intros Hb Hin Hv. destruct (table_regular_or_top b Hb) as [Hreg| ->].
  - apply classify_regular_ok; assumption.
  - exists 301. rewrite (classify_top_band v Hin).
    rewrite (top_product_finite_below v Hin (below_threshold_le v Hin Hv)).
    split; [reflexivity|]. cbn. lia.
Qed.

(** C6.  [classify_pm25(300.0)] is "Hazardous" with estimate 301, AQI range
    [301, 500] and pm25 range [250.1, null], the infinite upper bound being
    written as null.  The finite values of the top band do not all
    interpolate to the band's [aqi_lo]: [1e308] is finite and lies in the
    band, and the call raises.  Every result returned for a value of the band
    has the estimate [aqi_lo]; one is returned for every value of the band
    below the threshold of the overflow, and from the threshold on every
    finite value lies in the band and makes the call raise. *)
Theorem classify_pm25_top_band_300 :
  classify_pm25 (PyFloat 300.0) =
    Ok {[ "sl_aqi_label" := PyStr "Hazardous"; "sl_aqi_est" := PyInt 301;
          "sl_aqi_range" := PyList [PyInt 301; PyInt 500];
          "pm25_range" := PyList [PyFloat 250.1; PyNone] ]} /\
  band_result top_band 301 !! "pm25_range" = Some (PyList [PyFloat 250.1; PyNone]) /\
  (finiteb 1e308 = true /\ in_band top_band 1e308 = true /\
   classify_pm25 (PyFloat 1e308) = Raise ValueError) /\
  (forall (v : float) (r : pydict),
      in_band top_band v = true -> classify_pm25 (PyFloat v) = Ok r ->
      r = band_result top_band (aqi_lo top_band)) /\
  (forall v : float,
      in_band top_band v = true -> (v <? overflow_threshold)%float = true ->
      classify_pm25 (PyFloat v) = Ok (band_result top_band (aqi_lo top_band))) /\
  (forall v : float,
      finiteb v = true -> (overflow_threshold <=? v)%float = true ->
      in_band top_band v = true /\ classify_pm25 (PyFloat v) = Raise ValueError).
Proof.
  split; [vm_compute; reflexivity|]. split; [vm_compute; reflexivity|].
  split; [repeat split; vm_compute; reflexivity|]. split; [|split].
  - intros v r Hin. rewrite (classify_top_band v Hin).
    destruct (finiteb (top_product v)); [|discriminate]. intros [= <-]. reflexivity.
  - intros v Hin Hv. rewrite (classify_top_band v Hin).
    rewrite (top_product_finite_below v Hin (below_threshold_le v Hin Hv)). reflexivity.
  - intros v _ Hv. pose proof (in_band_top_threshold v Hv) as Hin.
    split; [exact Hin|].
    rewrite (classify_top_band v Hin), (top_product_overflow v Hv). reflexivity.
Qed.

(** X2.  [classify_pm25] raises in two cases only: [float] rejects the input, or
    the input's float value is at least the threshold of about 9.03e305,
    from which on the product of the top band's interpolation overflows. *)
Theorem classify_pm25_raises_cases (x : pyval) :
  raises (classify_pm25 x) = true <->
  x <> PyNone /\
  (raises (py_float x) = true \/
   exists f, py_float x = Ok f /\ fle overflow_threshold f).
Proof.
  destruct (classic_pyval_none x) as [->|Hx].
  - cbn. split; [discriminate|]. intros [H _]. congruence.
  - assert (Hc : classify_pm25 x = (pm ← py_float x; scan pm BREAKPOINTS))
      by (destruct x; try reflexivity; congruence).
    rewrite Hc. destruct (py_float x) as [f|e] eqn:Hf.
    + change (pm ← Ok f; scan pm BREAKPOINTS) with (classify_pm25 (PyFloat f)).
      rewrite classify_pm25_raises_threshold. split.
      * intros H. split; [assumption|]. right. exists f. auto.
      * intros [_ [H|(f' & [= <-] & H)]]; [discriminate|auto].
    + split; [auto|reflexivity].
Qed.

(** *** The floats classified as unknown *)

(** The open intervals between the upper bound of a band and the lower bound
    of the next one. *)
Definition gaps : list (float * float) :=
  zip_with (fun b b' => (pm_hi b, pm_lo b')) BREAKPOINTS (tail BREAKPOINTS).

Definition in_gap (v : float) (g : float * float) : Prop := flt (fst g) v /\ flt v (snd g).

Lemma gaps_eq :
  gaps = [ (25.0, 25.1); (50.0, 50.1); (75.0, 75.1); (150.0, 150.1); (250.0, 250.1) ]%float.
Proof. reflexivity. Qed.

Lemma nnf_not_nan (x : float) : nnf x -> nanb x = false.
Proof.
  unfold nnf, nanb. intros [[s ->]|(m & e & -> & _)]%nnfb_inv; reflexivity.
Qed.

Lemma gap_excludes_above (l v : float) (b : breakpoint) :
  nnf (pm_lo b) -> nnf l -> nnf v -> flt v l -> fle l (pm_lo b) -> in_band b v = false.
Proof.
  intros Nlo Nl Nv Hv Hl. unfold in_band.
  apply flt_SFval in Hv; try assumption. apply fle_SFval in Hl; try assumption.
  destruct (pm_lo b <=? v)%float eqn:Hc; [|reflexivity].
  apply fle_SFval in Hc; try assumption. lia.
Qed.

Lemma gap_excludes_below (h v : float) (b : breakpoint) :
  nnf (pm_hi b) -> nnf h -> nnf v -> flt h v -> fle (pm_hi b) h -> in_band b v = false.
Proof.
  intros Nhi Nh Nv Hv Hh. unfold in_band.
  apply flt_SFval in Hv; try assumption. apply fle_SFval in Hh; try assumption.
  destruct (v <=? pm_hi b)%float eqn:Hc; [|apply andb_false_r].
  apply fle_SFval in Hc; try assumption. lia.
Qed.

Lemma gap_in_no_band (v : float) (g : float * float) (b : breakpoint) :
  In g gaps -> in_gap v g -> In b BREAKPOINTS -> in_band b v = false.
Proof.
  rewrite gaps_eq. unfold in_gap. cbn [In BREAKPOINTS].
  intros [<-|[<-|[<-|[<-|[<-|[]]]]]] [Hh Hl]; cbn [fst snd] in Hh, Hl.
  all: match goal with
       | Hh : flt ?h ?x, Hl : flt ?x ?l |- _ =>
           assert (Nv : nnf x)
             by (apply (nnf_between_lt h x l); try assumption; vm_compute; reflexivity)
       end.
  all: intros [<-|[<-|[<-|[<-|[<-|[<-|[]]]]]]].
  all: first
    [ eapply gap_excludes_above; [| |exact Nv|exact Hl|]; vm_compute; reflexivity
    | eapply gap_excludes_below; [| |exact Nv|exact Hh|]; vm_compute; reflexivity ].
Qed.

Lemma nan_in_no_band (v : float) (b : breakpoint) : nanb v = true -> in_band b v = false.
Proof. intros Hn. unfold in_band. rewrite (nan_leb_r _ v Hn). reflexivity. Qed.

Lemma band_result_not_unknown (b : breakpoint) (est : Z) : band_result b est <> unknown.
Proof.
  intros H. pose proof (est_of_band_result b est) as He. rewrite H in He. discriminate He.
Qed.

(** A float that lies in no band is NaN, is below [0.0], or lies strictly
    inside one of the gaps. *)
Lemma no_band_cases (v : float) :
  (forall b, In b BREAKPOINTS -> in_band b v = false) ->
  nanb v = true \/ flt v 0 \/ Exists (in_gap v) gaps.
Proof.
  intros Hnone.
  destruct (nanb v) eqn:Hn; [left; reflexivity|right].
  assert (Hlt : forall c, nanb c = false -> (c <=? v)%float = false -> flt v c)
    by (intros c Hcn H; apply leb_false_ltb; assumption).
  assert (Hgt : forall c, nanb c = false -> (v <=? c)%float = false -> flt c v)
    by (intros c Hcn H; apply leb_false_ltb; assumption).
  rewrite gaps_eq. unfold in_gap.
  repeat match goal with
  | |- flt v 0 \/ _ =>
      let H := fresh "H" in
      pose proof (Hnone (Breakpoint 0.0 25.0 0 50 "Good") ltac:(cbn; tauto)) as H;
      unfold in_band in H; cbn [pm_lo pm_hi] in H;
      apply andb_false_iff in H as [H|H];
      [left; apply Hlt; [reflexivity|exact H]|right; apply Hgt in H; [|reflexivity]]
  end.
  assert (H2 : in_band (Breakpoint 25.1 50.0 51 100 "Moderate") v = false) by (apply Hnone; cbn; tauto).
  assert (H3 : in_band (Breakpoint 50.1 75.0 101 150 "Unhealthy for Sensitive Groups") v = false) by (apply Hnone; cbn; tauto).
  assert (H4 : in_band (Breakpoint 75.1 150.0 151 200 "Unhealthy") v = false) by (apply Hnone; cbn; tauto).
  assert (H5 : in_band (Breakpoint 150.1 250.0 201 300 "Very Unhealthy") v = false) by (apply Hnone; cbn; tauto).
  assert (H6 : in_band (Breakpoint 250.1 infinity 301 500 "Hazardous") v = false) by (apply Hnone; cbn; tauto).
  unfold in_band in H2, H3, H4, H5, H6. cbn [pm_lo pm_hi] in H2, H3, H4, H5, H6.
  apply andb_false_iff in H2 as [H2|H2];
    [apply Hlt in H2; [|reflexivity]; apply Exists_cons_hd; cbn [fst snd]; auto|
     apply Hgt in H2; [|reflexivity]; apply Exists_cons_tl].
  apply andb_false_iff in H3 as [H3|H3];
    [apply Hlt in H3; [|reflexivity]; apply Exists_cons_hd; cbn [fst snd]; auto|
     apply Hgt in H3; [|reflexivity]; apply Exists_cons_tl].
  apply andb_false_iff in H4 as [H4|H4];
    [apply Hlt in H4; [|reflexivity]; apply Exists_cons_hd; cbn [fst snd]; auto|
     apply Hgt in H4; [|reflexivity]; apply Exists_cons_tl].
  apply andb_false_iff in H5 as [H5|H5];
    [apply Hlt in H5; [|reflexivity]; apply Exists_cons_hd; cbn [fst snd]; auto|
     apply Hgt in H5; [|reflexivity]; apply Exists_cons_tl].
  apply andb_false_iff in H6 as [H6|H6];
    [apply Hlt in H6; [|reflexivity]; apply Exists_cons_hd; cbn [fst snd]; auto|].
  rewrite (leb_infinity v Hn) in H6. discriminate H6.
Qed.

Lemma gaps_inhabited : Forall (fun g => exists v, in_gap v g) gaps.
Proof.
  rewrite gaps_eq. unfold in_gap, flt.
  repeat constructor; cbn [fst snd];
    [exists 25.05%float|exists 50.05%float|exists 75.05%float|exists 150.05%float
    |exists 250.05%float]; split; reflexivity.
Qed.

(** C3, amended.  The bands of the table do not overlap, but they are not
    contiguous: between the upper bound of each band and the lower bound of
    the next lies a gap, the five open intervals (25.0, 25.1), (50.0, 50.1),
    (75.0, 75.1), (150.0, 150.1) and (250.0, 250.1), each of which holds a
    float.  A value from [0.0] up to the threshold of the overflow that lies
    in none of the gaps lies in the closed interval of exactly one band, and
    is classified into that band with the band's label and an estimate
    within the band's AQI interval; a value inside a gap lies in no band and
    is classified as unknown. *)
Theorem classify_pm25_band_or_gap :
  gaps = [ (25.0, 25.1); (50.0, 50.1); (75.0, 75.1); (150.0, 150.1); (250.0, 250.1) ]%float /\
  Forall (fun g => exists v, in_gap v g) gaps /\
  (forall v : float,
      (0 <=? v)%float = true -> (v <? overflow_threshold)%float = true ->
      (~ Exists (in_gap v) gaps /\
       exists (b : breakpoint) (est : Z),
         In b BREAKPOINTS /\ in_band b v = true /\
         classify_pm25 (PyFloat v) = Ok (band_result b est) /\
         band_result b est !! "sl_aqi_label" = Some (PyStr (label b)) /\
         aqi_lo b <= est <= aqi_hi b /\
         (forall b', In b' BREAKPOINTS -> in_band b' v = true -> b' = b)) \/
      (Exists (in_gap v) gaps /\
       (forall b, In b BREAKPOINTS -> in_band b v = false) /\
       classify_pm25 (PyFloat v) = Ok unknown)).
Proof.
  split; [exact gaps_eq|]. split; [exact gaps_inhabited|].
  intros v H0 Hv. destruct (in_some_band_dec v) as [(b & Hb & Hin)|Hnone].
  - left. split.
    + intros (g & Hg & Hgap)%List.Exists_exists.
      rewrite (gap_in_no_band v g b Hg Hgap Hb) in Hin. discriminate Hin.
    + destruct (classify_in_band_below b v Hb Hin Hv) as (est & Hc & Hest).
      exists b, est. split; [assumption|]. split; [assumption|]. split; [assumption|].
      split; [apply band_result_label|]. split; [lia|].
      intros b' Hb' Hin'. apply (bands_disjoint b' b v); assumption.
  - right. split; [|split; [assumption|apply classify_no_band; assumption]].
    destruct (no_band_cases v Hnone) as [Hn|[Hneg|Hgap]]; [| |exact Hgap].
    + rewrite (nan_leb_r 0 v Hn) in H0. discriminate H0.
    + rewrite (ltb_leb_false 0 v Hneg) in H0. discriminate H0.
Qed.

Lemma classify_pm25_band_or_gap_witness :
  ((0 <=? 30)%float = true /\ (30 <? overflow_threshold)%float = true /\
   ~ Exists (in_gap 30) gaps /\
   exists est,
     classify_pm25 (PyFloat 30) = Ok (band_result (Breakpoint 25.1 50.0 51 100 "Moderate") est) /\
     51 <= est <= 100) /\
  ((0 <=? 25.05)%float = true /\ (25.05 <? overflow_threshold)%float = true /\
   Exists (in_gap 25.05) gaps /\
   classify_pm25 (PyFloat 25.05) = Ok unknown).
Proof.
  assert (H1 : (0 <=? 30)%float = true) by reflexivity.
  assert (H2 : (30 <? overflow_threshold)%float = true) by reflexivity.
  assert (H3 : (0 <=? 25.05)%float = true) by reflexivity.
  assert (H4 : (25.05 <? overflow_threshold)%float = true) by reflexivity.
  assert (Hm : in_band (Breakpoint 25.1 50.0 51 100 "Moderate") 30 = true) by reflexivity.
  assert (Hb : In (Breakpoint 25.1 50.0 51 100 "Moderate") BREAKPOINTS) by (cbn; tauto).
  assert (Hu : classify_pm25 (PyFloat 25.05) = Ok unknown) by (vm_compute; reflexivity).
  split.
  - split; [exact H1|]. split; [exact H2|].
    destruct (proj2 (proj2 classify_pm25_band_or_gap) 30%float H1 H2)
      as [(Hng & b & est & _ & _ & Hc & _ & Hest & Huniq)|(_ & Hnone & _)].
    + split; [exact Hng|]. exists est. rewrite <- (Huniq _ Hb Hm) in Hc, Hest.
      split; [exact Hc|exact Hest].
    + rewrite (Hnone _ Hb) in Hm. discriminate Hm.
  - split; [exact H3|]. split; [exact H4|].
    destruct (proj2 (proj2 classify_pm25_band_or_gap) 25.05%float H3 H4)
      as [(_ & b & est & _ & _ & Hc & _)|(Hg & _ & Hc)].
    + destruct (band_result_not_unknown b est). congruence.
    + split; [exact Hg|exact Hc].
Defined.

(** X3.  [classify_pm25] classifies a float as unknown exactly when it is NaN, is
    below [0.0], or lies strictly inside one of the five gaps of the table. *)
Theorem classify_pm25_unknown_iff (v : float) :
  classify_pm25 (PyFloat v) = Ok unknown <->
  nanb v = true \/ flt v 0 \/ Exists (in_gap v) gaps.
Proof.
  split.
  - intros Hc. destruct (classify_float_sound v unknown Hc)
      as [[Hnone _]|(b & est & _ & _ & Hd & _)];
      [|symmetry in Hd; destruct (band_result_not_unknown _ _ Hd)].
    apply no_band_cases. exact Hnone.
  - intros [Hn|[Hneg|Hgap]].
    + apply classify_no_band. intros b _. apply nan_in_no_band. exact Hn.
    + apply classify_negative. exact Hneg.
    + apply classify_no_band. intros b Hb.
      apply List.Exists_exists in Hgap as (g & Hg & Hin).
      apply (gap_in_no_band v g b); assumption.
Qed.

(** *** The estimate across the bands *)

Lemma bands_order_contra (b b' : breakpoint) (u v : float) :
  nnf (pm_lo b) -> nnf (pm_lo b') -> nnf (pm_hi b') ->
  (pm_lo b <=? pm_hi b')%float = false ->
  in_band b u = true -> in_band b' v = true -> fle u v -> False.
Proof.
  intros Nlo Nlo' Nhi' Hlt [Hlu _]%in_band_inv [Hlv Hvh]%in_band_inv Huv.
  assert (Nv : nnf v) by (apply (nnf_between (pm_lo b') v (pm_hi b')); assumption).
  assert (Nu : nnf u) by (apply (nnf_between (pm_lo b) u v); assumption).
  pose proof (fle_trans _ _ _ Nlo Nu Nv Hlu Huv) as H1.
  pose proof (fle_trans _ _ _ Nlo Nv Nhi' H1 Hvh) as H2.
  unfold fle in H2. congruence.
Qed.

Lemma band_result_est_inj (b : breakpoint) (z z' : Z) :
  band_result b z = band_result b z' -> z = z'.
Proof.
  intros H. pose proof (est_of_band_result b z) as He.
  rewrite H, est_of_band_result in He. congruence.
Qed.

Lemma classify_same_band_monotone (b : breakpoint) (u v : float) (eu ev : Z) :
  In b BREAKPOINTS -> in_band b u = true -> in_band b v = true -> fle u v ->
  classify_pm25 (PyFloat u) = Ok (band_result b eu) ->
  classify_pm25 (PyFloat v) = Ok (band_result b ev) -> eu <= ev.
Proof.
  intros Hb Hu Hv Huv Cu Cv. destruct (table_regular_or_top b Hb) as [Hreg| ->].
  - destruct (classify_regular_band b u v Hb Hreg Hu Hv Huv) as (a & c & Ru & Rv & _ & Hac & _).
    assert (Cu' : band_result b a = band_result b eu) by congruence.
    assert (Cv' : band_result b c = band_result b ev) by congruence.
    apply band_result_est_inj in Cu', Cv'. lia.
  - rewrite (classify_top_band u Hu) in Cu. rewrite (classify_top_band v Hv) in Cv.
    destruct (finiteb (top_product u)); [|discriminate].
    destruct (finiteb (top_product v)); [|discriminate].
    assert (Cu' : band_result top_band 301 = band_result top_band eu) by congruence.
    assert (Cv' : band_result top_band 301 = band_result top_band ev) by congruence.
    apply band_result_est_inj in Cu', Cv'. lia.
Qed.

(** X4.  Of two floats [u <= v] that both receive an estimate, in whatever bands,
    the first receives the smaller one: the estimate never decreases with the
    concentration. *)
Theorem classify_pm25_estimate_monotone (u v : float) (du dv : pydict) (zu zv : Z) :
  (u <=? v)%float = true ->
  classify_pm25 (PyFloat u) = Ok du -> classify_pm25 (PyFloat v) = Ok dv ->
  est_of du = Some zu -> est_of dv = Some zv -> zu <= zv.
Proof.
  intros Huv Cu Cv Eu Ev.
  destruct (classify_float_sound u du Cu) as [[_ ->]|(bu & eu & Hbu & Hinu & -> & Hu)];
    [discriminate Eu|].
  destruct (classify_float_sound v dv Cv) as [[_ ->]|(bv & ev & Hbv & Hinv & -> & Hv)];
    [discriminate Ev|].
  rewrite est_of_band_result in Eu, Ev. injection Eu as <-. injection Ev as <-.
  cbn [In BREAKPOINTS] in Hbu, Hbv.
  destruct Hbu as [<-|[<-|[<-|[<-|[<-|[<-|[]]]]]]];
    destruct Hbv as [<-|[<-|[<-|[<-|[<-|[<-|[]]]]]]];
    first
      [ solve [cbn [aqi_lo aqi_hi] in Hu, Hv; lia]
      | solve [exfalso; eapply bands_order_contra;
               [| | | |exact Hinu|exact Hinv|exact Huv]; vm_compute; reflexivity]
      | solve [eapply classify_same_band_monotone;
               [|exact Hinu|exact Hinv|exact Huv|exact Cu|exact Cv]; cbn; tauto] ].
Qed.

Lemma classify_pm25_estimate_monotone_witness :
  (10 <=? 60)%float = true /\
  classify_pm25 (PyFloat 10) = Ok (band_result (Breakpoint 0.0 25.0 0 50 "Good") 20) /\
  classify_pm25 (PyFloat 60) =
    Ok (band_result (Breakpoint 50.1 75.0 101 150 "Unhealthy for Sensitive Groups") 120) /\
  20 <= 120.
Proof.
  assert (H1 : classify_pm25 (PyFloat 10) = Ok (band_result (Breakpoint 0.0 25.0 0 50 "Good") 20))
    by (vm_compute; reflexivity).
  assert (H2 : classify_pm25 (PyFloat 60) =
               Ok (band_result (Breakpoint 50.1 75.0 101 150 "Unhealthy for Sensitive Groups") 120))
    by (vm_compute; reflexivity).
  split; [reflexivity|]. split; [exact H1|]. split; [exact H2|].
  exact (classify_pm25_estimate_monotone 10 60 _ _ 20 120 eq_refl H1 H2 eq_refl eq_refl).
Defined.

(** ** The enrichment of a reading *)

(** The keys the loop of [main] writes into the copy of a reading. *)
Definition enrichment_keys : list string :=
  ["timestamp_iso_utc"; "sl_aqi_label"; "sl_aqi_est"; "sl_aqi_range"; "pm25_band_range"].

Lemma enrich_item_inv (item e : pydict) :
  enrich_item item = Ok e ->
  exists info,
    classify_pm25 (dict_get item "pm25" PyNone) = Ok info /\
    e = <["pm25_band_range" := dict_get info "pm25_range" PyNone]>
          (<["sl_aqi_range" := dict_get info "sl_aqi_range" PyNone]>
             (<["sl_aqi_est" := dict_get info "sl_aqi_est" PyNone]>
                (<["sl_aqi_label" := dict_get info "sl_aqi_label" PyNone]>
                   (<["timestamp_iso_utc" :=
                        of_optional_str (iso_from_ms (dict_get item "timestamp" PyNone))]>
                      item)))).
Proof.
  unfold enrich_item. destruct (classify_pm25 _) as [info|err]; [|discriminate].
  cbn. intros [= <-]. exists info. split; reflexivity.
Qed.

Lemma enrich_item_other_key (item e : pydict) (k : string) :
  enrich_item item = Ok e -> ~ In k enrichment_keys -> e !! k = item !! k.
Proof.
  intros (info & _ & ->)%enrich_item_inv Hk. cbn [In enrichment_keys] in Hk.
  rewrite !lookup_insert_ne by (intros <-; tauto). reflexivity.
Qed.

(** X5.  An enriched reading keeps every field of the reading whose name is not
    one of the five written keys.  Its four classification fields are either
    the label "Unknown" with a null estimate, a null AQI range and a null
    band range, or the label of a band of the table with an integer estimate
    inside the band's AQI interval, that interval, and the band's PM2.5
    bounds, the upper bound of the open band being null. *)
Theorem enrich_item_fields (item e : pydict) :
  enrich_item item = Ok e ->
  (forall k, ~ In k enrichment_keys -> e !! k = item !! k) /\
  ((e !! "sl_aqi_label" = Some (PyStr "Unknown") /\
    e !! "sl_aqi_est" = Some PyNone /\
    e !! "sl_aqi_range" = Some PyNone /\
    e !! "pm25_band_range" = Some PyNone) \/
   (exists b est,
       In b BREAKPOINTS /\ aqi_lo b <= est <= aqi_hi b /\
       e !! "sl_aqi_label" = Some (PyStr (label b)) /\
       e !! "sl_aqi_est" = Some (PyInt est) /\
       e !! "sl_aqi_range" = Some (PyList [PyInt (aqi_lo b); PyInt (aqi_hi b)]) /\
       e !! "pm25_band_range" =
         Some (PyList [PyFloat (pm_lo b);
                       if (pm_hi b =? infinity)%float then PyNone else PyFloat (pm_hi b)]))).
Proof.
  intros He. split; [intros k; apply enrich_item_other_key; exact He|].
  destruct (enrich_item_inv _ _ He) as (info & Hc & ->).
  assert (Hinfo : info = unknown \/
                  exists b est, In b BREAKPOINTS /\ aqi_lo b <= est <= aqi_hi b /\
                                info = band_result b est).
  { destruct (dict_get item "pm25" PyNone) as [|c|z|g|s|l|m];
      try (left; change (Ok unknown = Ok info) in Hc; congruence);
      unfold classify_pm25 in Hc;
      destruct (py_float _) as [f0|err]; try discriminate;
      (destruct (classify_float_sound f0 info Hc) as [[_ ->]|(b & est & Hb & _ & -> & Hest)];
       [left; reflexivity|right; exists b, est; auto]). }
  destruct Hinfo as [->|(b & est & Hb & Hest & ->)].
  - left. repeat split; simplify_map_eq; reflexivity.
  - right. exists b, est. split; [exact Hb|]. split; [exact Hest|].
    unfold dict_get.
    rewrite band_result_label, band_result_est, band_result_aqi_range, band_result_pm25_range.
    repeat split; simplify_map_eq; reflexivity.
Qed.

Definition sample_reading : pydict :=
  {[ "name" := PyStr "Kandy"; "pm25" := PyStr "12.5" ]}.

Definition sample_enriched : pydict :=
  <["pm25_band_range" := PyList [PyFloat 0.0; PyFloat 25.0]]>
    (<["sl_aqi_range" := PyList [PyInt 0; PyInt 50]]>
       (<["sl_aqi_est" := PyInt 25]>
          (<["sl_aqi_label" := PyStr "Good"]>
             (<["timestamp_iso_utc" := PyNone]> sample_reading)))).

Lemma sample_reading_enriched : enrich_item sample_reading = Ok sample_enriched.
Proof. vm_compute. reflexivity. Qed.

Lemma enrich_item_fields_witness :
  enrich_item sample_reading = Ok sample_enriched /\
  (forall k, ~ In k enrichment_keys -> sample_enriched !! k = sample_reading !! k).
Proof.
  split; [exact sample_reading_enriched|].
  exact (proj1 (enrich_item_fields sample_reading sample_enriched sample_reading_enriched)).
Defined.

(** ** Running the enrichment on its own output *)

Lemma enrich_item_idempotent (item e : pydict) :
  enrich_item item = Ok e -> enrich_item e = Ok e.
Proof.
  intros He. destruct (enrich_item_inv _ _ He) as (info & Hc & Hdef).
  assert (Hpm : dict_get e "pm25" PyNone = dict_get item "pm25" PyNone).
  { unfold dict_get. rewrite (enrich_item_other_key item e "pm25" He); [reflexivity|].
    cbn. intuition discriminate. }
  assert (Hts : dict_get e "timestamp" PyNone = dict_get item "timestamp" PyNone).
  { unfold dict_get. rewrite (enrich_item_other_key item e "timestamp" He); [reflexivity|].
    cbn. intuition discriminate. }
  unfold enrich_item. rewrite Hpm, Hts, Hc.
  change (Ok ?a ≫= ?k) with (k a). cbv beta zeta. unfold mret, result_ret. f_equal.
  rewrite (insert_id e "timestamp_iso_utc").
  2:{ rewrite Hdef. rewrite !lookup_insert_ne by discriminate. apply lookup_insert_eq. }
  rewrite (insert_id e "sl_aqi_label").
  2:{ rewrite Hdef. rewrite !lookup_insert_ne by discriminate. apply lookup_insert_eq. }
  rewrite (insert_id e "sl_aqi_est").
  2:{ rewrite Hdef. rewrite !lookup_insert_ne by discriminate. apply lookup_insert_eq. }
  rewrite (insert_id e "sl_aqi_range").
  2:{ rewrite Hdef. rewrite !lookup_insert_ne by discriminate. apply lookup_insert_eq. }
  rewrite (insert_id e "pm25_band_range").
  2:{ rewrite Hdef. apply lookup_insert_eq. }
  reflexivity.
Qed.

Lemma enrich_all_inv (data es : list pydict) :
  enrich_all data = Ok es -> Forall2 (fun item e => enrich_item item = Ok e) data es.
Proof.
  revert es. induction data as [|item data IH]; intros es; cbn.
  - intros [= <-]. constructor.
  - destruct (enrich_item item) as [e|err] eqn:He; [|discriminate]. cbn.
    destruct (enrich_all data) as [es'|err]; [|discriminate]. cbn.
    intros [= <-]. constructor; [exact He|]. apply IH. reflexivity.
Qed.

Lemma enrich_all_fixed (l : list pydict) :
  Forall (fun x => enrich_item x = Ok x) l -> enrich_all l = Ok l.
Proof.
  induction 1 as [|x l Hx _ IH]; [reflexivity|].
  cbn. rewrite Hx. cbn. rewrite IH. reflexivity.
Qed.

Lemma enrich_all_idempotent (data es : list pydict) :
  enrich_all data = Ok es -> Forall (fun x => enrich_item x = Ok x) es.
Proof.
  intros H%enrich_all_inv. induction H as [|item e data es He _ IH]; constructor.
  - eapply enrich_item_idempotent. exact He.
  - exact IH.
Qed.

Lemma sort_stations_sorted_id (repr_other : pyval -> string) (l : list pydict) :
  StronglySorted
    (fun x y => key_order (sort_key repr_other x) (sort_key repr_other y)) l ->
  sort_stations repr_other l = l.
Proof.
  induction 1 as [|x l Hs IH Hx]; [reflexivity|].
  cbn. fold (sort_stations repr_other l). rewrite IH.
  destruct l as [|y l']; [reflexivity|]. cbn [insert_station].
  apply Forall_inv in Hx. apply key_le_spec in Hx. unfold key_le in Hx.
  destruct (key_lt _ _); [discriminate|reflexivity].
Qed.

(** X6.  The document [main] produces is a fixed point: run again on the stations
    of its own output, with the same clock reading, [main] returns the same
    document. *)
Theorem main_output_fixed_point (repr_other : pyval -> string) (fetched_at : string)
    (data : list pydict) (doc : pydict) :
  main repr_other fetched_at data = Ok doc ->
  main repr_other fetched_at (output_stations doc) = Ok doc.
Proof.
  intros Hdoc. destruct (output_stations_main _ _ _ _ Hdoc) as (es & He & Hout).
  rewrite Hout. unfold main in *. rewrite He in Hdoc. cbn in Hdoc.
  assert (Hfix : enrich_all (sort_stations repr_other es) = Ok (sort_stations repr_other es)).
  { apply enrich_all_fixed. rewrite sort_stations_perm.
    eapply enrich_all_idempotent. exact He. }
  rewrite Hfix. cbn.
  rewrite (sort_stations_sorted_id repr_other (sort_stations repr_other es))
    by apply sort_stations_sorted.
  exact Hdoc.
Qed.

Definition sample_document : pydict :=
  {[ "source" := PyStr ENDPOINT;
     "fetched_at_utc" := PyStr "2024-01-01T00:00:00Z";
     "count" := PyInt 1;
     "stations" := PyList [PyDict sample_enriched] ]}.

Lemma sample_document_main :
  main (fun _ => EmptyString) "2024-01-01T00:00:00Z" [sample_reading] = Ok sample_document.
Proof. vm_compute. reflexivity. Qed.

Lemma main_output_fixed_point_witness :
  main (fun _ => EmptyString) "2024-01-01T00:00:00Z" [sample_reading] = Ok sample_document /\
  main (fun _ => EmptyString) "2024-01-01T00:00:00Z" (output_stations sample_document)
    = Ok sample_document.
Proof.
  split; [exact sample_document_main|].
  exact (main_output_fixed_point _ _ _ _ sample_document_main).
Defined.

(** ** The run as a whole *)

Lemma enrich_all_length (data es : list pydict) :
  enrich_all data = Ok es -> length es = length data.
Proof.
  intros H%enrich_all_inv. symmetry. eapply Forall2_length. exact H.
Qed.

(** X7.  The count of the document is the number of readings fetched, and so is
    the number of its stations: no reading is dropped or doubled. *)
Theorem main_count (repr_other : pyval -> string) (fetched_at : string)
    (data : list pydict) (doc : pydict) :
  main repr_other fetched_at data = Ok doc ->
  doc !! "count" = Some (PyInt (Z.of_nat (length data))) /\
  length (output_stations doc) = length data.
Proof.
  intros Hdoc. destruct (output_stations_main _ _ _ _ Hdoc) as (es & He & Hout).
  assert (Hlen : length (sort_stations repr_other es) = length data).
  { rewrite (Permutation_length (sort_stations_perm repr_other es)).
    apply enrich_all_length. exact He. }
  split; [|rewrite Hout; exact Hlen].
  unfold main in Hdoc. rewrite He in Hdoc.
  change (Ok ?a ≫= ?k) with (k a) in Hdoc. cbv beta zeta in Hdoc.
  injection Hdoc as <-. rewrite Hlen.
  rewrite !lookup_insert_ne by discriminate. apply lookup_insert_eq.
Qed.

Lemma main_count_witness :
  main (fun _ => EmptyString) "2024-01-01T00:00:00Z" [sample_reading] = Ok sample_document /\
  sample_document !! "count" = Some (PyInt 1).
Proof.
  split; [exact sample_document_main|].
  exact (proj1 (main_count _ _ _ _ sample_document_main)).
Defined.

(** The PM2.5 field of a reading, as the loop reads it. *)
Definition pm25_of (item : pydict) : pyval := dict_get item "pm25" PyNone.


Lemma enrich_item_ok (item : pydict) :
  raises (classify_pm25 (pm25_of item)) = false -> exists e, enrich_item item = Ok e.
Proof.
  unfold enrich_item, pm25_of. destruct (classify_pm25 _) as [info|err]; [|discriminate].
  intros _. eexists. reflexivity.
Qed.



(** ** Stability of the order, and independence of the response order *)

Lemma key_lt_irrefl (k : string * string) : key_lt k k = false.
Proof.
  unfold key_lt, str_lt. rewrite String.eqb_refl, string_compare_refl. reflexivity.
Qed.

Section Stability.

Variable repr_other : pyval -> string.

(** The readings of [l] whose sort key is [k], in the order of [l]. *)
Definition with_key (k : string * string) (l : list pydict) : list pydict :=
  filter (fun x => sort_key repr_other x = k) l.

Lemma insert_station_with_key (k : string * string) (x : pydict) (l : list pydict) :
  with_key k (insert_station repr_other x l) = with_key k (x :: l).
Proof.
  unfold with_key. induction l as [|y l IH]; [reflexivity|]. cbn [insert_station].
  destruct (key_lt (sort_key repr_other y) (sort_key repr_other x)) eqn:Hlt; [|reflexivity].
  rewrite (filter_cons _ y), IH, !filter_cons.
  destruct (decide (sort_key repr_other y = k)) as [Hy|Hy];
    destruct (decide (sort_key repr_other x = k)) as [Hx|Hx]; try reflexivity.
  rewrite Hy, Hx, key_lt_irrefl in Hlt. discriminate.
Qed.

Lemma sort_stations_with_key (k : string * string) (l : list pydict) :
  with_key k (sort_stations repr_other l) = with_key k l.
Proof.
  induction l as [|x l IH]; [reflexivity|].
  cbn [sort_stations foldr]. fold (sort_stations repr_other l).
  rewrite insert_station_with_key. unfold with_key in *.
  rewrite !filter_cons, IH. reflexivity.
Qed.

End Stability.

(** X9.  The sort is stable: the stations of the document that share a sort key
    stand in the order in which their readings were fetched. *)
Theorem main_order_stable (repr_other : pyval -> string) (fetched_at : string)
    (data : list pydict) (doc : pydict) :
  main repr_other fetched_at data = Ok doc ->
  exists enriched,
    enrich_all data = Ok enriched /\
    forall k, with_key repr_other k (output_stations doc) = with_key repr_other k enriched.
Proof.
  intros Hdoc. destruct (output_stations_main _ _ _ _ Hdoc) as (es & He & ->).
  exists es. split; [exact He|]. intros k. apply sort_stations_with_key.
Qed.

(** Two readings of the same name, fetched before a reading of a smaller
    name. *)
Definition first_b : pydict := {[ "name" := PyStr "B"; "site" := PyInt 1 ]}.

Definition second_b : pydict := {[ "name" := PyStr "B"; "site" := PyInt 2 ]}.

Definition late_a : pydict := {[ "name" := PyStr "A"; "site" := PyInt 3 ]}.

(** The enrichment of a reading without PM2.5 value and timestamp. *)
Definition enriched_unknown (item : pydict) : pydict :=
  <["pm25_band_range" := PyNone]>
    (<["sl_aqi_range" := PyNone]>
       (<["sl_aqi_est" := PyNone]>
          (<["sl_aqi_label" := PyStr "Unknown"]>
             (<["timestamp_iso_utc" := PyNone]> item)))).

Definition document_a_b_b : pydict :=
  {[ "source" := PyStr ENDPOINT;
     "fetched_at_utc" := PyStr "2024-01-01T00:00:00Z";
     "count" := PyInt 3;
     "stations" :=
       PyList [PyDict (enriched_unknown late_a);
               PyDict (enriched_unknown first_b);
               PyDict (enriched_unknown second_b)] ]}.

Lemma main_order_stable_witness :
  main (fun _ => EmptyString) "2024-01-01T00:00:00Z" [first_b; second_b; late_a]
    = Ok document_a_b_b /\
  sort_key (fun _ => EmptyString) (enriched_unknown first_b) = ("B", EmptyString) /\
  sort_key (fun _ => EmptyString) (enriched_unknown second_b) = ("B", EmptyString) /\
  with_key (fun _ => EmptyString) ("B", EmptyString) (output_stations document_a_b_b)
    = [enriched_unknown first_b; enriched_unknown second_b].
Proof.
  assert (Hm : main (fun _ => EmptyString) "2024-01-01T00:00:00Z" [first_b; second_b; late_a]
               = Ok document_a_b_b) by (vm_compute; reflexivity).
  assert (He : enrich_all [first_b; second_b; late_a]
               = Ok [enriched_unknown first_b; enriched_unknown second_b;
                     enriched_unknown late_a]) by (vm_compute; reflexivity).
  split; [exact Hm|]. split; [vm_compute; reflexivity|]. split; [vm_compute; reflexivity|].
  destruct (main_order_stable _ _ _ _ Hm) as (es & Hes & Hk).
  assert (E : es = [enriched_unknown first_b; enriched_unknown second_b;
                    enriched_unknown late_a]) by congruence.
  rewrite Hk, E. vm_compute. reflexivity.
Defined.

Lemma str_ltP_asym (a b : string) : str_ltP a b -> str_ltP b a -> False.
Proof.
  unfold str_ltP. intros H1 H2. rewrite (String.compare_antisym a b), H2 in H1.
  discriminate.
Qed.

Lemma str_ltP_irrefl (a : string) : ~ str_ltP a a.
Proof. intros H. exact (str_ltP_asym a a H H). Qed.

Lemma key_order_antisym (k1 k2 : string * string) :
  key_order k1 k2 -> key_order k2 k1 -> k1 = k2.
Proof.
  destruct k1 as [a1 b1], k2 as [a2 b2]. unfold key_order. cbn [fst snd].
  rewrite !str_leP_cases.
  intros [H1|[-> H1]] [H2|[E2 H2]].
  - destruct (str_ltP_asym _ _ H1 H2).
  - subst. destruct (str_ltP_irrefl _ H1).
  - destruct (str_ltP_irrefl _ H2).
  - destruct H1 as [H1| ->]; [|reflexivity].
    destruct H2 as [H2| ->]; [|reflexivity].
    destruct (str_ltP_asym _ _ H1 H2).
Qed.

Lemma sorted_permutation_unique {A} (R : A -> A -> Prop) (l : list A) :
  forall l',
    StronglySorted R l -> StronglySorted R l' -> Permutation l l' ->
    (forall x y, x ∈ l -> y ∈ l -> R x y -> R y x -> x = y) ->
    l = l'.
Proof.
  induction l as [|x t IH]; intros l' Hs Hs' Hp Hanti.
  - apply Permutation_nil in Hp. congruence.
  - destruct l' as [|x' t']; [apply Permutation_sym, Permutation_nil in Hp; discriminate|].
    apply StronglySorted_inv in Hs as [Hst Hx].
    apply StronglySorted_inv in Hs' as [Hst' Hx'].
    rewrite Forall_forall in Hx, Hx'.
    assert (Hin' : x' ∈ x :: t) by (rewrite Hp; left).
    assert (Hin : x ∈ x' :: t') by (rewrite <- Hp; left).
    assert (E : x = x').
    { apply elem_of_cons in Hin' as [E|Hin']; [congruence|].
      apply elem_of_cons in Hin as [E|Hin]; [congruence|].
      apply Hanti; [left|right; exact Hin'|apply Hx; exact Hin'|apply Hx'; exact Hin]. }
    subst x'. f_equal. apply IH; try assumption.
    + eapply Permutation_cons_inv. exact Hp.
    + intros y z Hy Hz. apply Hanti; right; assumption.
Qed.

Lemma NoDup_fmap_inj_on {A B} (f : A -> B) (l : list A) (x y : A) :
  NoDup (f <$> l) -> x ∈ l -> y ∈ l -> f x = f y -> x = y.
Proof.
  induction l as [|a l IH]; [intros _ []%elem_of_nil|].
  rewrite fmap_cons, NoDup_cons. intros [Ha Hnd].
  intros [->|Hx]%elem_of_cons [->|Hy]%elem_of_cons E; auto.
  - destruct Ha. rewrite E. apply list_elem_of_fmap_2. exact Hy.
  - destruct Ha. rewrite <- E. apply list_elem_of_fmap_2. exact Hx.
Qed.

Lemma sort_stations_order_independent (repr_other : pyval -> string)
    (l l' : list pydict) :
  Permutation l l' -> NoDup (sort_key repr_other <$> l) ->
  sort_stations repr_other l = sort_stations repr_other l'.
Proof.
  intros Hp Hnd.
  apply (sorted_permutation_unique
           (fun x y => key_order (sort_key repr_other x) (sort_key repr_other y))).
  - apply sort_stations_sorted.
  - apply sort_stations_sorted.
  - rewrite !sort_stations_perm. exact Hp.
  - intros x y Hx Hy Hxy Hyx. rewrite sort_stations_perm in Hx, Hy.
    eapply NoDup_fmap_inj_on; try eassumption.
    apply key_order_antisym; assumption.
Qed.

Lemma enrich_all_cons (x : pydict) (l es : list pydict) :
  enrich_all (x :: l) = Ok es <->
  exists e es0, es = e :: es0 /\ enrich_item x = Ok e /\ enrich_all l = Ok es0.
Proof.
  cbn [enrich_all]. destruct (enrich_item x) as [e|err].
  - change (Ok e ≫= ?k) with (k e). cbv beta.
    destruct (enrich_all l) as [es0|err].
    + change (Ok es0 ≫= ?k) with (k es0). cbv beta. split.
      * intros [= <-]. exists e, es0. auto.
      * intros (e' & es0' & -> & [= <-] & [= <-]). reflexivity.
    + split; [discriminate|]. intros (? & ? & _ & _ & [=]).
  - split; [discriminate|]. intros (? & ? & _ & [=] & _).
Qed.

Lemma enrich_all_permutation (data data' : list pydict) :
  Permutation data data' ->
  forall es, enrich_all data = Ok es ->
             exists es', enrich_all data' = Ok es' /\ Permutation es es'.
Proof.
  induction 1 as [|x l l' _ IH|x y l|l l' l'' _ IH1 _ IH2]; intros es.
  - intros H. exists es. split; [exact H|reflexivity].
  - intros (e & es0 & -> & He & Hes)%enrich_all_cons.
    destruct (IH _ Hes) as (es' & Hes' & Hp).
    exists (e :: es'). split; [|constructor; exact Hp].
    apply enrich_all_cons. exists e, es'. auto.
  - intros (e & es0 & -> & He & (e' & es1 & -> & He' & Hes)%enrich_all_cons)%enrich_all_cons.
    exists (e' :: e :: es1). split; [|apply perm_swap].
    apply enrich_all_cons. exists e', (e :: es1). repeat split; [exact He'|].
    apply enrich_all_cons. exists e, es1. auto.
  - intros Hes. destruct (IH1 _ Hes) as (es' & Hes' & Hp1).
    destruct (IH2 _ Hes') as (es'' & Hes'' & Hp2).
    exists es''. split; [exact Hes''|]. etransitivity; eassumption.
Qed.

Lemma enrich_item_sort_key (repr_other : pyval -> string) (item e : pydict) :
  enrich_item item = Ok e -> sort_key repr_other e = sort_key repr_other item.
Proof.
  intros He. unfold sort_key, dict_get.
  rewrite (enrich_item_other_key item e "name" He) by (cbn; intuition discriminate).
  rewrite (enrich_item_other_key item e "meta_device_id" He) by (cbn; intuition discriminate).
  reflexivity.
Qed.

Lemma enrich_all_sort_keys (repr_other : pyval -> string) (data es : list pydict) :
  enrich_all data = Ok es -> sort_key repr_other <$> es = sort_key repr_other <$> data.
Proof.
  intros H%enrich_all_inv. induction H as [|item e data es He _ IH]; [reflexivity|].
  rewrite !fmap_cons, IH, (enrich_item_sort_key repr_other item e He). reflexivity.
Qed.

(** X10.  When the readings have pairwise different sort keys, the document does
    not depend on the order in which the response lists them: the same
    readings in any other order give the same document. *)
Theorem main_order_independent (repr_other : pyval -> string) (fetched_at : string)
    (data data' : list pydict) (doc : pydict) :
  Permutation data data' -> NoDup (sort_key repr_other <$> data) ->
  main repr_other fetched_at data = Ok doc ->
  main repr_other fetched_at data' = Ok doc.
Proof.
  intros Hp Hnd. unfold main.
  destruct (enrich_all data) as [es|err] eqn:Hes; [|discriminate].
  destruct (enrich_all_permutation _ _ Hp _ Hes) as (es' & -> & Hpe).
  change (Ok ?a ≫= ?k) with (k a). cbv beta zeta.
  rewrite (sort_stations_order_independent repr_other es es' Hpe); [tauto|].
  rewrite (enrich_all_sort_keys repr_other data es Hes). exact Hnd.
Qed.

Definition reading_a : pydict := {[ "name" := PyStr "A"; "pm25" := PyInt 10 ]}.

Definition reading_b : pydict := {[ "name" := PyStr "B"; "pm25" := PyNone ]}.

Definition document_ab : pydict :=
  {[ "source" := PyStr ENDPOINT;
     "fetched_at_utc" := PyStr "2024-01-01T00:00:00Z";
     "count" := PyInt 2;
     "stations" :=
       PyList
         [PyDict (<["pm25_band_range" := PyList [PyFloat 0.0; PyFloat 25.0]]>
                    (<["sl_aqi_range" := PyList [PyInt 0; PyInt 50]]>
                       (<["sl_aqi_est" := PyInt 20]>
                          (<["sl_aqi_label" := PyStr "Good"]>
                             (<["timestamp_iso_utc" := PyNone]> reading_a)))));
          PyDict (<["pm25_band_range" := PyNone]>
                    (<["sl_aqi_range" := PyNone]>
                       (<["sl_aqi_est" := PyNone]>
                          (<["sl_aqi_label" := PyStr "Unknown"]>
                             (<["timestamp_iso_utc" := PyNone]> reading_b)))))] ]}.

Lemma main_order_independent_witness :
  Permutation [reading_b; reading_a] [reading_a; reading_b] /\
  NoDup (sort_key (fun _ => EmptyString) <$> [reading_b; reading_a]) /\
  main (fun _ => EmptyString) "2024-01-01T00:00:00Z" [reading_b; reading_a] = Ok document_ab /\
  main (fun _ => EmptyString) "2024-01-01T00:00:00Z" [reading_a; reading_b] = Ok document_ab.
Proof.
  assert (Hp : Permutation [reading_b; reading_a] [reading_a; reading_b])
    by apply perm_swap.
  assert (Hnd : NoDup (sort_key (fun _ => EmptyString) <$> [reading_b; reading_a])).
  { vm_compute. repeat constructor; rewrite ?elem_of_cons, ?elem_of_nil;
      intuition discriminate. }
  assert (Hm : main (fun _ => EmptyString) "2024-01-01T00:00:00Z" [reading_b; reading_a]
               = Ok document_ab) by (vm_compute; reflexivity).
  split; [exact Hp|]. split; [exact Hnd|]. split; [exact Hm|].
  exact (main_order_independent _ _ _ _ _ Hp Hnd Hm).
Defined.

(** ** The conversion of a millisecond count *)

(** *** Exact floats *)

Lemma valid_finite_intro (m : positive) (e : Z) :
  fexp64 (Zdigits2 (Z.pos m) + e) = e -> e <= 971 ->
  valid_binary (S754_finite false m e) = true.
Proof.
  intros Hc He. cbn [SpecFloat.valid_binary]. unfold bounded, canonical_mantissa.
  rewrite fexp64_eq. cbn [Zdigits2] in Hc. rewrite Hc, Z.eqb_refl.
  change (emax - prec) with 971. apply Z.leb_le in He. rewrite He. reflexivity.
Qed.

(** An integer below [2^53], scaled by a power of two inside the format, is
    a float. *)
Lemma normalize_exact (m e : Z) :
  0 <= m < 2 ^ 53 -> -1074 <= e <= 0 ->
  nnfb (SF64normalize m e) = true /\
  SFval (SF64normalize m e) = m * 2 ^ (e + 1074).
Proof.
  intros Hm He. unfold SF64normalize. destruct m as [|k|k]; try lia.
  - split; reflexivity.
  - cbn [binary_normalize]. unfold binary_round. rewrite fexp64_eq.
    change (Z.pos (digits2_pos k)) with (Zdigits2 (Z.pos k)).
    destruct (Zdigits2_bounds (Z.pos k) ltac:(lia)) as (Hd1 & Hd2 & Hd3).
    assert (Hd : Zdigits2 (Z.pos k) <= 53).
    { assert (Zdigits2 (Z.pos k) - 1 < 53) by (apply pow2_lt_mono; lia). lia. }
    set (E := fexp64 (Zdigits2 (Z.pos k) + e)).
    assert (HE : -1074 <= E <= e) by (unfold E, fexp64; lia).
    destruct (shl_align_spec k e E) as [Hez Hmz].
    destruct (shl_align k e E) as [mz ez]. cbn [fst snd] in Hez, Hmz.
    replace (Z.min e E) with E in * by lia. subst ez.
    assert (Hval : valid_binary (S754_finite false mz E) = true).
    { apply valid_finite_intro; [|lia].
      rewrite Hmz, Zdigits2_shift by lia.
      replace (Zdigits2 (Z.pos k) + (e - E) + E) with (Zdigits2 (Z.pos k) + e) by lia.
      reflexivity. }
    change (binary_round_aux prec emax false (Z.pos mz) E loc_Exact)
      with (rnd (Z.pos mz) E loc_Exact).
    rewrite (rnd_valid_id mz E Hval). split.
    + unfold nnfb. rewrite Hval. reflexivity.
    + cbn [SFval]. rewrite Hmz.
      replace (e + 1074) with ((e - E) + (E + 1074)) by lia.
      rewrite (pow2_split (e - E) (E + 1074)) by lia. ring.
Qed.

Lemma of_Z_exact (n : Z) :
  0 <= n < 2 ^ 53 ->
  nnf (of_Z n) /\ SFval (Prim2SF (of_Z n)) = n * 2 ^ 1074 /\
  py_float (PyInt n) = Ok (of_Z n).
Proof.
  intros Hn. destruct (normalize_exact n 0 Hn ltac:(lia)) as [Hnn Hv].
  assert (Hvalid : valid_binary (SF64normalize n 0) = true)
    by (unfold nnfb in Hnn; apply andb_prop in Hnn; tauto).
  unfold nnf, of_Z. rewrite (Prim2SF_SF2Prim _ Hvalid).
  split; [exact Hnn|]. split; [exact Hv|].
  unfold py_float. destruct (SF64normalize n 0) as [s|s| |s m e]; try reflexivity.
  unfold nnfb in Hnn. destruct s; discriminate Hnn.
Qed.

Lemma SFtrunc_val (x : spec_float) :
  nnfb x = true -> SFtrunc x = Some (SFval x / 2 ^ 1074).
Proof.
  intros [[s ->]|(m & e & -> & Hv)]%nnfb_inv; [reflexivity|].
  pose proof (valid_finite_inv _ _ _ Hv) as [Hr _].
  cbn [SFtrunc SFval]. f_equal.
  destruct (Z.leb_spec 0 e) as [He|He].
  - rewrite (pow2_split e 1074), Z.mul_assoc by lia.
    rewrite Z.div_mul by (pose proof (pow2_pos 1074); lia). reflexivity.
  - assert (Hsp : 2 ^ 1074 = 2 ^ (- e) * 2 ^ (e + 1074))
      by (rewrite <- pow2_split by lia; f_equal; lia).
    pose proof (pow2_pos (- e) ltac:(lia)) as Hp1.
    pose proof (pow2_pos (e + 1074) ltac:(lia)) as Hp2.
    rewrite Hsp. rewrite Z.div_mul_cancel_r by lia. reflexivity.
Qed.

(** A float between two floats given by their values. *)
Lemma is_rnd_between (x lo hi : spec_float) (q S p : Z) :
  0 < q -> 1074 <= S -> valid_binary x = true ->
  nnfb lo = true -> nnfb hi = true ->
  is_rnd x q S p ->
  q * SFval lo * 2 ^ (S - 1074) <= p <= q * SFval hi * 2 ^ (S - 1074) ->
  nnfb x = true /\ SFval lo <= SFval x <= SFval hi.
Proof.
  intros Hq HS Hval Hlo Hhi Rx [H1 H2].
  pose proof (is_rnd_nnf lo q S HS Hlo) as Rlo.
  pose proof (is_rnd_nnf hi q S HS Hhi) as Rhi.
  pose proof (is_rnd_mono _ _ q S _ _ Hq H1 Rlo Rx) as Hle1.
  pose proof (is_rnd_mono _ _ q S _ _ Hq H2 Rx Rhi) as Hle2.
  assert (Nx : nnfb x = true).
  { apply (nnfb_below _ hi); try assumption. apply (is_rnd_nni _ q S p Hq Rx). }
  split; [exact Nx|].
  apply SFleb_nnf in Hle1, Hle2; try assumption. lia.
Qed.

(** *** Rounding to the nearest integer *)

Lemma rne_shift_exact (z k : Z) : 0 <= k -> rne_shift (z * 2 ^ k) k = z.
Proof.
  intros Hk. unfold rne_shift. pose proof (pow2_pos k Hk) as Hp.
  rewrite Z.div_mul, Z.mod_mul by lia.
  destruct (Z.compare_spec (2 * 0) (2 ^ k)); lia.
Qed.

Lemma rne_shift_bounds (m k z1 z2 : Z) :
  0 <= k -> z1 * 2 ^ k <= m <= z2 * 2 ^ k -> z1 <= rne_shift m k <= z2.
Proof.
  intros Hk [H1 H2].
  pose proof (rne_shift_mono _ _ k Hk H1) as M1.
  pose proof (rne_shift_mono _ _ k Hk H2) as M2.
  rewrite rne_shift_exact in M1, M2 by assumption. lia.
Qed.

Lemma rne_shift_near (m k z : Z) :
  0 <= k -> 2 * Z.abs (m - z * 2 ^ k) < 2 ^ k -> rne_shift m k = z.
Proof.
  intros Hk Hn. unfold rne_shift. pose proof (pow2_pos k Hk) as Hp.
  set (d := 2 ^ k) in *.
  pose proof (Z.div_mod m d ltac:(lia)) as Hdm.
  pose proof (Z.mod_pos_bound m d Hp) as Hmod.
  set (q := m / d) in *. set (r := m mod d) in *.
  assert (Hq : q = z \/ q = z - 1) by nia.
  destruct Hq as [Hq|Hq]; destruct (Z.compare_spec (2 * r) d); nia.
Qed.

Lemma split_seconds_nnf (t : float) (ip us : Z) :
  nnf t -> SFtrunc (Prim2SF t) = Some ip ->
  SFround (Prim2SF ((t - of_Z ip) * 1000000)) = Some us ->
  0 <= us < 1000000 -> - 2 ^ 63 <= ip < 2 ^ 63 ->
  DateTime.split_seconds t = Ok (ip, us).
Proof.
  intros Nt Hip Hus Hu Hi. unfold DateTime.split_seconds.
  assert (Hsf : match Prim2SF t with S754_nan => False | _ => True end).
  { unfold nnf in Nt. apply nnfb_inv in Nt as [[s Hs]|(m & e & Hs & _)]; rewrite Hs; exact I. }
  destruct (Prim2SF t) as [s|s| |s m e]; try contradiction;
    rewrite Hip, Hus;
    (destruct (Z.leb_spec 1000000 us); [lia|]);
    (destruct (Z.ltb_spec us 0); [lia|]);
    (destruct (Z.leb_spec (- 2 ^ 63) ip); [|lia]);
    (destruct (Z.ltb_spec ip (2 ^ 63)); [|lia]); reflexivity.
Qed.

(** *** The seconds and microseconds of a millisecond count *)

Section Milliseconds.

(** The count [n] of milliseconds, and the binary grid [2^-g] on which the
    quotient [n / 1000.0] is bracketed. *)
Variables n g : Z.
Hypothesis n_nonneg : 0 <= n.
Hypothesis g_range : 10 <= g <= 38.
Hypothesis n_small : (n / 1000 + 1) * 2 ^ g <= 2 ^ 53.

Let k := n / 1000.
Let r := n mod 1000.
Let G := 2 ^ g.
Let P := 2 ^ (1074 - g).
Let a := r * G / 1000.
Let b := (r * G + 999) / 1000.

Local Lemma grid_facts :
  1024 <= G /\ G <= 2 ^ 38 /\ 0 < P /\ 2 ^ 1074 = G * P /\
  n = 1000 * k + r /\ 0 <= r < 1000 /\ 0 <= k /\
  0 <= a /\ a <= b /\ b <= G - 1 /\
  1000 * a <= r * G /\ r * G <= 1000 * b /\
  r * G < 1000 * a + 1000 /\ 1000 * b < r * G + 1000 /\
  (k + 1) * G <= 2 ^ 53.
Proof using n_nonneg g_range n_small.
  assert (HG1 : 2 ^ 10 <= G) by (apply Z.pow_le_mono_r; lia).
  assert (HG2 : G <= 2 ^ 38) by (apply Z.pow_le_mono_r; lia).
  assert (HP : 0 < P) by (apply pow2_pos; lia).
  assert (HGP : 2 ^ 1074 = G * P).
  { unfold G, P. rewrite <- pow2_split by lia. f_equal. lia. }
  pose proof (Z.div_mod n 1000 ltac:(lia)) as Hn.
  pose proof (Z.mod_pos_bound n 1000 ltac:(lia)) as Hr.
  assert (Hk : 0 <= k) by (apply Z.div_pos; lia).
  fold k r in Hn, Hr.
  pose proof (Z.div_mod (r * G) 1000 ltac:(lia)) as Ha.
  pose proof (Z.mod_pos_bound (r * G) 1000 ltac:(lia)) as Ha'.
  pose proof (Z.div_mod (r * G + 999) 1000 ltac:(lia)) as Hb.
  pose proof (Z.mod_pos_bound (r * G + 999) 1000 ltac:(lia)) as Hb'.
  fold a in Ha. fold b in Hb.
  change (2 ^ 10) with 1024 in HG1.
  assert (0 <= r * G) by nia.
  repeat split; try lia; nia.
Qed.

Local Lemma quotient_bracket :
  nnf (of_Z n / 1000) /\
  (k * G + a) * P <= SFval (Prim2SF (of_Z n / 1000)) <= (k * G + b) * P.
Proof using n_nonneg g_range n_small.
  destruct grid_facts as (HG1 & HG2 & HP & HGP & Hn & Hr & Hk & Ha0 & Hab & HbG &
                          Ha1 & Hb1 & Ha2 & Hb2 & Hsm).
  assert (Hn53 : 0 <= n < 2 ^ 53).
  { split; [lia|]. change (2 ^ 53) with 9007199254740992 in *. nia. }
  destruct (of_Z_exact n Hn53) as (Nx & Vx & _).
  assert (Hlo : 0 <= k * G + a < 2 ^ 53) by nia.
  assert (Hhi : 0 <= k * G + b < 2 ^ 53) by nia.
  destruct (normalize_exact (k * G + a) (- g) Hlo ltac:(lia)) as [NL VL].
  destruct (normalize_exact (k * G + b) (- g) Hhi ltac:(lia)) as [NU VU].
  replace (- g + 1074) with (1074 - g) in VL, VU by lia. fold P in VL, VU.
  assert (Hw : Prim2SF 1000 = S754_finite false 8796093022208000 (-43))
    by (vm_compute; reflexivity).
  assert (Vw : valid_binary (S754_finite false 8796093022208000 (-43)) = true)
    by (vm_compute; reflexivity).
  pose proof (is_rnd_div (Prim2SF (of_Z n)) 8796093022208000 (-43) Nx Vw) as Rt.
  rewrite <- Hw, <- div_spec, Vx in Rt.
  assert (Hb : Z.pos 8796093022208000 * SFval (SF64normalize (k * G + a) (- g)) * 2 ^ (2200 - 1074)
               <= n * 2 ^ 1074 * 2 ^ (1126 - -43)
               <= Z.pos 8796093022208000 * SFval (SF64normalize (k * G + b) (- g)) * 2 ^ (2200 - 1074)).
  { rewrite VL, VU. rewrite HGP.
    change (2200 - 1074) with 1126. change (1126 - -43) with (1126 + 43).
    rewrite (pow2_split 1126 43) by lia.
    set (C := 2 ^ 1126) in *. assert (HC : 0 < C) by (apply pow2_pos; lia).
    change (Z.pos 8796093022208000) with (1000 * 2 ^ 43).
    set (D := 2 ^ 43) in *. assert (HD : 0 < D) by (apply pow2_pos; lia).
    assert (HCDP : 0 < D * P * C) by nia.
    replace (1000 * D * ((k * G + a) * P) * C) with ((1000 * (k * G + a)) * (D * P * C)) by ring.
    replace (1000 * D * ((k * G + b) * P) * C) with ((1000 * (k * G + b)) * (D * P * C)) by ring.
    replace (n * (G * P) * (C * D)) with ((n * G) * (D * P * C)) by ring.
    pose proof (f_equal (fun z => z * G) Hn) as HnG. cbv beta in HnG.
    split; apply Z.mul_le_mono_nonneg_r; lia. }
  destruct (is_rnd_between _ _ _ (Z.pos 8796093022208000) 2200 _ ltac:(lia) ltac:(lia)
              (Prim2SF_valid _) NL NU Rt Hb)
    as [Nt Ht].
  rewrite VL, VU in Ht. split; assumption.
Qed.

Local Lemma seconds_trunc : SFtrunc (Prim2SF (of_Z n / 1000)) = Some k.
Proof using n_nonneg g_range n_small.
  destruct grid_facts as (HG1 & HG2 & HP & HGP & Hn & Hr & Hk & Ha0 & Hab & HbG &
                          Ha1 & Hb1 & Ha2 & Hb2 & Hsm).
  destruct quotient_bracket as [Nt [Ht1 Ht2]].
  rewrite (SFtrunc_val _ Nt), HGP. f_equal. symmetry.
  set (v := SFval (Prim2SF (of_Z n / 1000))) in *.
  apply (Z.div_unique v (G * P) k (v - k * (G * P))); [left|ring].
  assert (H1 : k * G * P <= (k * G + a) * P) by nia.
  assert (H2 : (k * G + b) * P <= (k * G + (G - 1)) * P) by nia.
  nia.
Qed.

Local Lemma fraction_bracket :
  nnf (of_Z n / 1000 - of_Z k) /\
  a * P <= SFval (Prim2SF (of_Z n / 1000 - of_Z k)) <= b * P.
Proof using n_nonneg g_range n_small.
  destruct grid_facts as (HG1 & HG2 & HP & HGP & Hn & Hr & Hk & Ha0 & Hab & HbG &
                          Ha1 & Hb1 & Ha2 & Hb2 & Hsm).
  destruct quotient_bracket as [Nt [Ht1 Ht2]].
  assert (Hk53 : 0 <= k < 2 ^ 53).
  { split; [lia|]. change (2 ^ 53) with 9007199254740992 in *. nia. }
  destruct (of_Z_exact k Hk53) as (Nc & Vc & _).
  rewrite HGP in Vc.
  assert (Hle : SFval (Prim2SF (of_Z k)) <= SFval (Prim2SF (of_Z n / 1000))).
  { rewrite Vc. nia. }
  pose proof (is_rnd_sub _ _ Nt Nc Hle) as Rf.
  rewrite <- sub_spec, Vc in Rf.
  assert (Ha53 : 0 <= a < 2 ^ 53) by (change (2 ^ 53) with 9007199254740992 in *; nia).
  assert (Hb53 : 0 <= b < 2 ^ 53) by (change (2 ^ 53) with 9007199254740992 in *; nia).
  destruct (normalize_exact a (- g) Ha53 ltac:(lia)) as [NL VL].
  destruct (normalize_exact b (- g) Hb53 ltac:(lia)) as [NU VU].
  replace (- g + 1074) with (1074 - g) in VL, VU by lia. fold P in VL, VU.
  assert (Hb : 1 * SFval (SF64normalize a (- g)) * 2 ^ (1074 - 1074)
               <= SFval (Prim2SF (of_Z n / 1000)) - k * (G * P)
               <= 1 * SFval (SF64normalize b (- g)) * 2 ^ (1074 - 1074)).
  { rewrite VL, VU. change (2 ^ (1074 - 1074)) with 1. nia. }
  destruct (is_rnd_between _ _ _ 1 1074 _ ltac:(lia) ltac:(lia)
              (Prim2SF_valid _) NL NU Rf Hb) as [Nf Hf].
  rewrite VL, VU in Hf. split; assumption.
Qed.

Local Lemma product_bracket :
  nnf ((of_Z n / 1000 - of_Z k) * 1000000) /\
  a * 1000000 * P
  <= SFval (Prim2SF ((of_Z n / 1000 - of_Z k) * 1000000))
  <= b * 1000000 * P.
Proof using n_nonneg g_range n_small.
  destruct grid_facts as (HG1 & HG2 & HP & HGP & Hn & Hr & Hk & Ha0 & Hab & HbG &
                          Ha1 & Hb1 & Ha2 & Hb2 & Hsm).
  destruct fraction_bracket as [Nf [Hf1 Hf2]].
  assert (Hd : Prim2SF 1000000 = S754_finite false 8589934592000000 (-33))
    by (vm_compute; reflexivity).
  assert (Nd : nnf 1000000) by (vm_compute; reflexivity).
  assert (Vd : SFval (Prim2SF 1000000) = 1000000 * 2 ^ 1074) by (vm_compute; reflexivity).
  pose proof (is_rnd_mul _ _ Nf Nd) as Rp.
  rewrite <- mul_spec, Vd in Rp.
  assert (Ha53 : 0 <= a * 15625 < 2 ^ 53) by (change (2 ^ 53) with 9007199254740992 in *; nia).
  assert (Hb53 : 0 <= b * 15625 < 2 ^ 53) by (change (2 ^ 53) with 9007199254740992 in *; nia).
  destruct (normalize_exact (a * 15625) (6 - g) Ha53 ltac:(lia)) as [NL VL].
  destruct (normalize_exact (b * 15625) (6 - g) Hb53 ltac:(lia)) as [NU VU].
  assert (HP6 : 2 ^ (6 - g + 1074) = 64 * P).
  { unfold P. replace (6 - g + 1074) with (6 + (1074 - g)) by lia.
    rewrite (pow2_split 6 (1074 - g)) by lia. reflexivity. }
  rewrite HP6 in VL, VU.
  set (Q := 2 ^ 1074) in *. assert (HQ : 0 < Q) by (apply pow2_pos; lia).
  assert (Hb : 1 * SFval (SF64normalize (a * 15625) (6 - g)) * 2 ^ (2148 - 1074)
               <= SFval (Prim2SF (of_Z n / 1000 - of_Z k)) * (1000000 * Q)
               <= 1 * SFval (SF64normalize (b * 15625) (6 - g)) * 2 ^ (2148 - 1074)).
  { rewrite VL, VU. change (2 ^ (2148 - 1074)) with Q.
    set (v := SFval (Prim2SF (of_Z n / 1000 - of_Z k))) in *.
    replace (1 * (a * 15625 * (64 * P)) * Q) with ((a * P) * (1000000 * Q)) by ring.
    replace (1 * (b * 15625 * (64 * P)) * Q) with ((b * P) * (1000000 * Q)) by ring.
    split; apply Z.mul_le_mono_nonneg_r; lia. }
  destruct (is_rnd_between _ _ _ 1 2148 _ ltac:(lia) ltac:(lia)
              (Prim2SF_valid _) NL NU Rp Hb) as [Np Hp].
  rewrite VL, VU in Hp. split; [assumption|]. lia.
Qed.

(** The split of [n / 1000.0]: the seconds are exact, and the microseconds
    are the rounding of a value bracketed on the grid. *)
Lemma split_seconds_ms :
  exists v,
    a * 1000000 * P <= v <= b * 1000000 * P /\
    (0 <= rne_shift v 1074 < 1000000 ->
     DateTime.split_seconds (of_Z n / 1000) = Ok (n / 1000, rne_shift v 1074)).
Proof using n_nonneg g_range n_small.
  destruct grid_facts as (HG1 & HG2 & HP & HGP & Hn & Hr & Hk & Ha0 & Hab & HbG &
                          Ha1 & Hb1 & Ha2 & Hb2 & Hsm).
  destruct quotient_bracket as [Nt _].
  destruct product_bracket as [Np Hp].
  exists (SFval (Prim2SF ((of_Z n / 1000 - of_Z k) * 1000000))).
  split; [exact Hp|]. intros Hus.
  apply split_seconds_nnf; try assumption.
  - apply seconds_trunc.
  - apply SFround_val. exact Np.
  - fold k. change (2 ^ 53) with 9007199254740992 in *.
    change (2 ^ 63) with 9223372036854775808. nia.
Qed.

End Milliseconds.

(** *** The calendar *)

(** The datetime of a count of seconds and microseconds since the epoch, as
    [fromtimestamp] builds it. *)
Definition utc_datetime (secs us : Z) : DateTime.datetime :=
  let '(y, m, d) := DateTime.civil_from_days (secs / 86400) in
  let sod := secs mod 86400 in
  DateTime.mkDatetime y m d (sod / 3600) (sod mod 3600 / 60) (sod mod 60) us.

Definition year_of_days (days : Z) : Z := fst (fst (DateTime.civil_from_days days)).

Lemma fromtimestamp_utc_split (t : float) (secs us : Z) :
  DateTime.split_seconds t = Ok (secs, us) ->
  DateTime.fromtimestamp_utc t =
  if (1 <=? year_of_days (secs / 86400)) && (year_of_days (secs / 86400) <=? 9999)
  then Ok (utc_datetime secs us) else Raise ValueError.
Proof.
  intros Hs. unfold DateTime.fromtimestamp_utc, utc_datetime, year_of_days. rewrite Hs.
  change (Ok (secs, us) ≫= ?f) with (f (secs, us)). cbv beta iota.
  destruct (DateTime.civil_from_days (secs / 86400)) as [[y m] d]. reflexivity.
Qed.

(** The date repeats every 146097 days, 400 years later. *)
Lemma civil_from_days_cycle (days : Z) :
  DateTime.civil_from_days days =
  let '(y, m, d) := DateTime.civil_from_days ((days + 719468) mod 146097 - 719468) in
  (y + 400 * ((days + 719468) / 146097), m, d).
Proof.
  unfold DateTime.civil_from_days. cbv zeta.
  pose proof (Z.mod_pos_bound (days + 719468) 146097 ltac:(lia)) as Hb.
  set (doe := (days + 719468) mod 146097) in *.
  replace (doe - 719468 + 719468) with doe by lia.
  rewrite (Z.mod_small doe 146097), (Z.div_small doe 146097) by lia.
  f_equal. f_equal. ring.
Qed.

(** A check of [f] on the [n] integers from [z] on. *)
Fixpoint all_from (f : Z -> bool) (z : Z) (n : nat) : bool :=
  match n with
  | O => true
  | S n' => f z && all_from f (z + 1) n'
  end.

Lemma all_from_spec (f : Z -> bool) (n : nat) :
  forall z, all_from f z n = true -> forall x, z <= x < z + Z.of_nat n -> f x = true.
Proof.
  induction n as [|n IH]; cbn [all_from]; [lia|].
  intros z [H1 H2]%andb_prop x Hx.
  destruct (Z.eq_dec x z) as [->|Hne]; [exact H1|].
  apply (IH (z + 1)); [exact H2|lia].
Qed.

(** The date of the day [doe] of the first cycle, counted from its first of
    March: the year is at most 400, reached on the day 146037 (the first of
    January of the cycle's last year), and month and day are in range. *)
Definition cycle_ok (doe : Z) : bool :=
  let '(y, m, d) := DateTime.civil_from_days (doe - 719468) in
  (0 <=? y) && (if doe <=? 146036 then y <=? 399 else y =? 400) &&
  (1 <=? m) && (m <=? 12) && (1 <=? d) && (d <=? 31).

Lemma cycle_bounds (doe : Z) :
  0 <= doe < 146097 ->
  let '(y, m, d) := DateTime.civil_from_days (doe - 719468) in
  0 <= y <= 400 /\ (doe <= 146036 -> y <= 399) /\ (146037 <= doe -> y = 400) /\
  1 <= m <= 12 /\ 1 <= d <= 31.
Proof.
  assert (H : all_from cycle_ok 0 (Z.to_nat 146097) = true) by (vm_compute; reflexivity).
  intros Hd.
  assert (Hok : cycle_ok doe = true) by (apply (all_from_spec _ _ _ H); lia).
  unfold cycle_ok in Hok.
  destruct (DateTime.civil_from_days (doe - 719468)) as [[y m] d].
  repeat (apply andb_prop in Hok as [Hok ?]).
  repeat match goal with H : (_ <=? _) = true |- _ => apply Z.leb_le in H end.
  destruct (Z.leb_spec doe 146036);
    [match goal with H : (_ <=? _) = true |- _ => apply Z.leb_le in H end
    |match goal with H : (_ =? _) = true |- _ => apply Z.eqb_eq in H end]; lia.
Qed.

(** Every day count has a month from 1 to 12 and a day from 1 to 31. *)
Lemma civil_from_days_fields (days : Z) :
  let '(_, m, d) := DateTime.civil_from_days days in
  1 <= m <= 12 /\ 1 <= d <= 31.
Proof.
  rewrite civil_from_days_cycle.
  pose proof (Z.mod_pos_bound (days + 719468) 146097 ltac:(lia)) as Hb.
  pose proof (cycle_bounds _ Hb) as Hc.
  destruct (DateTime.civil_from_days ((days + 719468) mod 146097 - 719468)) as [[y m] d].
  tauto.
Qed.

Lemma year_in_range (days : Z) :
  0 <= days <= 2932896 -> 1 <= year_of_days days <= 9999.
Proof.
  intros Hd. unfold year_of_days. rewrite civil_from_days_cycle.
  pose proof (Z.mod_pos_bound (days + 719468) 146097 ltac:(lia)) as Hb.
  pose proof (Z.div_mod (days + 719468) 146097 ltac:(lia)) as Hdm.
  pose proof (cycle_bounds _ Hb) as Hc.
  set (doe := (days + 719468) mod 146097) in *.
  set (era := (days + 719468) / 146097) in *.
  destruct (DateTime.civil_from_days (doe - 719468)) as [[y m] d]. cbn [fst].
  destruct Hc as (H1 & H2 & H3 & _).
  assert (4 <= era <= 24) by lia.
  destruct (Z.eq_dec era 24) as [He|He]; [|lia].
  assert (doe <= 146036) by lia. lia.
Qed.

Lemma year_beyond_range (days : Z) :
  2932897 <= days -> 10000 <= year_of_days days.
Proof.
  intros Hd. unfold year_of_days. rewrite civil_from_days_cycle.
  pose proof (Z.mod_pos_bound (days + 719468) 146097 ltac:(lia)) as Hb.
  pose proof (Z.div_mod (days + 719468) 146097 ltac:(lia)) as Hdm.
  pose proof (cycle_bounds _ Hb) as Hc.
  set (doe := (days + 719468) mod 146097) in *.
  set (era := (days + 719468) / 146097) in *.
  destruct (DateTime.civil_from_days (doe - 719468)) as [[y m] d]. cbn [fst].
  destruct Hc as (H1 & H2 & H3 & _).
  assert (24 <= era) by lia.
  destruct (Z.eq_dec era 24) as [He|He]; [|lia].
  assert (146037 <= doe) by lia. lia.
Qed.

(** *** [iso_from_ms] on a count of milliseconds *)

Lemma iso_from_ms_split (n secs us : Z) :
  0 <= n < 2 ^ 53 ->
  DateTime.split_seconds (of_Z n / 1000) = Ok (secs, us) ->
  0 <= secs <= 253402300799 ->
  iso_from_ms (PyInt n) = Some (DateTime.isoformat_naive (utc_datetime secs us) ++ "Z")%string.
Proof.
  intros Hn Hs Hsecs. destruct (of_Z_exact n Hn) as (_ & _ & Hf).
  unfold iso_from_ms. rewrite Hf.
  change (Ok (of_Z n) ≫= ?f) with (f (of_Z n)). cbv beta.
  rewrite (fromtimestamp_utc_split _ _ _ Hs).
  assert (Hd : 0 <= secs / 86400 <= 2932896).
  { split; [apply Z.div_pos; lia|].
    assert (secs / 86400 < 2932897) by (apply Z.div_lt_upper_bound; lia). lia. }
  pose proof (year_in_range _ Hd) as [Hy1 Hy2].
  apply Z.leb_le in Hy1, Hy2. rewrite Hy1, Hy2. cbn [andb].
  change (Ok ?d ≫= ?f) with (f d). cbv beta.
  unfold mret, result_ret, DateTime.isoformat.
  rewrite str_replace_offset by apply has_plus_isoformat_naive. reflexivity.
Qed.

(** X11.  A count of milliseconds from the epoch up to 2^32 seconds (in the year
    2106) is converted exactly: the float division by 1000.0 and the
    rounding of the fraction lose nothing, the string holds the date and
    time of [n // 1000] seconds and the microseconds [(n % 1000) * 1000]. *)
Theorem iso_from_ms_exact (n : Z) :
  0 <= n < 4294967296000 ->
  iso_from_ms (PyInt n) =
  Some (DateTime.isoformat_naive (utc_datetime (n / 1000) (n mod 1000 * 1000)) ++ "Z")%string.
Proof.
  intros Hn.
  assert (Hk : 0 <= n / 1000 < 4294967296).
  { split; [apply Z.div_pos; lia|]. apply Z.div_lt_upper_bound; lia. }
  pose proof (Z.mod_pos_bound n 1000 ltac:(lia)) as Hr.
  assert (Hsmall : (n / 1000 + 1) * 2 ^ 21 <= 2 ^ 53).
  { change (2 ^ 21) with 2097152. change (2 ^ 53) with 9007199254740992. lia. }
  destruct (split_seconds_ms n 21 ltac:(lia) ltac:(lia) Hsmall) as (v & [Hv1 Hv2] & Hsplit).
  set (r := n mod 1000) in *.
  pose proof (Z.div_mod (r * 2 ^ 21) 1000 ltac:(lia)) as Ha.
  pose proof (Z.mod_pos_bound (r * 2 ^ 21) 1000 ltac:(lia)) as Ha'.
  pose proof (Z.div_mod (r * 2 ^ 21 + 999) 1000 ltac:(lia)) as Hb.
  pose proof (Z.mod_pos_bound (r * 2 ^ 21 + 999) 1000 ltac:(lia)) as Hb'.
  set (a := r * 2 ^ 21 / 1000) in *. set (b := (r * 2 ^ 21 + 999) / 1000) in *.
  change (2 ^ 21) with 2097152 in *.
  assert (La : r * 1000 * 2097152 - 999000 <= a * 1000000) by lia.
  assert (Lb : b * 1000000 <= r * 1000 * 2097152 + 999000) by lia.
  clear Ha Ha' Hb Hb' Hsmall. clearbody a b r.
  change (1074 - 21) with 1053 in *.
  assert (HQ : 2 ^ 1074 = 2097152 * 2 ^ 1053) by (vm_compute; reflexivity).
  assert (HP : 0 < 2 ^ 1053) by (apply pow2_pos; lia).
  assert (Hus : rne_shift v 1074 = r * 1000).
  { apply rne_shift_near; [lia|]. rewrite HQ. revert Hv1 Hv2 HP.
    generalize (2 ^ 1053). intros P Hv1 Hv2 HP.
    assert (H1 : (r * 1000 * 2097152 - 999000) * P <= a * 1000000 * P)
      by (apply Z.mul_le_mono_nonneg_r; [lia|exact La]).
    assert (H2 : b * 1000000 * P <= (r * 1000 * 2097152 + 999000) * P)
      by (apply Z.mul_le_mono_nonneg_r; [lia|exact Lb]).
    lia. }
  rewrite Hus in Hsplit.
  apply iso_from_ms_split; [change (2 ^ 53) with 9007199254740992; lia| |lia].
  apply Hsplit. lia.
Qed.

Lemma iso_from_ms_exact_witness :
  0 <= 1700000000123 < 4294967296000 /\
  iso_from_ms (PyInt 1700000000123) = Some "2023-11-14T22:13:20.123000Z".
Proof.
  assert (H : 0 <= 1700000000123 < 4294967296000) by lia.
  split; [exact H|].
  rewrite (iso_from_ms_exact 1700000000123 H). vm_compute. reflexivity.
Defined.

(** *** Beyond the last year *)

Lemma canon_valid (M E : Z) (L : location) :
  0 <= M < 2 ^ 53 -> -1074 <= E -> (-1074 < E -> 2 ^ 52 <= M) ->
  valid_binary (canon (round_nearest_even M L) E) = true.
Proof.
  intros HM HE Hn. pose proof (round_nearest_even_bounds M L) as HR.
  set (R := round_nearest_even M L) in *. unfold canon.
  destruct R as [|k|k] eqn:ER; try reflexivity.
  destruct (Z.ltb_spec (Z.pos k) (2 ^ 53)) as [Hlt|Hge].
  - destruct (Z.leb_spec E 971) as [He|He]; [|reflexivity].
    apply valid_finite_intro; [|exact He].
    destruct (Zdigits2_bounds (Z.pos k) ltac:(lia)) as (Hd1 & Hd2 & Hd3).
    assert (Hd : Zdigits2 (Z.pos k) <= 53).
    { assert (Zdigits2 (Z.pos k) - 1 < 53) by (apply pow2_lt_mono; lia). lia. }
    destruct (Z.eq_dec E (-1074)) as [->|Hne]; [unfold fexp64; lia|].
    assert (H52 : 2 ^ 52 <= Z.pos k) by lia.
    assert (Zdigits2 (Z.pos k) = 53) by (apply Zdigits2_unique; [lia|]; split; assumption).
    unfold fexp64. lia.
  - destruct (Z.leb_spec (E + 1) 971) as [He|He]; [|reflexivity].
    apply valid_finite_intro; [|exact He].
    change (Zdigits2 (Z.pos (2 ^ 52))) with 53. unfold fexp64. lia.
Qed.

(** A rounding is a float of the format. *)
Lemma is_rnd_valid (x : spec_float) (q S p : Z) :
  0 < q -> is_rnd x q S p -> valid_binary x = true.
Proof.
  intros Hq (m & e & l & Hm & HS & Hl & Hf & Hs).
  destruct Hs as [->|(s & s' & -> & _)]; [|reflexivity].
  destruct (rnd_spec q S p m e l Hq Hm HS Hl Hf) as (E & M & L & -> & HE & _ & HM & Hn & _).
  apply canon_valid; assumption.
Qed.

Lemma nnib_finite_nnfb (x : spec_float) :
  nnib x = true -> valid_binary x = true -> x <> S754_infinity false -> nnfb x = true.
Proof.
  intros Hn Hv Hi. unfold nnfb. rewrite Hv.
  destruct x as [s|[]| |[] m e]; try discriminate; try reflexivity. congruence.
Qed.

Lemma SFround_nonneg (x : spec_float) (us : Z) :
  nnib x = true -> SFround x = Some us -> 0 <= us.
Proof.
  destruct x as [s|[]| |[] m e]; try discriminate; cbn [SFround]; intros _ [= <-]; [lia|].
  destruct (Z.leb_spec 0 e) as [He|He].
  - pose proof (pow2_pos e He). lia.
  - pose proof (rne_shift_bounds (Z.pos m) (- e) 0 (Z.pos m) ltac:(lia)) as H.
    pose proof (pow2_pos (- e) ltac:(lia)). apply H. nia.
Qed.

(** The whole seconds of a non-negative float are not below an integer the
    float is not below. *)
Lemma split_seconds_at_least (t : float) (K secs us : Z) :
  nnf t -> K * 2 ^ 1074 <= SFval (Prim2SF t) ->
  DateTime.split_seconds t = Ok (secs, us) -> K <= secs.
Proof.
  intros Nt HK. pose proof (pow2_pos 1074 ltac:(lia)) as HQ.
  set (ip := SFval (Prim2SF t) / 2 ^ 1074).
  assert (Hip : K <= ip) by (apply Z.div_le_lower_bound; lia).
  assert (Hipv : ip * 2 ^ 1074 <= SFval (Prim2SF t)).
  { unfold ip. rewrite Z.mul_comm. apply Z.mul_div_le. lia. }
  assert (Hip0 : 0 <= ip) by (apply Z.div_pos; [apply SFval_nonneg; exact Nt|lia]).
  pose proof (SFtrunc_val _ Nt) as Htr. fold ip in Htr.
  (* the float of the integral part *)
  pose proof (normalize_is_rnd ip 0 1074 Hip0 ltac:(lia) ltac:(lia)) as Rc.
  fold (SF64normalize ip 0) in Rc. rewrite Z.add_0_l in Rc.
  pose proof (is_rnd_nnf _ 1 1074 ltac:(lia) Nt) as Rt.
  rewrite Z.sub_diag, Z.mul_1_l, Z.mul_1_r in Rt.
  pose proof (is_rnd_mono _ _ 1 1074 _ _ ltac:(lia) Hipv Rc Rt) as Hct.
  assert (Vc : valid_binary (SF64normalize ip 0) = true)
    by (apply (is_rnd_valid _ 1 1074 _ ltac:(lia) Rc)).
  assert (Nc : nnfb (SF64normalize ip 0) = true).
  { apply (nnfb_below _ (Prim2SF t)); try assumption.
    apply (is_rnd_nni _ 1 1074 _ ltac:(lia) Rc). }
  assert (Ec : Prim2SF (of_Z ip) = SF64normalize ip 0)
    by (unfold of_Z; apply Prim2SF_SF2Prim; exact Vc).
  (* the fraction and its product *)
  assert (Nf : nnf (t - of_Z ip)).
  { unfold nnf. rewrite sub_spec, Ec. apply SFsub_below; try assumption.
    rewrite <- Ec, <- sub_spec. apply Prim2SF_valid. }
  assert (Nd : nnf 1000000) by (vm_compute; reflexivity).
  pose proof (is_rnd_mul _ _ Nf Nd) as Rp. rewrite <- mul_spec in Rp.
  pose proof (is_rnd_nni _ 1 2148 _ ltac:(lia) Rp) as Np.
  unfold DateTime.split_seconds.
  assert (Hsf : match Prim2SF t with S754_nan => False | _ => True end).
  { unfold nnf in Nt. apply nnfb_inv in Nt as [[s Hs]|(m & e & Hs & _)]; rewrite Hs; exact I. }
  assert (Hgen : match SFround (Prim2SF ((t - of_Z ip) * 1000000)) with
                 | None => Raise OverflowError
                 | Some us0 =>
                     let '(ip0, us1) :=
                       if 1000000 <=? us0 then (ip + 1, us0 - 1000000)
                       else if us0 <? 0 then (ip - 1, us0 + 1000000)
                       else (ip, us0) in
                     if (- 2 ^ 63 <=? ip0) && (ip0 <? 2 ^ 63) then Ok (ip0, us1)
                     else Raise OverflowError
                 end = Ok (secs, us) -> K <= secs).
  { destruct (SFround (Prim2SF ((t - of_Z ip) * 1000000))) as [us0|] eqn:Hr; [|discriminate].
    pose proof (SFround_nonneg _ _ Np Hr) as Hus0.
    destruct (Z.leb_spec 1000000 us0).
    - destruct ((- 2 ^ 63 <=? ip + 1) && (ip + 1 <? 2 ^ 63)); [|discriminate].
      intros [= <- _]. lia.
    - destruct (Z.ltb_spec us0 0); [lia|].
      destruct ((- 2 ^ 63 <=? ip) && (ip <? 2 ^ 63)); [|discriminate].
      intros [= <- _]. lia. }
  destruct (Prim2SF t) as [s|s| |s m e]; try contradiction; rewrite Htr; exact Hgen.
Qed.

Lemma iso_from_ms_beyond (n : Z) :
  253402300800000 <= n -> iso_from_ms (PyInt n) = None.
Proof.
  intros Hn. unfold iso_from_ms, py_float.
  pose proof (normalize_is_rnd n 0 1074 ltac:(lia) ltac:(lia) ltac:(lia)) as Rx.
  fold (SF64normalize n 0) in Rx. rewrite Z.add_0_l in Rx.
  pose proof (is_rnd_valid _ 1 1074 _ ltac:(lia) Rx) as Vx.
  pose proof (is_rnd_nni _ 1 1074 _ ltac:(lia) Rx) as Nix.
  destruct (normalize_exact 253402300800000 0 ltac:(vm_compute; split; congruence) ltac:(lia))
    as [N0 V0].
  pose proof (is_rnd_nnf _ 1 1074 ltac:(lia) N0) as R0.
  rewrite Z.sub_diag, Z.mul_1_l, Z.mul_1_r, V0, Z.add_0_l in R0.
  assert (Hle : 253402300800000 * 2 ^ 1074 <= n * 2 ^ 1074)
    by (apply Z.mul_le_mono_nonneg_r; [pose proof (pow2_pos 1074); lia|lia]).
  pose proof (is_rnd_mono _ _ 1 1074 _ _ ltac:(lia) Hle R0 Rx) as H0x.
  assert (Hcase : SF64normalize n 0 = S754_infinity false \/ nnfb (SF64normalize n 0) = true).
  { destruct (SF64normalize n 0) as [s|[]| |[] m e] eqn:E; try discriminate Nix; auto;
      right; apply nnib_finite_nnfb; try assumption; discriminate. }
  destruct Hcase as [Hinf|Nx]; [rewrite Hinf; reflexivity|].
  assert (Hok : match SF64normalize n 0 with
                | S754_infinity _ => Raise OverflowError
                | sf => Ok (SF2Prim sf)
                end = Ok (SF2Prim (SF64normalize n 0))).
  { destruct (SF64normalize n 0) as [s|[]| |[] m e]; try reflexivity; discriminate Nx. }
  rewrite Hok. change (Ok ?a ≫= ?f) with (f a). cbv beta.
  set (x := SF2Prim (SF64normalize n 0)).
  assert (Ex : Prim2SF x = SF64normalize n 0) by (apply Prim2SF_SF2Prim; exact Vx).
  (* the quotient is at least 253402300800 *)
  assert (Hw : Prim2SF 1000 = S754_finite false 8796093022208000 (-43))
    by (vm_compute; reflexivity).
  assert (Vw : valid_binary (S754_finite false 8796093022208000 (-43)) = true)
    by (vm_compute; reflexivity).
  pose proof (is_rnd_div _ 8796093022208000 (-43) Nx Vw) as Rt.
  rewrite <- Hw, <- Ex, <- div_spec in Rt. rewrite Ex in Rt.
  destruct (normalize_exact 253402300800 0 ltac:(vm_compute; split; congruence) ltac:(lia))
    as [NT VT].
  pose proof (is_rnd_nnf _ (Z.pos 8796093022208000) 2200 ltac:(lia) NT) as RT.
  rewrite VT in RT.
  apply SFleb_nnf in H0x; try assumption. rewrite V0 in H0x.
  assert (Hp : Z.pos 8796093022208000 * (253402300800 * 2 ^ (0 + 1074)) * 2 ^ (2200 - 1074)
               <= SFval (SF64normalize n 0) * 2 ^ (1126 - -43)).
  { change (2200 - 1074) with 1126. change (1126 - -43) with (1126 + 43).
    change (0 + 1074) with 1074 in *.
    rewrite (pow2_split 1126 43) by lia.
    change (Z.pos 8796093022208000) with (1000 * 2 ^ 43).
    pose proof (pow2_pos 1126 ltac:(lia)). pose proof (pow2_pos 43 ltac:(lia)).
    revert H0x. generalize (SFval (SF64normalize n 0)). intros sv H0x.
    replace (1000 * 2 ^ 43 * (253402300800 * 2 ^ 1074) * 2 ^ 1126)
      with ((253402300800000 * 2 ^ 1074) * (2 ^ 1126 * 2 ^ 43)) by ring.
    apply Z.mul_le_mono_nonneg_r; [|exact H0x].
    apply Z.mul_nonneg_nonneg; lia. }
  pose proof (is_rnd_mono _ _ (Z.pos 8796093022208000) 2200 _ _ ltac:(lia) Hp RT Rt) as HTt.
  pose proof (nnib_above _ _ NT HTt) as Nit.
  destruct (DateTime.fromtimestamp_utc (x / 1000)) as [dt|err] eqn:Hft; [exfalso|reflexivity].
  unfold DateTime.fromtimestamp_utc in Hft.
  destruct (DateTime.split_seconds (x / 1000)) as [[secs us]|err] eqn:Hs; [|discriminate Hft].
  assert (Nt : nnf (x / 1000)).
  { apply nnib_finite_nnfb; [exact Nit|apply Prim2SF_valid|].
    intros Hinf. unfold DateTime.split_seconds in Hs. rewrite Hinf in Hs. discriminate Hs. }
  assert (Hsecs : 253402300800 <= secs).
  { apply (split_seconds_at_least (x / 1000) _ secs us Nt); [|exact Hs].
    apply SFleb_nnf in HTt; [rewrite VT in HTt; exact HTt|assumption|assumption]. }
  change (Ok (secs, us) ≫= ?f) with (f (secs, us)) in Hft. cbv beta iota in Hft.
  assert (Hd : 2932897 <= secs / 86400) by (apply Z.div_le_lower_bound; lia).
  pose proof (year_beyond_range _ Hd) as Hy. unfold year_of_days in Hy.
  destruct (DateTime.civil_from_days (secs / 86400)) as [[y m] d]. cbn [fst] in Hy.
  destruct (Z.leb_spec y 9999); [lia|].
  rewrite andb_false_r in Hft. discriminate Hft.
Qed.

(** X12.  On a non-negative count of milliseconds [iso_from_ms] returns a string
    exactly up to the last millisecond of the year 9999, and the date and
    time of the string, to the second, are those of [n // 1000] seconds
    after the epoch: the float division never moves the second.  A count of
    whole seconds has no fraction. *)
Theorem iso_from_ms_range (n : Z) :
  0 <= n ->
  (n < 253402300800000 ->
   exists us,
     0 <= us < 1000000 /\ (n mod 1000 = 0 -> us = 0) /\
     iso_from_ms (PyInt n) =
     Some (DateTime.isoformat_naive (utc_datetime (n / 1000) us) ++ "Z")%string) /\
  (253402300800000 <= n -> iso_from_ms (PyInt n) = None).
Proof.
  intros Hn. split; [|apply iso_from_ms_beyond].
  intros Hlt.
  assert (Hk : 0 <= n / 1000 < 253402300800).
  { split; [apply Z.div_pos; lia|]. apply Z.div_lt_upper_bound; lia. }
  pose proof (Z.mod_pos_bound n 1000 ltac:(lia)) as Hr.
  assert (Hsmall : (n / 1000 + 1) * 2 ^ 10 <= 2 ^ 53).
  { change (2 ^ 10) with 1024. change (2 ^ 53) with 9007199254740992. lia. }
  destruct (split_seconds_ms n 10 ltac:(lia) ltac:(lia) Hsmall) as (v & [Hv1 Hv2] & Hsplit).
  set (r := n mod 1000) in *.
  pose proof (Z.div_mod (r * 2 ^ 10) 1000 ltac:(lia)) as Ha.
  pose proof (Z.mod_pos_bound (r * 2 ^ 10) 1000 ltac:(lia)) as Ha'.
  pose proof (Z.div_mod (r * 2 ^ 10 + 999) 1000 ltac:(lia)) as Hb.
  pose proof (Z.mod_pos_bound (r * 2 ^ 10 + 999) 1000 ltac:(lia)) as Hb'.
  set (a := r * 2 ^ 10 / 1000) in *. set (b := (r * 2 ^ 10 + 999) / 1000) in *.
  change (2 ^ 10) with 1024 in *.
  assert (La : 0 <= a) by lia.
  assert (Lb : b <= 1023) by lia.
  assert (Lz : r = 0 -> a = 0 /\ b = 0) by lia.
  clear Ha Ha' Hb Hb' Hsmall. clearbody a b r.
  change (1074 - 10) with 1064 in *.
  assert (HQ : 2 ^ 1074 = 1024 * 2 ^ 1064) by (vm_compute; reflexivity).
  assert (HP : 0 < 2 ^ 1064) by (apply pow2_pos; lia).
  assert (Hus : 0 <= rne_shift v 1074 <= 999999 /\ (r = 0 -> rne_shift v 1074 = 0)).
  { revert Hv1 Hv2 HP HQ. generalize (2 ^ 1064). intros P Hv1 Hv2 HP HQ.
    assert (H1 : 0 * P <= a * 1000000 * P) by (apply Z.mul_le_mono_nonneg_r; lia).
    assert (H2 : b * 1000000 * P <= 1023000000 * P) by (apply Z.mul_le_mono_nonneg_r; lia).
    split.
    - apply rne_shift_bounds; [lia|]. rewrite HQ. lia.
    - intros Hr0. destruct (Lz Hr0) as [-> ->].
      replace v with (0 * 2 ^ 1074) by lia. apply rne_shift_exact. lia. }
  destruct Hus as [Hus Hus0].
  exists (rne_shift v 1074). split; [lia|]. split; [exact Hus0|].
  apply iso_from_ms_split; [change (2 ^ 53) with 9007199254740992; lia| |lia].
  apply Hsplit. lia.
Qed.

Lemma iso_from_ms_range_witness :
  0 <= 253402300799999 /\
  exists us,
    0 <= us < 1000000 /\
    iso_from_ms (PyInt 253402300799999) =
    Some (DateTime.isoformat_naive (utc_datetime 253402300799 us) ++ "Z")%string.
Proof.
  assert (H : 0 <= 253402300799999) by lia.
  assert (H' : 253402300799999 < 253402300800000) by lia.
  split; [exact H|].
  destruct (proj1 (iso_from_ms_range 253402300799999 H) H') as (us & Hus & _ & Hs).
  exists us. split; [exact Hus|exact Hs].
Defined.

(** *** The shape of a timestamp *)

Lemma length_append (s t : string) :
  String.length (s ++ t) = (String.length s + String.length t)%nat.
Proof. induction s as [|c s IH]; [reflexivity|]. simpl. rewrite IH. reflexivity. Qed.

Lemma length_zpad (w : nat) :
  forall (n : Z) (acc : string),
    String.length (DateTime.zpad w n acc) = (w + String.length acc)%nat.
Proof.
  induction w as [|w IH]; intros n acc; [reflexivity|].
  cbn [DateTime.zpad]. rewrite IH. cbn [String.length]. lia.
Qed.

Lemma length_isoformat_naive (dt : DateTime.datetime) :
  String.length (DateTime.isoformat_naive dt) =
  if DateTime.microsecond dt =? 0 then 19%nat else 26%nat.
Proof.
  unfold DateTime.isoformat_naive. cbv zeta.
  change (String.append ?a ?b) with (a ++ b)%string.
  repeat rewrite length_append. rewrite !length_zpad.
  destruct (DateTime.microsecond dt =? 0); [reflexivity|].
  rewrite length_append, length_zpad. reflexivity.
Qed.

(** X13.  Every string [iso_from_ms] returns, for whatever input, has the fixed
    layout of an ISO timestamp: the year is between 1 and 9999, the month
    between 1 and 12, the day between 1 and 31, the hour below 24, minute
    and second below 60, and the string has 20 characters, or 27 when it
    carries microseconds. *)
Theorem iso_from_ms_well_formed (x : pyval) (s : string) :
  iso_from_ms x = Some s ->
  exists dt,
    s = (DateTime.isoformat_naive dt ++ "Z")%string /\
    1 <= DateTime.year dt <= 9999 /\
    1 <= DateTime.month dt <= 12 /\
    1 <= DateTime.day dt <= 31 /\
    0 <= DateTime.hour dt <= 23 /\
    0 <= DateTime.minute dt <= 59 /\
    0 <= DateTime.second dt <= 59 /\
    String.length s = if DateTime.microsecond dt =? 0 then 20%nat else 27%nat.
Proof.
  intros Hs.
  assert (Hdt : exists t dt, DateTime.fromtimestamp_utc t = Ok dt /\
                             s = (DateTime.isoformat_naive dt ++ "Z")%string).
  { unfold iso_from_ms in Hs.
    destruct x; try discriminate; destruct (py_float _) as [t|]; try discriminate;
      cbn in Hs; destruct (DateTime.fromtimestamp_utc _) as [dt|] eqn:Hft; try discriminate;
      cbn in Hs; injection Hs as <-; eexists _, dt; (split; [exact Hft|]);
      unfold DateTime.isoformat; apply str_replace_offset, has_plus_isoformat_naive. }
  destruct Hdt as (t & dt & Hft & ->). exists dt. split; [reflexivity|].
  unfold DateTime.fromtimestamp_utc in Hft.
  destruct (DateTime.split_seconds t) as [[secs us]|err]; [|discriminate Hft].
  change (Ok (secs, us) ≫= ?f) with (f (secs, us)) in Hft. cbv beta iota in Hft.
  pose proof (civil_from_days_fields (secs / 86400)) as Hmd.
  destruct (DateTime.civil_from_days (secs / 86400)) as [[y m] d].
  destruct (Z.leb_spec 1 y); [|discriminate Hft].
  destruct (Z.leb_spec y 9999); [|discriminate Hft].
  cbn [andb] in Hft. injection Hft as <-. cbn [DateTime.year DateTime.month DateTime.day
    DateTime.hour DateTime.minute DateTime.second DateTime.microsecond].
  pose proof (Z.mod_pos_bound secs 86400 ltac:(lia)) as Hsod.
  set (sod := secs mod 86400) in *.
  pose proof (Z.mod_pos_bound sod 3600 ltac:(lia)) as Hm3600.
  pose proof (Z.mod_pos_bound sod 60 ltac:(lia)) as Hm60.
  assert (0 <= sod / 3600 <= 23).
  { split; [apply Z.div_pos; lia|].
    assert (sod / 3600 < 24) by (apply Z.div_lt_upper_bound; lia). lia. }
  assert (0 <= sod mod 3600 / 60 <= 59).
  { split; [apply Z.div_pos; lia|].
    assert (sod mod 3600 / 60 < 60) by (apply Z.div_lt_upper_bound; lia). lia. }
  repeat split; try lia.
  rewrite length_append, length_isoformat_naive.
  cbn [DateTime.microsecond]. destruct (us =? 0); reflexivity.
Qed.

Lemma iso_from_ms_well_formed_witness :
  iso_from_ms (PyInt 1700000000000) = Some "2023-11-14T22:13:20Z" /\
  exists dt,
    "2023-11-14T22:13:20Z" = (DateTime.isoformat_naive dt ++ "Z")%string /\
    1 <= DateTime.month dt <= 12.
Proof.
  assert (H : iso_from_ms (PyInt 1700000000000) = Some "2023-11-14T22:13:20Z")
    by (vm_compute; reflexivity).
  split; [exact H|].
  destruct (iso_from_ms_well_formed _ _ H) as (dt & Hs & _ & Hm & _).
  exists dt. split; [exact Hs|exact Hm].
Defined.

(** ** Integer readings *)

(** The band of a non-negative integer reading: the bands of the table read
    on the integers, 0 to 25, 26 to 50, 51 to 75, 76 to 150, 151 to 250, and
    251 and more. *)
Definition int_band (z : Z) : breakpoint :=
  nth (if z <=? 25 then 0%nat else if z <=? 50 then 1%nat else if z <=? 75 then 2%nat
       else if z <=? 150 then 3%nat else if z <=? 250 then 4%nat else 5%nat)
      BREAKPOINTS top_band.

Lemma of_Z_le (a z : Z) :
  0 <= a <= z -> z < 2 ^ 53 -> fle (of_Z a) (of_Z z).
Proof.
  intros Ha Hz.
  destruct (of_Z_exact a ltac:(lia)) as (Na & Va & _).
  destruct (of_Z_exact z ltac:(lia)) as (Nz & Vz & _).
  apply fle_SFval; try assumption. rewrite Va, Vz.
  apply Z.mul_le_mono_nonneg_r; [pose proof (pow2_pos 1074); lia|lia].
Qed.

Lemma int_in_band (b : breakpoint) (lo hi z : Z) :
  nnf (pm_lo b) -> nnf (pm_hi b) ->
  fle (pm_lo b) (of_Z lo) -> fle (of_Z hi) (pm_hi b) ->
  0 <= lo <= z -> z <= hi < 2 ^ 53 ->
  in_band b (of_Z z) = true.
Proof.
  intros Nlo Nhi Hlo Hhi Hz1 Hz2.
  destruct (of_Z_exact lo ltac:(lia)) as (Nl & _ & _).
  destruct (of_Z_exact hi ltac:(lia)) as (Nh & _ & _).
  destruct (of_Z_exact z ltac:(lia)) as (Nz & _ & _).
  pose proof (of_Z_le lo z ltac:(lia) ltac:(lia)) as H1.
  pose proof (of_Z_le z hi ltac:(lia) ltac:(lia)) as H2.
  unfold in_band. apply andb_true_iff. split.
  - exact (fle_trans _ _ _ Nlo Nl Nz Hlo H1).
  - exact (fle_trans _ _ _ Nz Nh Nhi H2 Hhi).
Qed.

Lemma int_in_top_band (z : Z) : 251 <= z < 2 ^ 53 -> in_band top_band (of_Z z) = true.
Proof.
  intros Hz.
  destruct (of_Z_exact 251 ltac:(vm_compute; split; congruence)) as (Nl & _ & _).
  destruct (of_Z_exact z ltac:(lia)) as (Nz & _ & _).
  pose proof (of_Z_le 251 z ltac:(lia) ltac:(lia)) as H1.
  assert (Nt : nnf (pm_lo top_band)) by (vm_compute; reflexivity).
  assert (H0 : fle (pm_lo top_band) (of_Z 251)) by (vm_compute; reflexivity).
  unfold in_band. apply andb_true_iff. split.
  - exact (fle_trans _ _ _ Nt Nl Nz H0 H1).
  - cbn [pm_hi top_band]. apply leb_infinity, nnf_not_nan. exact Nz.
Qed.

Lemma int_band_contains (z : Z) :
  0 <= z < 2 ^ 53 -> In (int_band z) BREAKPOINTS /\ in_band (int_band z) (of_Z z) = true.
Proof.
  intros Hz. unfold int_band.
  destruct (Z.leb_spec z 25);
    [|destruct (Z.leb_spec z 50);
      [|destruct (Z.leb_spec z 75);
        [|destruct (Z.leb_spec z 150); [|destruct (Z.leb_spec z 250)]]]];
    cbn [nth BREAKPOINTS]; (split; [cbn; tauto|]).
  - apply (int_in_band _ 0 25); [vm_compute; reflexivity..|lia|lia].
  - apply (int_in_band _ 26 50); [vm_compute; reflexivity..|lia|lia].
  - apply (int_in_band _ 51 75); [vm_compute; reflexivity..|lia|lia].
  - apply (int_in_band _ 76 150); [vm_compute; reflexivity..|lia|lia].
  - apply (int_in_band _ 151 250); [vm_compute; reflexivity..|lia|lia].
  - apply int_in_top_band. lia.
Qed.

(** X14.  No integer reading falls into a gap of the table: a non-negative integer
    (below 2^53) is classified into the band of the table read on the
    integers, with an estimate inside the band's AQI interval. *)
Theorem classify_pm25_integer (z : Z) :
  0 <= z < 2 ^ 53 ->
  exists est,
    classify_pm25 (PyInt z) = Ok (band_result (int_band z) est) /\
    aqi_lo (int_band z) <= est <= aqi_hi (int_band z).
Proof.
  intros Hz. destruct (of_Z_exact z Hz) as (Nz & _ & Hf).
  destruct (int_band_contains z Hz) as [Hb Hin].
  assert (Hc : classify_pm25 (PyInt z) = classify_pm25 (PyFloat (of_Z z))).
  { unfold classify_pm25. rewrite Hf. reflexivity. }
  rewrite Hc. apply classify_in_band; try assumption.
  destruct (of_Z_exact (2 ^ 53 - 1) ltac:(lia)) as (Nm & _ & _).
  assert (Nh : nnf 1e300) by (vm_compute; reflexivity).
  assert (H1 : fle (of_Z z) (of_Z (2 ^ 53 - 1))) by (apply of_Z_le; lia).
  assert (H2 : fle (of_Z (2 ^ 53 - 1)) 1e300) by (vm_compute; reflexivity).
  exact (fle_trans _ _ _ Nz Nm Nh H1 H2).
Qed.

Lemma classify_pm25_integer_witness :
  0 <= 26 < 2 ^ 53 /\
  exists est,
    classify_pm25 (PyInt 26) = Ok (band_result (int_band 26) est) /\
    aqi_lo (int_band 26) <= est <= aqi_hi (int_band 26).
Proof.
  assert (H : 0 <= 26 < 2 ^ 53) by (vm_compute; split; congruence).
  split; [exact H|]. exact (classify_pm25_integer 26 H).
Defined.

(** ** Numbers given as decimal strings *)

Import FloatParse.

(** The character of a decimal digit. *)
Definition digit_char (d : Z) : ascii := ascii_of_nat (48 + Z.to_nat d).

Lemma digit_char_code (d : Z) :
  0 <= d < 10 -> Z.of_nat (nat_of_ascii (digit_char d)) = 48 + d.
Proof.
  intros Hd. unfold digit_char. rewrite nat_ascii_embedding by lia. lia.
Qed.

Lemma digit_of_digit_char (d : Z) : 0 <= d < 10 -> digit_of (digit_char d) = Some d.
Proof.
  intros Hd. unfold digit_of. cbv zeta. rewrite (digit_char_code d Hd).
  destruct (Z.leb_spec 48 (48 + d)); [|lia].
  destruct (Z.leb_spec (48 + d) 57); [|lia].
  cbn [andb]. f_equal. lia.
Qed.

Lemma is_space_digit_char (d : Z) : 0 <= d < 10 -> is_space (digit_char d) = false.
Proof.
  intros Hd. unfold is_space. cbv zeta. rewrite (digit_char_code d Hd).
  destruct (Z.leb_spec (48 + d) 13); [lia|].
  destruct (Z.eqb_spec (48 + d) 32); [lia|].
  rewrite andb_false_r. reflexivity.
Qed.

Lemma digit_char_neq (d : Z) (c : ascii) :
  0 <= d < 10 -> digit_of c = None -> Ascii.eqb (digit_char d) c = false.
Proof.
  intros Hd Hc. apply Ascii.eqb_neq. intros <-.
  rewrite digit_of_digit_char in Hc by assumption. discriminate Hc.
Qed.

Lemma lower_digit_char (d : Z) : 0 <= d < 10 -> lower (digit_char d) = digit_char d.
Proof.
  intros Hd. unfold lower. cbv zeta. rewrite (digit_char_code d Hd).
  destruct (Z.leb_spec 65 (48 + d)); [lia|]. reflexivity.
Qed.

(** The strings [str] yields for a non-negative integer: digit characters
    only, read back by [digits_tail] as the integer. *)
Definition all_digits (s : string) : Prop :=
  Forall (fun c => exists d, 0 <= d < 10 /\ c = digit_char d) (list_ascii_of_string s).

Lemma digits_of_pos_read (fuel : nat) :
  forall (n : Z) (acc : string) (A c : Z),
    (0 < fuel)%nat -> 0 <= n < 10 ^ Z.of_nat fuel ->
    exists k,
      0 < k /\
      digits_tail (list_ascii_of_string (digits_of_pos fuel n acc)) A c =
      digits_tail (list_ascii_of_string acc) (A * 10 ^ k + n) (c + k).
Proof.
  induction fuel as [|fuel IH]; intros n acc A c Hf Hn.
  - lia.
  - cbn [digits_of_pos].
    pose proof (Z.mod_pos_bound n 10 ltac:(lia)) as Hm.
    pose proof (Z.div_mod n 10 ltac:(lia)) as Hdm.
    fold (digit_char (n mod 10)).
    destruct (Z.ltb_spec n 10) as [Hlt|Hge].
    + exists 1. split; [lia|].
      cbn [list_ascii_of_string digits_tail]. rewrite digit_of_digit_char by assumption.
      rewrite Z.mod_small by lia. change (10 ^ 1) with 10. f_equal; lia.
    + assert (Hq : 0 <= n / 10 < 10 ^ Z.of_nat fuel).
      { split; [apply Z.div_pos; lia|]. apply Z.div_lt_upper_bound; [lia|].
        rewrite Nat2Z.inj_succ, Z.pow_succ_r in Hn by lia. lia. }
      assert (Hf' : (0 < fuel)%nat).
      { destruct fuel; [|lia]. change (10 ^ Z.of_nat 1) with 10 in Hn. lia. }
      destruct (IH (n / 10) (String (digit_char (n mod 10)) acc) A c Hf' Hq) as (k & Hk & ->).
      exists (k + 1). split; [lia|].
      cbn [list_ascii_of_string digits_tail]. rewrite digit_of_digit_char by assumption.
      rewrite Z.pow_add_r by lia. change (10 ^ 1) with 10. f_equal; lia.
Qed.

Lemma digits_of_pos_all_digits (fuel : nat) :
  forall (n : Z) (acc : string),
    0 <= n -> all_digits acc -> all_digits (digits_of_pos fuel n acc).
Proof.
  induction fuel as [|fuel IH]; intros n acc Hn Hacc; [exact Hacc|].
  cbn [digits_of_pos]. fold (digit_char (n mod 10)).
  pose proof (Z.mod_pos_bound n 10 ltac:(lia)) as Hm.
  assert (Hacc' : all_digits (String (digit_char (n mod 10)) acc)).
  { unfold all_digits. cbn [list_ascii_of_string]. constructor; [eauto|exact Hacc]. }
  destruct (n <? 10); [exact Hacc'|].
  apply IH; [apply Z.div_pos; lia|exact Hacc'].
Qed.

Lemma digits_of_pos_nonempty (fuel : nat) (n : Z) (acc : string) :
  (0 < fuel)%nat -> digits_of_pos fuel n acc <> EmptyString.
Proof.
  revert n acc. induction fuel as [|fuel IH]; intros n acc Hf; [lia|].
  cbn [digits_of_pos]. destruct (n <? 10); [discriminate|].
  destruct fuel as [|fuel']; [cbn; discriminate|]. apply IH. lia.
Qed.

Lemma pow10_log2 (a : Z) : 0 <= a -> a < 10 ^ Z.of_nat (S (Z.to_nat (Z.log2 a))).
Proof.
  intros Ha. rewrite Nat2Z.inj_succ, Z2Nat.id by apply Z.log2_nonneg.
  destruct (Z.eq_dec a 0) as [->|Hne]; [cbn; lia|].
  pose proof (Z.log2_spec a ltac:(lia)) as [_ Hlt].
  pose proof (Z.log2_nonneg a) as Hl.
  assert (2 ^ Z.succ (Z.log2 a) <= 10 ^ Z.succ (Z.log2 a))
    by (apply Z.pow_le_mono_l; lia).
  lia.
Qed.

Lemma lstrip_digits (l : list ascii) :
  Forall (fun c => exists d, 0 <= d < 10 /\ c = digit_char d) l -> lstrip l = l.
Proof.
  intros [|c l' (d & Hd & ->) _]; [reflexivity|].
  cbn [lstrip]. rewrite is_space_digit_char by assumption. reflexivity.
Qed.

Lemma strip_digits (l : list ascii) :
  Forall (fun c => exists d, 0 <= d < 10 /\ c = digit_char d) l -> strip l = l.
Proof.
  intros Hl. unfold strip. rewrite (lstrip_digits l Hl).
  rewrite lstrip_digits by (apply Forall_rev; exact Hl).
  apply rev_involutive.
Qed.

(** ASCII bytes are their own code points, and [float] keeps them. *)
Lemma utf8_decode_ascii (l : list ascii) :
  Forall (fun c => Z.of_nat (nat_of_ascii c) < 128) l ->
  utf8_decode l 0 0 = Some (map (fun c => Z.of_nat (nat_of_ascii c)) l).
Proof.
  induction 1 as [|c l Hc _ IH]; [reflexivity|].
  cbn [utf8_decode map]. cbv zeta.
  destruct (Z.ltb_spec (Z.of_nat (nat_of_ascii c)) 128); [|lia].
  rewrite IH. reflexivity.
Qed.

Lemma transform_ascii (l : list ascii) :
  Forall (fun c => Z.of_nat (nat_of_ascii c) < 128) l ->
  transform (map (fun c => Z.of_nat (nat_of_ascii c)) l) = Some l.
Proof.
  induction 1 as [|c l Hc _ IH]; [reflexivity|].
  cbn [transform map]. rewrite IH. unfold to_ascii.
  destruct (Z.ltb_spec (Z.of_nat (nat_of_ascii c)) 128); [|lia].
  rewrite Nat2Z.id, ascii_nat_embedding. reflexivity.
Qed.

Lemma digits_ascii (l : list ascii) :
  Forall (fun c => exists d, 0 <= d < 10 /\ c = digit_char d) l ->
  Forall (fun c => Z.of_nat (nat_of_ascii c) < 128) l.
Proof.
  intros H. eapply Forall_impl; [exact H|].
  intros c (d & Hd & ->). cbv beta. rewrite (digit_char_code d Hd). lia.
Qed.

(** [float] reads the decimal string of a non-negative integer as the float
    nearest to the integer. *)
Lemma float_of_string_digits (z : Z) :
  0 <= z -> float_of_string (str_of_Z z) = Some (of_decimal false z 0).
Proof.
  intros Hz. unfold str_of_Z. cbv zeta. rewrite Z.abs_eq by lia.
  destruct (Z.ltb_spec z 0); [lia|].
  set (s := digits_of_pos (S (Z.to_nat (Z.log2 z))) z "").
  assert (Hall : all_digits s)
    by (apply digits_of_pos_all_digits; [lia|constructor]).
  assert (Hne : s <> EmptyString) by (apply digits_of_pos_nonempty; lia).
  destruct (digits_of_pos_read _ z EmptyString 0 0 (Nat.lt_0_succ _) (conj Hz (pow10_log2 z Hz)))
    as (k & Hk & Hread).
  fold s in Hread. cbn [list_ascii_of_string digits_tail] in Hread.
  unfold float_of_string. unfold all_digits in Hall.
  rewrite (utf8_decode_ascii _ (digits_ascii _ Hall)).
  rewrite (transform_ascii _ (digits_ascii _ Hall)).
  unfold float_of_chars. rewrite (strip_digits _ Hall).
  destruct (list_ascii_of_string s) as [|c l] eqn:El.
  { destruct s; [congruence|discriminate El]. }
  pose proof (Forall_inv Hall) as (d & Hd & ->).
  assert (Hsign : sign (digit_char d :: l) = (false, digit_char d :: l)).
  { unfold sign. rewrite !digit_char_neq by (try assumption; reflexivity). reflexivity. }
  rewrite Hsign.
  assert (Hword : forall w : string,
             (exists c' w', w = String c' w' /\ digit_of c' = None) ->
             String.eqb (string_of_list_ascii (map lower (digit_char d :: l))) w = false).
  { intros w (c' & w' & -> & Hc'). cbn [map string_of_list_ascii String.eqb].
    rewrite lower_digit_char by assumption.
    rewrite digit_char_neq by assumption. reflexivity. }
  rewrite !Hword by (eexists _, _; split; reflexivity).
  cbn [orb].
  assert (Hnum : number (digit_char d :: l) = Some (z, 0, [])).
  { unfold number, digitpart. rewrite digit_of_digit_char by assumption.
    cbn [digits_tail] in Hread. rewrite digit_of_digit_char in Hread by assumption.
    assert (Htail : digits_tail l (10 * 0 + d) 1 = (z, k, [])).
    { change 1 with (0 + 1) at 1. rewrite Hread. reflexivity. }
    rewrite Htail. reflexivity. }
  rewrite Hnum. cbn [exponent]. replace (0 - 0) with 0 by lia. reflexivity.
Qed.

(** X15.  A non-negative integer given as its decimal string is treated as the
    integer, whenever the integer has a float: [float] yields the same
    float, and [classify_pm25] and [iso_from_ms] the same results. *)
Theorem decimal_string_as_integer (z : Z) :
  0 <= z -> raises (py_float (PyInt z)) = false ->
  py_float (PyStr (str_of_Z z)) = py_float (PyInt z) /\
  classify_pm25 (PyStr (str_of_Z z)) = classify_pm25 (PyInt z) /\
  iso_from_ms (PyStr (str_of_Z z)) = iso_from_ms (PyInt z).
Proof.
  intros Hz Hr.
  assert (Hf : py_float (PyStr (str_of_Z z)) = py_float (PyInt z)).
  { unfold py_float in *. rewrite (float_of_string_digits z Hz).
    unfold of_decimal. cbv zeta. change (10 ^ 0) with 1. rewrite Z.mul_1_r.
    cbn [Z.leb Z.compare]. unfold SF64normalize in *.
    destruct (Z.eqb_spec z 0) as [->|Hne]; [reflexivity|].
    destruct (binary_normalize prec emax z 0 false) as [s|s| |s m e];
      try reflexivity. discriminate Hr. }
  split; [exact Hf|].
  split; [unfold classify_pm25|unfold iso_from_ms]; rewrite Hf; reflexivity.
Qed.

Lemma decimal_string_as_integer_witness :
  0 <= 1700000000000 /\
  raises (py_float (PyInt 1700000000000)) = false /\
  str_of_Z 1700000000000 = "1700000000000" /\
  iso_from_ms (PyStr (str_of_Z 1700000000000)) = iso_from_ms (PyInt 1700000000000).
Proof.
  assert (H : 0 <= 1700000000000) by lia.
  assert (Hr : raises (py_float (PyInt 1700000000000)) = false) by (vm_compute; reflexivity).
  split; [exact H|]. split; [exact Hr|]. split; [vm_compute; reflexivity|].
  exact (proj2 (proj2 (decimal_string_as_integer 1700000000000 H Hr))).
Defined.
